(** * opencode-chat-recall: transcript store and chunk search

    A shallow embedding of [src/storage.ts], [src/search.ts],
    [src/formatter.ts], [src/tools.ts] and the hooks of the plugin entry
    point, followed by the properties of the transcript store, the chunk
    builder, the renderers, the search engine, the retention sweep, the
    hooks and the two tools.

    Conventions of the embedding

    - A JavaScript string is a [string]: a sequence of code units, taken in
      the Latin-1 range (one [ascii] per code unit).  [toLowerCase], the
      whitespace class of [/\s+/] and the case folding of the [i] flag are
      the restrictions of the JavaScript ones to that range.
    - A JavaScript number that holds a timestamp, an offset or a limit is a
      [Z]; [undefined] is [None].
    - [Date.now()] is an explicit argument [now].
    - The file system below [TRANSCRIPT_DIR] is a value of type [Disk]; an
      operation that reads or writes it is a computation of the monad [IO],
      which threads the disk and an exception.  The failures embedded are a
      missing file or directory, a file that does not parse as JSON, and a
      [RegExp] syntax error; a write always succeeds.
    - The rendering of a date ([toISOString], [toLocaleString]) and the
      indentation of [JSON.stringify(value, null, 2)] belong to the host;
      the renderers and the tools take them as arguments.
    - [log.*] appends to a log file outside [TRANSCRIPT_DIR]; it is not part
      of the state. *)

From Stdlib Require Import String Ascii List ZArith Lia Bool DecimalString.
From Stdlib Require Import Sorting.Permutation Sorting.Sorted DecimalNat.
From stdpp Require Import gmap strings.
Import ListNotations.
Local Open Scope Z_scope.
Local Open Scope string_scope.
Local Open Scope list_scope.

(* ================================================================= *)
(** ** JavaScript strings *)

Module JsString.

(** Code units of a string, and back. *)
Fixpoint chars (s : string) : list ascii :=
  match s with
  | EmptyString => []
  | String c s' => c :: chars s'
  end.

Fixpoint ofChars (l : list ascii) : string :=
  match l with
  | [] => EmptyString
  | c :: l' => String c (ofChars l')
  end.

Definition code (c : ascii) : N := N_of_ascii c.

(** [String.prototype.toLowerCase] on one Latin-1 code unit: A-Z, and the
    accented capitals U+00C0-U+00DE except the multiplication sign U+00D7. *)
Definition lowerChar (c : ascii) : ascii :=
  let n := code c in
  if ((65 <=? n) && (n <=? 90) ||
      (192 <=? n) && (n <=? 222) && negb (n =? 215))%N
  then ascii_of_N (n + 32) else c.

(** [s.toLowerCase()] on Latin-1 code units.  There it maps code unit by
    code unit and keeps the length; outside that range the built-in does
    not (U+0130 becomes two code units). *)
Fixpoint toLowerCase (s : string) : string :=
  match s with
  | EmptyString => EmptyString
  | String c s' => String (lowerChar c) (toLowerCase s')
  end.

(** The class [\s] of a regular expression, in the Latin-1 range:
    TAB, LF, VT, FF, CR, SPACE and NO-BREAK SPACE. *)
Definition isWhitespace (c : ascii) : bool :=
  let n := code c in
  ((9 <=? n) && (n <=? 13) || (n =? 32) || (n =? 160))%N.

(** [s.startsWith(p)] *)
Fixpoint startsWith (s p : string) : bool :=
  match p, s with
  | EmptyString, _ => true
  | String _ _, EmptyString => false
  | String b p', String a s' => Ascii.eqb a b && startsWith s' p'
  end.

(** [s.endsWith(p)] *)
Definition endsWith (s p : string) : bool :=
  let n := String.length s in
  let m := String.length p in
  (m <=? n)%nat && String.eqb (substring (n - m) m s) p.

(** [s.includes(t)] *)
Fixpoint includes (s t : string) : bool :=
  startsWith s t ||
  match s with
  | EmptyString => false
  | String _ s' => includes s' t
  end.

(** [s.indexOf(t)]: the least offset at which [t] occurs, or -1. *)
Fixpoint indexOf (s t : string) : Z :=
  if startsWith s t then 0
  else match s with
       | EmptyString => -1
       | String _ s' =>
           let i := indexOf s' t in
           if (i =? -1)%Z then -1 else i + 1
       end.

Definition len (s : string) : Z := Z.of_nat (String.length s).

(** Relative offsets of [slice]: a negative one counts from the end, and
    both are clamped to the string. *)
Definition clampIndex (n : Z) (i : Z) : Z :=
  if (i <? 0)%Z then Z.max (n + i) 0 else Z.min i n.

(** [s.slice(a, b)] *)
Definition slice (s : string) (a b : Z) : string :=
  let from := clampIndex (len s) a in
  let to := clampIndex (len s) b in
  substring (Z.to_nat from) (Z.to_nat (Z.max (to - from) 0)) s.

(** [s.split(/\s+/)]: the pieces between maximal runs of whitespace; a
    run at either end leaves an empty piece there.  [cur] is the piece
    being read (reversed) and [inRun] tells that the previous code unit
    was whitespace. *)
Fixpoint splitWsFrom (cur : list ascii) (inRun : bool) (s : string)
  : list string :=
  match s with
  | EmptyString => [ofChars (rev cur)]
  | String c s' =>
      if isWhitespace c then
        if inRun then splitWsFrom [] true s'
        else ofChars (rev cur) :: splitWsFrom [] true s'
      else splitWsFrom (c :: cur) false s'
  end.

Definition splitWhitespace (s : string) : list string :=
  splitWsFrom [] false s.

(** [Boolean(s)] for a string: the empty string is the only falsy one. *)
Definition truthy (s : string) : bool :=
  match s with
  | EmptyString => false
  | String _ _ => true
  end.

(** [parts.join(sep)] *)
Definition join (sep : string) (parts : list string) : string :=
  String.concat sep parts.

(** [s.repeat(n)] *)
Fixpoint repeatString (s : string) (n : nat) : string :=
  match n with
  | O => EmptyString
  | S k => s +:+ repeatString s k
  end.

(** [arr.slice(0, n)] of an array. *)
Definition sliceTo {A : Type} (l : list A) (n : Z) : list A :=
  firstn (Z.to_nat (clampIndex (Z.of_nat (length l)) n)) l.

End JsString.
Import JsString.

(* ================================================================= *)
(** ** Objects used as maps, and directory listings

    [index.transcripts] is a JavaScript object used as a map.  Its own
    string keys are enumerated in insertion order ([Object.values],
    [Object.entries]), so it is an association list with unique keys:
    assigning to a key that is present keeps its place, assigning to a new
    key appends.  (Keys that are canonical array indices would be
    enumerated first; session identifiers are not of that form.)  The
    entries of a directory are kept the same way, [readdir] listing them
    in the order of their creation; the order only decides between chunks
    with equal timestamps. *)

Module Assoc.

Section Ops.
Context {V : Type}.

Fixpoint get (k : string) (o : list (string * V)) : option V :=
  match o with
  | [] => None
  | (k', v) :: o' => if String.eqb k' k then Some v else get k o'
  end.

(** [o[k] = v] *)
Fixpoint set (k : string) (v : V) (o : list (string * V)) : list (string * V) :=
  match o with
  | [] => [(k, v)]
  | (k', v') :: o' =>
      if String.eqb k' k then (k, v) :: o' else (k', v') :: set k v o'
  end.

(** [delete o[k]] *)
Fixpoint remove (k : string) (o : list (string * V)) : list (string * V) :=
  match o with
  | [] => []
  | (k', v') :: o' =>
      if String.eqb k' k then remove k o' else (k', v') :: remove k o'
  end.

Definition keys (o : list (string * V)) : list string := map fst o.
Definition values (o : list (string * V)) : list V := map snd o.
End Ops.

End Assoc.

(* ================================================================= *)
(** ** types.ts *)

Module Types.

Inductive Role := user | assistant.

Record TranscriptMetadata := {
  sessionID : string;
  projectID : string;
  title : string;
  directory : string;
  worktree : string;
  createdAt : Z;
  updatedAt : Z;
  messageCount : Z;
  compacted : bool;
  compactedAt : option Z;
  expiresAt : Z
}.

Record TranscriptIndex := {
  version : Z;
  transcripts : list (string * TranscriptMetadata)
}.

Record TranscriptChunk := {
  chunk_id : string;
  chunk_sessionID : string;
  messageID : string;
  role : Role;
  content : string;
  timestamp : Z;
  partTypes : list string
}.

Record Transcript := {
  metadata : TranscriptMetadata;
  markdown : string;
  text : string;
  chunks : list TranscriptChunk
}.

Record SearchContext := {
  before : option string;
  after : option string
}.

Record SearchResult := {
  result_sessionID : string;
  sessionTitle : string;
  result_messageID : string;
  result_role : Role;
  excerpt : string;
  result_timestamp : Z;
  score : Z;
  context : SearchContext
}.

End Types.
Export Types.

(** A stable sort, as [Array.prototype.sort] is: [le a b] tells that the
    comparator's result on [(a, b)] is not positive, and an element stays
    before the later elements it does not exceed. *)
Section StableSort.
Context {A : Type} (le : A -> A -> bool).

Fixpoint insertSorted (x : A) (l : list A) : list A :=
  match l with
  | [] => [x]
  | y :: l' => if le x y then x :: y :: l' else y :: insertSorted x l'
  end.

Fixpoint stableSort (l : list A) : list A :=
  match l with
  | [] => []
  | x :: l' => insertSorted x (stableSort l')
  end.
End StableSort.

(* ================================================================= *)
(** ** The transcript directory and the monad of its operations *)

(** A file read with [.json()]: it holds a value of the expected shape or
    does not parse. *)
Inductive JsonFile (A : Type) :=
  | Json (a : A)
  | Malformed.
Arguments Json {A} a.
Arguments Malformed {A}.

(** [<TRANSCRIPT_DIR>/<sessionID>/]: each file is present or not, and so
    is the [chunks] directory, whose entries are kept in [readdir] order. *)
Record SessionDir := {
  metadata_json : option (JsonFile TranscriptMetadata);
  transcript_md : option string;
  transcript_txt : option string;
  chunks_dir : option (list (string * JsonFile TranscriptChunk))
}.

(** [TRANSCRIPT_DIR]: its absolute path ([~/.local/share/opencode/transcripts]
    under the home directory of the process), [index.json], and one
    directory per session. *)
Record Disk := {
  TRANSCRIPT_DIR : string;
  index_json : option (JsonFile TranscriptIndex);
  session_dirs : gmap string SessionDir
}.

Inductive Exn :=
  | ENOENT              (* no such file or directory *)
  | JSONParseError      (* [.json()] of a file that does not parse *)
  | RegExpSyntaxError.  (* [new RegExp] of an invalid pattern *)

(** The outcome of a call: a value, an exception, or [Unmodelled] when the
    call leaves the part of JavaScript embedded here (see [newRegExp]);
    no [catch] handles the last. *)
Inductive Result (A : Type) :=
  | Ok (a : A)
  | Throw (e : Exn)
  | Unmodelled.
Arguments Ok {A} a.
Arguments Throw {A} e.
Arguments Unmodelled {A}.

#[global] Instance Result_ret : MRet Result := fun A a => Ok a.
#[global] Instance Result_bind : MBind Result := fun A B f m =>
  match m with
  | Ok a => f a
  | Throw e => Throw e
  | Unmodelled => Unmodelled
  end.

Definition IO (A : Type) : Type := Disk -> Result A * Disk.

#[global] Instance IO_ret : MRet IO := fun A a d => (Ok a, d).
#[global] Instance IO_bind : MBind IO := fun A B f m d =>
  match m d with
  | (Ok a, d') => f a d'
  | (Throw e, d') => (Throw e, d')
  | (Unmodelled, d') => (Unmodelled, d')
  end.

Module Fs.

Definition throw {A : Type} (e : Exn) : IO A := fun d => (Throw e, d).

(** [try { m } catch (e) { handler e }] *)
Definition tryCatch {A : Type} (m : IO A) (handler : Exn -> IO A) : IO A :=
  fun d =>
    match m d with
    | (Throw e, d') => handler e d'
    | r => r
    end.

Definition liftResult {A : Type} (r : Result A) : IO A := fun d => (r, d).

Definition getDisk : IO Disk := fun d => (Ok d, d).

(** [join(a, b)] of [node:path], for segments that need no normalising. *)
Definition join (a b : string) : string := a +:+ "/" +:+ b.

Definition emptySessionDir : SessionDir :=
  {| metadata_json := None; transcript_md := None; transcript_txt := None;
     chunks_dir := None |}.

Definition isEmptySessionDir (sd : SessionDir) : bool :=
  match metadata_json sd, transcript_md sd, transcript_txt sd, chunks_dir sd with
  | None, None, None, None => true
  | _, _, _, _ => false
  end.

Definition setSessionDirs (m : gmap string SessionDir) (d : Disk) : Disk :=
  {| TRANSCRIPT_DIR := TRANSCRIPT_DIR d; index_json := index_json d;
     session_dirs := m |}.

Definition setIndexJson (f : option (JsonFile TranscriptIndex)) (d : Disk) : Disk :=
  {| TRANSCRIPT_DIR := TRANSCRIPT_DIR d; index_json := f;
     session_dirs := session_dirs d |}.

(** The session directory, or [ENOENT]. *)
Definition openSessionDir (sessionID : string) : IO SessionDir :=
  fun d =>
    match session_dirs d !! sessionID with
    | Some sd => (Ok sd, d)
    | None => (Throw ENOENT, d)
    end.

(** Rewrites the session directory, creating it (and its parents) when it
    is missing, as [Bun.write] and [mkdir] with [recursive] do. *)
Definition modifySessionDir (sessionID : string) (f : SessionDir -> SessionDir)
  : IO unit :=
  fun d =>
    let sd := default emptySessionDir (session_dirs d !! sessionID) in
    (Ok tt, setSessionDirs (<[sessionID := f sd]> (session_dirs d)) d).

(** [Bun.file(path).json()] *)
Definition parseJson {A : Type} (f : option (JsonFile A)) : IO A :=
  match f with
  | Some (Json a) => mret a
  | Some Malformed => throw JSONParseError
  | None => throw ENOENT
  end.

(** [Bun.file(path).text()] *)
Definition readText (f : option string) : IO string :=
  match f with
  | Some s => mret s
  | None => throw ENOENT
  end.

End Fs.

(* ================================================================= *)
(** ** storage.ts *)

Module Storage.
Import Fs.

Definition RETENTION_DAYS : Z := 7.
Definition INDEX_VERSION : Z := 1.

Definition withTranscripts (index : TranscriptIndex)
    (ts : list (string * TranscriptMetadata)) : TranscriptIndex :=
  {| version := version index; transcripts := ts |}.

(** [mkdir(dir, { recursive: true })] of the session directory. *)
Definition getSessionDir (sessionID : string) : IO string :=
  modifySessionDir sessionID (fun sd => sd);;
  d ← getDisk;
  mret (join (TRANSCRIPT_DIR d) sessionID).

Definition readIndex : IO TranscriptIndex :=
  tryCatch
    (d ← getDisk; parseJson (index_json d))
    (fun _ => mret {| version := INDEX_VERSION; transcripts := [] |}).

Definition writeIndex (index : TranscriptIndex) : IO unit :=
  fun d => (Ok tt, setIndexJson (Some (Json index)) d).

Definition updateIndexEntry (metadata : TranscriptMetadata) : IO unit :=
  index ← readIndex;
  writeIndex
    (withTranscripts index
       (Assoc.set (sessionID metadata) metadata (transcripts index))).

Definition removeIndexEntry (sessionID : string) : IO unit :=
  index ← readIndex;
  writeIndex (withTranscripts index (Assoc.remove sessionID (transcripts index))).

Definition writeMetadata (m : TranscriptMetadata) (sd : SessionDir) : SessionDir :=
  {| metadata_json := Some (Json m); transcript_md := transcript_md sd;
     transcript_txt := transcript_txt sd; chunks_dir := chunks_dir sd |}.

Definition writeMarkdown (s : string) (sd : SessionDir) : SessionDir :=
  {| metadata_json := metadata_json sd; transcript_md := Some s;
     transcript_txt := transcript_txt sd; chunks_dir := chunks_dir sd |}.

Definition writeText (s : string) (sd : SessionDir) : SessionDir :=
  {| metadata_json := metadata_json sd; transcript_md := transcript_md sd;
     transcript_txt := Some s; chunks_dir := chunks_dir sd |}.

Definition setChunksDir (c : option (list (string * JsonFile TranscriptChunk)))
    (sd : SessionDir) : SessionDir :=
  {| metadata_json := metadata_json sd; transcript_md := transcript_md sd;
     transcript_txt := transcript_txt sd; chunks_dir := c |}.

(** [mkdir(chunksDir, { recursive: true })] *)
Definition mkdirChunks (sd : SessionDir) : SessionDir :=
  setChunksDir (Some (default [] (chunks_dir sd))) sd.

(** [Bun.write(join(chunksDir, `${chunk.id}.json`), JSON.stringify(chunk))] *)
Definition writeChunk (chunk : TranscriptChunk) (sd : SessionDir) : SessionDir :=
  setChunksDir
    (Some (Assoc.set (chunk_id chunk +:+ ".json") (Json chunk)
             (default [] (chunks_dir sd))))
    sd.

Fixpoint writeChunks (sessionID : string) (cs : list TranscriptChunk) : IO unit :=
  match cs with
  | [] => mret tt
  | chunk :: cs' =>
      modifySessionDir sessionID (writeChunk chunk);;
      writeChunks sessionID cs'
  end.

Definition saveTranscript (transcript : Transcript) : IO string :=
  let sid := sessionID (metadata transcript) in
  sessionDir ← getSessionDir sid;
  modifySessionDir sid (writeMetadata (metadata transcript));;
  modifySessionDir sid (writeMarkdown (markdown transcript));;
  modifySessionDir sid (writeText (text transcript));;
  modifySessionDir sid mkdirChunks;;
  writeChunks sid (chunks transcript);;
  updateIndexEntry (metadata transcript);;
  mret (join sessionDir "transcript.md").

Definition byTimestamp (a b : TranscriptChunk) : bool :=
  (timestamp a <=? timestamp b)%Z.

(** The loop over [chunkFiles]: the chunks pushed, and the exception that
    stopped the loop, if any. *)
Fixpoint readChunkFiles (chunkFiles : list (string * JsonFile TranscriptChunk))
    (chunks : list TranscriptChunk) : list TranscriptChunk * option Exn :=
  match chunkFiles with
  | [] => (chunks, None)
  | (file, body) :: rest =>
      if endsWith file ".json" then
        match body with
        | Json chunk => readChunkFiles rest (chunks ++ [chunk])
        | Malformed => (chunks, Some JSONParseError)
        end
      else readChunkFiles rest chunks
  end.

(** The inner [try] of [loadTranscript].  Its [catch] is empty: when
    [readdir] or a chunk file fails, [chunks] keeps what was pushed so far
    and is not sorted. *)
Definition loadChunks (sd : SessionDir) : list TranscriptChunk :=
  match chunks_dir sd with
  | None => []
  | Some chunkFiles =>
      match readChunkFiles chunkFiles [] with
      | (chunks, None) => stableSort byTimestamp chunks
      | (chunks, Some _) => chunks
      end
  end.

Definition readSessionFile {A : Type} (sessionID : string)
    (file : SessionDir -> IO A) : IO A :=
  sd ← openSessionDir sessionID;
  file sd.

Definition loadTranscript (sessionID : string) : IO (option Transcript) :=
  tryCatch
    (metadata ← readSessionFile sessionID (fun sd => parseJson (metadata_json sd));
     markdown ← readSessionFile sessionID (fun sd => readText (transcript_md sd));
     text ← readSessionFile sessionID (fun sd => readText (transcript_txt sd));
     sd ← openSessionDir sessionID;
     mret (Some {| metadata := metadata; markdown := markdown; text := text;
                   chunks := loadChunks sd |}))
    (fun _ => mret None).

Definition loadTranscriptMarkdown (sessionID : string) : IO (option string) :=
  tryCatch
    (s ← readSessionFile sessionID (fun sd => readText (transcript_md sd));
     mret (Some s))
    (fun _ => mret None).

Definition loadTranscriptText (sessionID : string) : IO (option string) :=
  tryCatch
    (s ← readSessionFile sessionID (fun sd => readText (transcript_txt sd));
     mret (Some s))
    (fun _ => mret None).

Record ListOptions := {
  opt_projectID : option string;
  opt_sessionID : option string;
  opt_limit : option Z
}.

(** [options?.projectID], [options?.sessionID]: a filter is applied when
    the option is a non-empty string. *)
Definition truthyString (o : option string) : option string :=
  match o with
  | Some s => if truthy s then Some s else None
  | None => None
  end.

(** [options?.limit]: truthy unless it is [undefined] or [0]. *)
Definition truthyNumber (o : option Z) : option Z :=
  match o with
  | Some n => if (n =? 0)%Z then None else Some n
  | None => None
  end.

Definition byUpdatedAtDesc (a b : TranscriptMetadata) : bool :=
  (updatedAt b <=? updatedAt a)%Z.

Definition listTranscripts (options : ListOptions) : IO (list TranscriptMetadata) :=
  index ← readIndex;
  let transcripts := Assoc.values (transcripts index) in
  let transcripts :=
    match truthyString (opt_projectID options) with
    | Some p => List.filter (fun t => String.eqb (projectID t) p) transcripts
    | None => transcripts
    end in
  let transcripts :=
    match truthyString (opt_sessionID options) with
    | Some s => List.filter (fun t => String.eqb (sessionID t) s) transcripts
    | None => transcripts
    end in
  let transcripts := stableSort byUpdatedAtDesc transcripts in
  let transcripts :=
    match truthyNumber (opt_limit options) with
    | Some limit => sliceTo transcripts limit
    | None => transcripts
    end in
  mret transcripts.

(** The first loop of [deleteTranscript]: [readdir(sessionDir, { recursive })]
    throws when the directory is missing; every entry that is a file,
    those of [chunks] included, is unlinked. *)
Definition unlinkFiles (sd : SessionDir) : SessionDir :=
  {| metadata_json := None; transcript_md := None; transcript_txt := None;
     chunks_dir := match chunks_dir sd with
                   | Some _ => Some []
                   | None => None
                   end |}.

Definition unlinkSessionFiles (sessionID : string) : IO unit :=
  openSessionDir sessionID;;
  modifySessionDir sessionID unlinkFiles.

(** The second block: [readdir(chunksDir)] throws when there is no such
    directory; its entries are unlinked and [rmdir] removes it. *)
Definition removeChunksDir (sessionID : string) : IO unit :=
  sd ← openSessionDir sessionID;
  match chunks_dir sd with
  | None => throw ENOENT
  | Some _ => modifySessionDir sessionID (setChunksDir None)
  end.

(** [rmdir sessionDir], [nothrow]: it removes the directory when it is
    there and empty. *)
Definition rmdirSession (sessionID : string) : IO unit :=
  fun d =>
    match session_dirs d !! sessionID with
    | Some sd =>
        if isEmptySessionDir sd
        then (Ok tt, setSessionDirs (delete sessionID (session_dirs d)) d)
        else (Ok tt, d)
    | None => (Ok tt, d)
    end.

Definition deleteTranscript (sessionID : string) : IO unit :=
  tryCatch
    (unlinkSessionFiles sessionID;;
     tryCatch (removeChunksDir sessionID) (fun _ => mret tt);;
     rmdirSession sessionID;;
     removeIndexEntry sessionID)
    (fun _ => mret tt).

(** [metadata.expiresAt && metadata.expiresAt < now] *)
Definition isExpired (now : Z) (metadata : TranscriptMetadata) : bool :=
  negb (expiresAt metadata =? 0)%Z && (expiresAt metadata <? now)%Z.

Fixpoint sweepEntries (now : Z) (entries : list (string * TranscriptMetadata))
    (deletedCount : Z) : IO Z :=
  match entries with
  | [] => mret deletedCount
  | (sessionID, metadata) :: rest =>
      if isExpired now metadata then
        deleteTranscript sessionID;;
        sweepEntries now rest (deletedCount + 1)
      else sweepEntries now rest deletedCount
  end.

Definition cleanupExpiredTranscripts (now : Z) : IO Z :=
  index ← readIndex;
  sweepEntries now (transcripts index) 0.

Definition calculateExpiresAt (now : Z) (retentionDays : Z) : Z :=
  now + retentionDays * 24 * 60 * 60 * 1000.

Definition getTranscriptPath (sessionID : string) : IO string :=
  d ← getDisk;
  mret (join (join (TRANSCRIPT_DIR d) sessionID) "transcript.md").

End Storage.

(* ================================================================= *)
(** ** formatter.ts *)

Module Formatter.

(** The state of a tool invocation.  [input] is the state's input as
    [JSON.stringify] renders it; only a completed invocation has an
    output. *)
Inductive ToolState :=
  | ToolPending (input : string)
  | ToolRunning (input : string) (title : option string)
  | ToolCompleted (input : string) (output : string) (title : string)
  | ToolError (input : string) (error : string).

Definition stateInput (state : ToolState) : string :=
  match state with
  | ToolPending input => input
  | ToolRunning input _ => input
  | ToolCompleted input _ _ => input
  | ToolError input _ => input
  end.

(** The parts of a message the formatter tells apart. *)
Inductive Part :=
  | TextPart (text : string)
  | ReasoningPart (text : string)
  | ToolPart (tool : string) (state : ToolState)
  | FilePart (filename : option string) (url : string)
  | StepStartPart
  | StepFinishPart
  | SnapshotPart
  | PatchPart
  | CompactionPart.

(** [part.type] *)
Definition partType (part : Part) : string :=
  match part with
  | TextPart _ => "text"
  | ReasoningPart _ => "reasoning"
  | ToolPart _ _ => "tool"
  | FilePart _ _ => "file"
  | StepStartPart => "step-start"
  | StepFinishPart => "step-finish"
  | SnapshotPart => "snapshot"
  | PatchPart => "patch"
  | CompactionPart => "compaction"
  end.

(** [{ info, parts }] with the fields of [info] that are read:
    [info.id], [info.role] and [info.time.created]. *)
Record MessageWithParts := {
  info_id : string;
  info_role : Role;
  info_time_created : Z;
  parts : list Part
}.

(** What the body of the loop over [msg.parts] pushes to [contentParts]
    for one part. *)
Definition contentOfPart (part : Part) : list string :=
  match part with
  | TextPart text => [text]
  | ToolPart tool state =>
      ["Tool: " +:+ tool; "Input: " +:+ stateInput state] ++
      match state with
      | ToolCompleted _ output _ => ["Output: " +:+ slice output 0 1000]
      | _ => []
      end
  | ReasoningPart text => [text]
  | _ => []
  end.

Definition contentParts (msg : MessageWithParts) : list string :=
  flat_map contentOfPart (parts msg).

(** [[...new Set(xs)]]: the first occurrence of each element, in order. *)
Fixpoint dedupe (xs : list string) : list string :=
  match xs with
  | [] => []
  | x :: xs' => x :: List.filter (fun y => negb (String.eqb y x)) (dedupe xs')
  end.

(** [`chunk_${chunkIndex}`] *)
Definition chunkName (chunkIndex : nat) : string :=
  "chunk_" +:+ NilEmpty.string_of_uint (Nat.to_uint chunkIndex).

Fixpoint createChunksFrom (chunkIndex : nat) (messages : list MessageWithParts)
    (sessionID : string) : list TranscriptChunk :=
  match messages with
  | [] => []
  | msg :: rest =>
      match contentParts msg with
      | [] => createChunksFrom chunkIndex rest sessionID
      | _ :: _ =>
          {| chunk_id := chunkName chunkIndex;
             chunk_sessionID := sessionID;
             messageID := info_id msg;
             role := info_role msg;
             content := JsString.join (String "010"%char EmptyString) (contentParts msg);
             timestamp := info_time_created msg;
             partTypes := dedupe (map partType (parts msg)) |}
          :: createChunksFrom (S chunkIndex) rest sessionID
      end
  end.

Definition createChunks (messages : list MessageWithParts) (sessionID : string)
  : list TranscriptChunk :=
  createChunksFrom 0 messages sessionID.

(** [formatMessagesToMarkdown] and [formatMessagesToText] render dates with
    the clock, the locale and the time zone of the process; they are taken
    as they come, as functions of the messages, the title and the time. *)
Record Renderers := {
  formatMessagesToMarkdown : list MessageWithParts -> string -> Z -> string;
  formatMessagesToText : list MessageWithParts -> string -> Z -> string
}.

(** [now] stands for the clock read by [buildTranscript] and, within the
    same call, by [calculateExpiresAt]. *)
Definition buildTranscript (render : Renderers) (now : Z)
    (messages : list MessageWithParts)
    (sessionID projectID sessionTitle directory worktree : string)
    (compacted : bool) : Transcript :=
  {| metadata :=
       {| Types.sessionID := sessionID;
          Types.projectID := projectID;
          title := sessionTitle;
          Types.directory := directory;
          Types.worktree := worktree;
          createdAt := now;
          updatedAt := now;
          messageCount := Z.of_nat (length messages);
          Types.compacted := compacted;
          compactedAt := if compacted then Some now else None;
          expiresAt := Storage.calculateExpiresAt now Storage.RETENTION_DAYS |};
     markdown := formatMessagesToMarkdown render messages sessionTitle now;
     text := formatMessagesToText render messages sessionTitle now;
     chunks := createChunks messages sessionID |}.

End Formatter.

(* ================================================================= *)
(** ** Regular expressions built from a search term

    [new RegExp(term, "gi")] reads the term as a pattern.  The embedding
    covers the patterns made of pattern characters and [.]: each atom
    consumes one code unit, so a match has the length of the pattern and
    the global scan of [String.prototype.match] needs no backtracking.  A
    pattern that starts with a quantifier has nothing to repeat, which is
    the constructor's [SyntaxError].  Any other use of a syntax character
    is [Unmodelled]. *)

Module RegExp.

Inductive Atom :=
  | AnyChar            (* [.] *)
  | Char (c : ascii).  (* a pattern character *)

Definition isOneOf (set : string) (c : ascii) : bool :=
  existsb (Ascii.eqb c) (chars set).

(** SyntaxCharacter of the pattern grammar. *)
Definition isSyntaxCharacter (c : ascii) : bool :=
  isOneOf "^$\.*+?()[]{}|" c.

Definition isQuantifier (c : ascii) : bool := isOneOf "*+?" c.

Fixpoint atomsOf (pattern : string) : option (list Atom) :=
  match pattern with
  | EmptyString => Some []
  | String c rest =>
      if Ascii.eqb c "."%char then cons AnyChar <$> atomsOf rest
      else if isSyntaxCharacter c then None
      else cons (Char c) <$> atomsOf rest
  end.

Definition newRegExp (pattern : string) : Result (list Atom) :=
  match pattern with
  | EmptyString => Ok []
  | String c _ =>
      if isQuantifier c then Throw RegExpSyntaxError
      else match atomsOf pattern with
           | Some atoms => Ok atoms
           | None => Unmodelled
           end
  end.

(** Canonicalize of the [i] flag (not the [u] flag): the upper-case code
    unit.  The two Latin-1 letters whose upper case lies outside Latin-1
    (U+00B5, U+00FF) and U+00DF, whose upper case is two code units, stand
    for themselves: no other Latin-1 code unit shares their canonical form. *)
Definition canonicalize (c : ascii) : ascii :=
  let n := code c in
  if ((97 <=? n) && (n <=? 122) ||
      (224 <=? n) && (n <=? 254) && negb (n =? 247))%N
  then ascii_of_N (n - 32) else c.

(** LineTerminator, in the Latin-1 range: LF and CR. *)
Definition isLineTerminator (c : ascii) : bool :=
  let n := code c in ((n =? 10) || (n =? 13))%N.

Definition atomMatches (a : Atom) (c : ascii) : bool :=
  match a with
  | AnyChar => negb (isLineTerminator c)
  | Char p => Ascii.eqb (canonicalize p) (canonicalize c)
  end.

(** The pattern matches at the start of [s]. *)
Fixpoint matchesAt (atoms : list Atom) (s : string) : bool :=
  match atoms, s with
  | [], _ => true
  | _ :: _, EmptyString => false
  | a :: atoms', String c s' => atomMatches a c && matchesAt atoms' s'
  end.

(** The global scan: after a match at an offset the scan resumes behind
    it; [skip] counts the code units of the last match still to pass. *)
Fixpoint countMatches (atoms : list Atom) (s : string) (skip : nat) : nat :=
  match s with
  | EmptyString => 0
  | String _ s' =>
      match skip with
      | S k => countMatches atoms s' k
      | O =>
          if matchesAt atoms s
          then S (countMatches atoms s' (length atoms - 1))
          else countMatches atoms s' 0
      end
  end.

(** [(content.match(regex) || []).length]; the empty pattern matches once
    at every offset, the end included. *)
Definition matchCount (content : string) (regex : list Atom) : Z :=
  match regex with
  | [] => len content + 1
  | _ :: _ => Z.of_nat (countMatches regex content 0)
  end.

End RegExp.

(* ================================================================= *)
(** ** search.ts *)

Module Search.
Import Fs Storage RegExp.

Record SearchOptions := {
  query : string;
  search_sessionID : option string;
  search_projectID : option string;
  limit : option Z;
  includeContext : option bool
}.

(** [query.toLowerCase().split(/\s+/).filter(Boolean)] *)
Definition searchTermsOf (query : string) : list string :=
  List.filter truthy (splitWhitespace (toLowerCase query)).

(** [searchTerms.every((term) => contentLower.includes(term))] *)
Definition chunkMatches (content : string) (searchTerms : list string) : bool :=
  let contentLower := toLowerCase content in
  forallb (fun term => includes contentLower term) searchTerms.

(** The loop that adds the match count of every term to [score]. *)
Fixpoint scoreTerms (content : string) (searchTerms : list string) (score : Z)
  : Result Z :=
  match searchTerms with
  | [] => Ok score
  | term :: rest =>
      regex ← newRegExp term;
      scoreTerms content rest (score + matchCount content regex)
  end.

Definition truncateText (text : string) (maxLength : Z) : string :=
  if (len text <=? maxLength)%Z then text
  else slice text 0 (maxLength - 3) +:+ "...".

(** The loop of [createExcerpt] over the terms: the least offset of a term
    in [contentLower] below [bestIndex]. *)
Fixpoint firstOccurrence (contentLower : string) (terms : list string)
    (bestIndex : Z) : Z :=
  match terms with
  | [] => bestIndex
  | term :: rest =>
      let index := indexOf contentLower term in
      firstOccurrence contentLower rest
        (if negb (index =? -1)%Z && (index <? bestIndex)%Z then index
         else bestIndex)
  end.

(** [start] and [end] of [createExcerpt], when a term was found. *)
Definition excerptWindow (content : string) (terms : list string)
    (maxLength : Z) : option (Z * Z) :=
  let bestIndex := firstOccurrence (toLowerCase content) terms (len content) in
  if (bestIndex =? len content)%Z then None
  else
    let halfLength := maxLength / 2 in
    let start := Z.max 0 (bestIndex - halfLength) in
    let end_ := Z.min (len content) (start + maxLength) in
    let start :=
      if (end_ =? len content)%Z && (end_ - start <? maxLength)%Z
      then Z.max 0 (end_ - maxLength) else start in
    Some (start, end_).

Definition createExcerpt (content : string) (terms : list string)
    (maxLength : Z) : string :=
  match excerptWindow content terms maxLength with
  | None => truncateText content maxLength
  | Some (start, end_) =>
      let excerpt := slice content start end_ in
      let excerpt := if (0 <? start)%Z then "..." +:+ excerpt else excerpt in
      let excerpt :=
        if (end_ <? len content)%Z then excerpt +:+ "..." else excerpt in
      excerpt
  end.

(** [chunks[i]] for a number [i]: [undefined] out of range. *)
Definition chunkAt (chunks : list TranscriptChunk) (i : Z) : option TranscriptChunk :=
  if (i <? 0)%Z then None else nth_error chunks (Z.to_nat i).

Definition contextOf (chunks : list TranscriptChunk) (i : Z) : SearchContext :=
  {| before := (fun c => truncateText (content c) 200) <$> chunkAt chunks (i - 1);
     after := (fun c => truncateText (content c) 200) <$> chunkAt chunks (i + 1) |}.

(** The body of the loop over the chunks of a transcript: [None] when the
    chunk does not match and the loop continues. *)
Definition searchChunk (metadata : TranscriptMetadata)
    (chunks : list TranscriptChunk) (searchTerms : list string)
    (includeContext : bool) (i : Z) (chunk : TranscriptChunk)
  : Result (option SearchResult) :=
  if negb (chunkMatches (content chunk) searchTerms) then Ok None
  else
    score ← scoreTerms (content chunk) searchTerms 0;
    let context :=
      if includeContext then contextOf chunks i
      else {| before := None; after := None |} in
    let excerpt := createExcerpt (content chunk) searchTerms 500 in
    Ok (Some {| result_sessionID := sessionID metadata;
                sessionTitle := title metadata;
                result_messageID := messageID chunk;
                result_role := role chunk;
                excerpt := excerpt;
                result_timestamp := timestamp chunk;
                score := score;
                context := context |}).

(** The loop [for (let i = 0; i < transcript.chunks.length; i++)], from
    offset [i] on; [todo] are the chunks from that offset.  The results
    come in the order they are pushed. *)
Fixpoint searchChunksFrom (metadata : TranscriptMetadata)
    (chunks : list TranscriptChunk) (searchTerms : list string)
    (includeContext : bool) (i : Z) (todo : list TranscriptChunk)
  : Result (list SearchResult) :=
  match todo with
  | [] => Ok []
  | chunk :: rest =>
      r ← searchChunk metadata chunks searchTerms includeContext i chunk;
      more ← searchChunksFrom metadata chunks searchTerms includeContext (i + 1) rest;
      Ok (match r with
          | Some result => result :: more
          | None => more
          end)
  end.

(** The loop over the transcripts listed. *)
Fixpoint searchEach (transcripts : list TranscriptMetadata)
    (searchTerms : list string) (includeContext : bool)
  : IO (list SearchResult) :=
  match transcripts with
  | [] => mret []
  | metadata :: rest =>
      transcript ← loadTranscript (sessionID metadata);
      found ← match transcript with
              | None => mret []
              | Some t =>
                  liftResult
                    (searchChunksFrom metadata (chunks t) searchTerms
                       includeContext 0 (chunks t))
              end;
      more ← searchEach rest searchTerms includeContext;
      mret (found ++ more)
  end.

Definition byScoreDesc (a b : SearchResult) : bool := (score b <=? score a)%Z.

Definition searchTranscripts (options : SearchOptions) : IO (list SearchResult) :=
  let limit := default 10 (limit options) in
  let includeContext := default true (includeContext options) in
  transcripts ← listTranscripts
    {| opt_projectID := search_projectID options;
       opt_sessionID := search_sessionID options;
       opt_limit := None |};
  let searchTerms := searchTermsOf (query options) in
  results ← searchEach transcripts searchTerms includeContext;
  mret (sliceTo (stableSort byScoreDesc results) limit).

(** [searchInSession], [searchInProject] and [searchAll]: the limit is 10
    when it is not given. *)
Definition searchInSession (sessionID query : string) (limit : option Z)
  : IO (list SearchResult) :=
  searchTranscripts
    {| Search.query := query; search_sessionID := Some sessionID;
       search_projectID := None; Search.limit := Some (default 10 limit);
       Search.includeContext := Some true |}.



Record TranscriptStats := {
  totalTranscripts : Z;
  totalMessages : Z;
  compactedCount : Z;
  oldestTimestamp : Z;
  newestTimestamp : Z
}.

(** [Math.min(...xs, last)] and [Math.max(...xs, last)] *)
Definition mathMin (xs : list Z) (last : Z) : Z := fold_right Z.min last xs.
Definition mathMax (xs : list Z) (last : Z) : Z := fold_right Z.max last xs.

Definition getTranscriptStats (now : Z) (projectID : option string)
  : IO TranscriptStats :=
  index ← readIndex;
  let transcripts := Assoc.values (transcripts index) in
  let transcripts :=
    match truthyString projectID with
    | Some p => List.filter (fun t => String.eqb (Types.projectID t) p) transcripts
    | None => transcripts
    end in
  mret {| totalTranscripts := Z.of_nat (length transcripts);
          totalMessages :=
            fold_left (fun sum t => sum + messageCount t) transcripts 0;
          compactedCount := Z.of_nat (length (List.filter compacted transcripts));
          oldestTimestamp := mathMin (map createdAt transcripts) now;
          newestTimestamp := mathMax (map updatedAt transcripts) 0 |}.

End Search.

(* ================================================================= *)
(** ** The plugin: saving a session on its events *)

Module Plugin.
Import Fs Storage Formatter.

(** [client.session]: the host's answer for a session identifier.
    [session_get] is [None] when the request fails or carries no data;
    [session_messages] is empty when the request fails or its data is not
    an array. *)
Record Client := {
  session_get : string -> option string;
  session_messages : string -> list MessageWithParts
}.

(** What the plugin was initialised with. *)
Record PluginInput := {
  client : Client;
  project_id : string;
  input_directory : string;
  input_worktree : string;
  render : Renderers
}.

Definition saveSessionTranscript (input : PluginInput) (now : Z)
    (sessionID : string) (compacted : bool) : IO (option string) :=
  tryCatch
    (match session_get (client input) sessionID with
     | None => mret None
     | Some sessionTitle =>
         let messages := session_messages (client input) sessionID in
         match messages with
         | [] => mret None
         | _ :: _ =>
             let transcript :=
               buildTranscript (render input) now messages sessionID
                 (project_id input) sessionTitle (input_directory input)
                 (input_worktree input) compacted in
             path ← saveTranscript transcript;
             mret (Some path)
         end
     end)
    (fun _ => mret None).

Inductive Event :=
  | SessionIdle (sessionID : string)
  | SessionCompacted (sessionID : string)
  | OtherEvent.

(** The [event] hook.  (It first arms the timers of the retention sweep,
    which run [cleanupExpiredTranscripts] on their own.) *)
Definition event (input : PluginInput) (now : Z) (e : Event) : IO unit :=
  match e with
  | SessionIdle sessionID =>
      saveSessionTranscript input now sessionID false;; mret tt
  | SessionCompacted sessionID =>
      saveSessionTranscript input now sessionID true;; mret tt
  | OtherEvent => mret tt
  end.

(** The ["experimental.session.compacting"] hook, up to the text it adds
    to the context: the transcript is saved as compacted. *)
Definition compacting (input : PluginInput) (now : Z) (sessionID : string)
  : IO (option string) :=
  saveSessionTranscript input now sessionID true.

End Plugin.

(* ================================================================= *)
(** ** formatter.ts: the renderers *)

Module Rendering.
Import Formatter.

Definition newline : string := String "010"%char EmptyString.

(** [`${n}`] for the length of an array. *)
Definition decimal (n : nat) : string := NilEmpty.string_of_uint (Nat.to_uint n).

(** [a || b] for an optional string [a]. *)
Definition orElse (a : option string) (b : string) : string :=
  match a with
  | Some s => if truthy s then s else b
  | None => b
  end.

(** The output of a completed tool, as both renderers cut it. *)
Definition truncateOutput (output : string) : string :=
  if (5000 <? len output)%Z
  then slice output 0 5000 +:+ newline +:+ "... [truncated]"
  else output.

Section Renderers.

(** [new Date(ms).toISOString()] and [new Date(ms).toLocaleString()] are
    the host's; [indent] gives [JSON.stringify(value, null, 2)] from
    [JSON.stringify(value)]. *)
Variable toISOString : Z -> string.
Variable toLocaleString : Z -> string.
Variable indent : string -> string.

Definition formatToolPartMarkdown (tool : string) (state : ToolState) : string :=
  let lines := ["### Tool: `" +:+ tool +:+ "`"] in
  let lines :=
    match state with
    | ToolCompleted input output title =>
        lines ++
        [""; "<details>"; "<summary>Input</summary>"; ""; "```json";
         indent input; "```"; ""; "</details>"] ++
        [""; "<details>"; "<summary>Output (" +:+ title +:+ ")</summary>"; "";
         "```"; truncateOutput output; "```"; ""; "</details>"]
    | ToolError _ error => lines ++ [""; "**Error:** " +:+ error]
    | ToolRunning _ title =>
        lines ++ [""; "*Running: " +:+ orElse title "..." +:+ "*"]
    | ToolPending _ => lines
    end in
  join newline lines.

Definition formatPartMarkdown (part : Part) : option string :=
  match part with
  | TextPart text => Some text
  | ReasoningPart text =>
      Some ("<details>" +:+ newline +:+ "<summary>Reasoning</summary>" +:+ newline
            +:+ newline +:+ text +:+ newline +:+ newline +:+ "</details>")
  | ToolPart tool state => Some (formatToolPartMarkdown tool state)
  | FilePart filename url => Some ("**File:** " +:+ orElse filename url)
  | StepStartPart | StepFinishPart | SnapshotPart | PatchPart => None
  | CompactionPart => Some "*[Context was compacted at this point]*"
  end.

Definition formatToolPartText (tool : string) (state : ToolState) : string :=
  let lines := ["[TOOL: " +:+ tool +:+ "]"] in
  let lines :=
    match state with
    | ToolCompleted input output title =>
        lines ++
        ["Input: " +:+ indent input;
         "Output (" +:+ title +:+ "): " +:+ truncateOutput output]
    | ToolError _ error => lines ++ ["Error: " +:+ error]
    | _ => lines
    end in
  let lines := lines ++ ["[/TOOL]"] in
  join newline lines.

Definition formatPartText (part : Part) : option string :=
  match part with
  | TextPart text => Some text
  | ReasoningPart text =>
      Some ("[REASONING]" +:+ newline +:+ text +:+ newline +:+ "[/REASONING]")
  | ToolPart tool state => Some (formatToolPartText tool state)
  | FilePart filename url => Some ("[FILE: " +:+ orElse filename url +:+ "]")
  | CompactionPart => Some "[CONTEXT COMPACTED]"
  | _ => None
  end.

(** [if (formatted) { lines.push(formatted); lines.push("") }] *)
Definition pushFormatted (formatted : option string) : list string :=
  match formatted with
  | Some s => if truthy s then [s; ""] else []
  | None => []
  end.

(** What one turn of the loop over the messages pushes to [lines]. *)
Definition markdownLinesOf (msg : MessageWithParts) : list string :=
  let role := match info_role msg with user => "User" | assistant => "Assistant" end in
  let timestamp := toLocaleString (info_time_created msg) in
  ["## " +:+ role; "*" +:+ timestamp +:+ "*"; ""] ++
  flat_map (fun part => pushFormatted (formatPartMarkdown part)) (parts msg) ++
  ["---"; ""].

Definition markdownLines (messages : list MessageWithParts)
    (sessionTitle : string) (now : Z) : list string :=
  ["# " +:+ sessionTitle; ""; "Generated: " +:+ toISOString now;
   "Messages: " +:+ decimal (length messages); ""; "---"; ""] ++
  flat_map markdownLinesOf messages.

Definition formatMessagesToMarkdown (messages : list MessageWithParts)
    (sessionTitle : string) (now : Z) : string :=
  join newline (markdownLines messages sessionTitle now).

Definition textLinesOf (msg : MessageWithParts) : list string :=
  let role := match info_role msg with user => "USER" | assistant => "ASSISTANT" end in
  let timestamp := toLocaleString (info_time_created msg) in
  ["[" +:+ role +:+ "] " +:+ timestamp; repeatString "-" 30] ++
  flat_map (fun part => pushFormatted (formatPartText part)) (parts msg) ++
  [repeatString "=" 50; ""].

Definition textLines (messages : list MessageWithParts)
    (sessionTitle : string) (now : Z) : list string :=
  ["=== " +:+ sessionTitle +:+ " ==="; ""; "Generated: " +:+ toISOString now;
   "Messages: " +:+ decimal (length messages); ""; repeatString "=" 50; ""] ++
  flat_map textLinesOf messages.

Definition formatMessagesToText (messages : list MessageWithParts)
    (sessionTitle : string) (now : Z) : string :=
  join newline (textLines messages sessionTitle now).

(** The two renderers, as [buildTranscript] calls them. *)
Definition renderers : Renderers :=
  {| Formatter.formatMessagesToMarkdown := formatMessagesToMarkdown;
     Formatter.formatMessagesToText := formatMessagesToText |}.

End Renderers.

End Rendering.

(* ================================================================= *)
(** ** tools.ts *)

Module Tools.
Import Fs Storage Search.

(** The context of a tool call, with the field that is read. *)
Record ToolContext := { context_sessionID : string }.

Record ListArgs := {
  currentSession : option bool;
  allSessions : option bool;
  list_limit : option Z
}.

Inductive TranscriptFormat := FormatMarkdown | FormatText | FormatBoth.

Record RecallArgs := {
  recall_query : string;
  recall_sessionID : option string;
  format : option TranscriptFormat;
  recall_limit : option Z;
  fullTranscript : option bool
}.

Definition newline : string := String "010"%char EmptyString.
Definition quote : string := String "034"%char EmptyString.

(** [`${n}`] for a length and for a stored number. *)
Definition decimal (n : nat) : string := NilEmpty.string_of_uint (Nat.to_uint n).
Definition decimalZ (n : Z) : string := NilZero.string_of_int (Z.to_int n).

Definition noTranscripts : string :=
  "No transcripts found. Transcripts are saved when sessions become idle or are compacted.".

Definition tip : string :=
  newline +:+
  "*Tip: Use `fullTranscript: true` with a sessionID to get the complete conversation.*".

Definition roleName (r : Role) : string :=
  match r with
  | user => "user"
  | assistant => "assistant"
  end.

Section Host.

(** [new Date(ms).toLocaleString()] of the host. *)
Variable toLocaleString : Z -> string.

(** What one turn of the loop over the transcripts pushes to [lines]. *)
Definition listLinesOf (context : ToolContext) (path : string)
    (t : TranscriptMetadata) : list string :=
  let createdDate := toLocaleString (createdAt t) in
  let compactedStatus := if compacted t then " [COMPACTED]" else "" in
  let isCurrentSession :=
    if String.eqb (sessionID t) (context_sessionID context) then " (current)" else "" in
  ["- **" +:+ title t +:+ "**" +:+ isCurrentSession +:+ compactedStatus;
   "  Session: " +:+ sessionID t;
   "  Messages: " +:+ decimalZ (messageCount t);
   "  Created: " +:+ createdDate;
   "  Path: " +:+ path;
   ""].

Fixpoint listLines (context : ToolContext) (transcripts : list TranscriptMetadata)
  : IO (list string) :=
  match transcripts with
  | [] => mret []
  | t :: rest =>
      path ← getTranscriptPath (sessionID t);
      lines ← listLines context rest;
      mret (listLinesOf context path t ++ lines)
  end.

(** [listTranscriptsTool.execute] *)
Definition listTranscriptsTool (args : ListArgs) (context : ToolContext)
  : IO string :=
  let limit := default 20 (list_limit args) in
  transcripts ←
    (if default false (currentSession args) then
       listTranscripts
         {| opt_projectID := None;
            opt_sessionID := Some (context_sessionID context);
            opt_limit := Some limit |}
     else if default false (allSessions args) then
       listTranscripts
         {| opt_projectID := None; opt_sessionID := None; opt_limit := Some limit |}
     else
       listTranscripts
         {| opt_projectID := None; opt_sessionID := None; opt_limit := Some limit |});
  match transcripts with
  | [] => mret noTranscripts
  | _ :: _ =>
      lines ← listLines context transcripts;
      mret (JsString.join newline
              (("Found " +:+ decimal (length transcripts) +:+ " transcript(s):" +:+ newline)
               :: lines))
  end.

(** What one turn of the loop over the results pushes to [lines]. *)
Definition recallLinesOf (context : ToolContext) (result : SearchResult)
  : list string :=
  let date := toLocaleString (result_timestamp result) in
  let isCurrentSession :=
    if String.eqb (result_sessionID result) (context_sessionID context)
    then " (current session)" else "" in
  ["### " +:+ sessionTitle result +:+ isCurrentSession;
   "**Role:** " +:+ roleName (result_role result) +:+ " | **Time:** " +:+ date;
   "**Session:** " +:+ result_sessionID result;
   ""] ++
  match truthyString (before (Types.context result)) with
  | Some b => ["*Before:* " +:+ b; ""]
  | None => []
  end ++
  ["**Match:**"; "```"; excerpt result; "```"] ++
  match truthyString (after (Types.context result)) with
  | Some a => [""; "*After:* " +:+ a]
  | None => []
  end ++
  [""; "---"; ""].

Definition noResults (query : string) : string :=
  "No results found for query: " +:+ quote +:+ query +:+ quote +:+ newline +:+ newline +:+
  "Try different keywords or check available transcripts with list_transcripts.".

(** [recallTranscriptTool.execute] *)
Definition recallTranscriptTool (args : RecallArgs) (context : ToolContext)
  : IO string :=
  let format := default FormatMarkdown (format args) in
  let limit := default 5 (recall_limit args) in
  let sessionID := recall_sessionID args in
  if default false (fullTranscript args) then
    let targetSession := default (context_sessionID context) sessionID in
    transcript ← loadTranscript targetSession;
    match transcript with
    | None => mret ("No transcript found for session " +:+ targetSession)
    | Some transcript =>
        match format with
        | FormatBoth =>
            mret ("## Markdown Format" +:+ newline +:+ newline +:+ markdown transcript
                  +:+ newline +:+ newline +:+ "---" +:+ newline +:+ newline
                  +:+ "## Text Format" +:+ newline +:+ newline +:+ text transcript)
        | FormatText => mret (text transcript)
        | FormatMarkdown => mret (markdown transcript)
        end
    end
  else
    results ←
      match truthyString sessionID with
      | Some sessionID => searchInSession sessionID (recall_query args) (Some limit)
      | None =>
          searchTranscripts
            {| query := recall_query args; search_sessionID := None;
               search_projectID := None; Search.limit := Some limit;
               includeContext := Some true |}
      end;
    match results with
    | [] => mret (noResults (recall_query args))
    | _ :: _ =>
        mret (JsString.join newline
                (("Found " +:+ decimal (length results) +:+ " result(s) for " +:+ quote
                  +:+ recall_query args +:+ quote +:+ ":" +:+ newline)
                 :: flat_map (recallLinesOf context) results ++ [tip]))
    end.

End Host.

End Tools.

(* ================================================================= *)
(** ** Vocabulary of the specification *)

Module Spec.
Import Search Formatter.

(** A part of a kind that adds to the content of a chunk, whatever its
    text: message text, reasoning, or a tool invocation. *)
Definition hasContent (part : Part) : bool :=
  match part with
  | TextPart _ | ReasoningPart _ | ToolPart _ _ => true
  | _ => false
  end.

(** A message with a part of such a kind. *)
Definition producesContent (msg : MessageWithParts) : bool :=
  existsb hasContent (parts msg).

(** The output line of a tool invocation: there is one when the
    invocation is completed, with the first 1000 code units of the output. *)
Definition outputLine (state : ToolState) : list string :=
  match state with
  | ToolCompleted _ output _ => ["Output: " +:+ substring 0 1000 output]
  | _ => []
  end.

Definition newline : string := String "010"%char EmptyString.

(** [t] occurs in [c] as a substring, letter case ignored: some piece of
    [c] equals [t] once both are folded to lower case. *)
Definition occursIgnoringCase (t c : string) : Prop :=
  exists pre mid post,
    c = pre +:+ mid +:+ post /\ toLowerCase mid = toLowerCase t.

(** The occurrences of a literal [t] in [c] met by a scan from the left
    that resumes behind each occurrence, letter case ignored. *)
Fixpoint countFrom (t c : string) (skip : nat) : nat :=
  match c with
  | EmptyString => 0
  | String _ c' =>
      match skip with
      | S k => countFrom t c' k
      | O =>
          if startsWith c t
          then S (countFrom t c' (String.length t - 1))
          else countFrom t c' 0
      end
  end.

Definition occurrenceCount (t c : string) : Z :=
  Z.of_nat (countFrom (toLowerCase t) (toLowerCase c) 0).

Definition sumZ (l : list Z) : Z := fold_right Z.add 0 l.

(** A term without a syntax character of the pattern grammar. *)
Definition plain (t : string) : Prop :=
  forallb (fun c => negb (RegExp.isSyntaxCharacter c)) (chars t) = true.

(** A string that lower-casing leaves unchanged. *)
Definition folded (t : string) : Prop := toLowerCase t = t.

(** A query of white space only (the empty query included). *)
Definition blank (query : string) : bool := forallb isWhitespace (chars query).

(** What is on the disk, read without the monad. *)
Definition currentIndex (d : Disk) : TranscriptIndex :=
  match index_json d with
  | Some (Json index) => index
  | _ => {| version := Storage.INDEX_VERSION; transcripts := [] |}
  end.

Definition metadataOf (d : Disk) (sessionID : string) : option TranscriptMetadata :=
  match session_dirs d !! sessionID with
  | Some {| metadata_json := Some (Json m) |} => Some m
  | _ => None
  end.

Definition markdownOf (d : Disk) (sessionID : string) : option string :=
  sd ← session_dirs d !! sessionID; transcript_md sd.

Definition textOf (d : Disk) (sessionID : string) : option string :=
  sd ← session_dirs d !! sessionID; transcript_txt sd.

(** The transcript a session directory holds: its three files, when all
    three can be read, with the chunks that [loadChunks] reads. *)
Definition stored (d : Disk) (sessionID : string) : option Transcript :=
  m ← metadataOf d sessionID;
  md ← markdownOf d sessionID;
  tx ← textOf d sessionID;
  sd ← session_dirs d !! sessionID;
  Some {| metadata := m; markdown := md; text := tx;
          chunks := Storage.loadChunks sd |}.

(** The transcripts a listing selects. *)
Definition selected (project session : option string) (t : TranscriptMetadata) : bool :=
  match Storage.truthyString project with
  | Some p => String.eqb (projectID t) p
  | None => true
  end &&
  match Storage.truthyString session with
  | Some s => String.eqb (sessionID t) s
  | None => true
  end.

(** The keys of the index entries the sweep deletes at time [now]. *)
Definition expiredKeys (now : Z) (entries : list (string * TranscriptMetadata))
  : list string :=
  Assoc.keys (List.filter (fun e => Storage.isExpired now (snd e)) entries).

Definition removeKeys {V : Type} (ks : list string) (o : list (string * V))
  : list (string * V) :=
  fold_left (fun o k => Assoc.remove k o) ks o.

Definition deleteDirs (ks : list string) (m : gmap string SessionDir)
  : gmap string SessionDir :=
  fold_left (fun m k => delete k m) ks m.

Definition isKey (ks : list string) (k : string) : bool :=
  existsb (String.eqb k) ks.

(** The file of a chunk in the [chunks] directory, and its entry. *)
Definition chunkFile (c : TranscriptChunk) : string := chunk_id c +:+ ".json".

Definition chunkEntry (c : TranscriptChunk) : string * JsonFile TranscriptChunk :=
  (chunkFile c, Json c).

(** The chunk files of a session directory ([chunks] missing: none). *)
Definition chunkFilesOf (d : Disk) (sessionID : string)
  : list (string * JsonFile TranscriptChunk) :=
  default [] (chunks_dir (default Fs.emptySessionDir (session_dirs d !! sessionID))).

Definition timestampLe (a b : TranscriptChunk) : Prop := timestamp a <= timestamp b.

(** The chunk files after the chunks [cs] are written over [files]. *)
Definition writtenChunks (cs : list TranscriptChunk)
    (files : list (string * JsonFile TranscriptChunk))
  : list (string * JsonFile TranscriptChunk) :=
  fold_left (fun files c => Assoc.set (chunk_id c +:+ ".json") (Json c) files)
    cs files.

(** The session directory after a transcript is saved over [sd]. *)
Definition savedDir (t : Transcript) (sd : SessionDir) : SessionDir :=
  {| metadata_json := Some (Json (metadata t));
     transcript_md := Some (markdown t);
     transcript_txt := Some (text t);
     chunks_dir := Some (writtenChunks (chunks t) (default [] (chunks_dir sd))) |}.

(** The disk after a transcript is saved. *)
Definition savedOver (t : Transcript) (d : Disk) : Disk :=
  let sid := sessionID (metadata t) in
  {| TRANSCRIPT_DIR := TRANSCRIPT_DIR d;
     index_json :=
       Some (Json (Storage.withTranscripts (currentIndex d)
                     (Assoc.set sid (metadata t) (transcripts (currentIndex d)))));
     session_dirs :=
       <[sid := savedDir t (default Fs.emptySessionDir (session_dirs d !! sid))]>
         (session_dirs d) |}.

(** Every expired entry of the index still has its session directory. *)
Definition expiredHaveDirectory (now : Z) (d : Disk) : Prop :=
  forall sessionID metadata,
    In (sessionID, metadata) (transcripts (currentIndex d)) ->
    Storage.isExpired now metadata = true ->
    is_Some (session_dirs d !! sessionID).

(** What a chunk yields when there is no search term: its excerpt is the
    start of its content and its score is 0. *)
Definition unfilteredResult (metadata : TranscriptMetadata)
    (chunks : list TranscriptChunk) (includeContext : bool)
    (i : nat) (chunk : TranscriptChunk) : SearchResult :=
  {| result_sessionID := sessionID metadata;
     sessionTitle := title metadata;
     result_messageID := messageID chunk;
     result_role := role chunk;
     excerpt := truncateText (content chunk) 500;
     result_timestamp := timestamp chunk;
     score := 0;
     context := if includeContext then contextOf chunks (Z.of_nat i)
                else {| before := None; after := None |} |}.

(** One such result per chunk of every transcript listed that can be
    loaded: the transcripts in the order listed, the chunks of each in the
    order loaded. *)
Definition unfilteredResults (d : Disk) (includeContext : bool)
    (transcripts : list TranscriptMetadata) : list SearchResult :=
  flat_map
    (fun metadata =>
       match stored d (sessionID metadata) with
       | Some t => imap (unfilteredResult metadata (chunks t) includeContext) (chunks t)
       | None => []
       end)
    transcripts.

(** The entry of a session in the index. *)
Definition indexEntry (d : Disk) (sessionID : string) : option TranscriptMetadata :=
  Assoc.get sessionID (transcripts (currentIndex d)).

(** The number of entries of the index the sweep deletes at time [now]. *)
Definition expiredCount (now : Z) (d : Disk) : Z :=
  Z.of_nat (length (expiredKeys now (transcripts (currentIndex d)))).

Definition updatedAtDesc (a b : TranscriptMetadata) : Prop :=
  updatedAt b <= updatedAt a.

(** No code unit of the query is a syntax character of the pattern
    grammar. *)
Definition plainQuery (query : string) : bool :=
  forallb (fun c => negb (RegExp.isSyntaxCharacter c)) (chars query).

(** The chunks of the transcripts listed that pass the filter, each with
    the index entry of its transcript. *)
Definition matchingChunks (d : Disk) (terms : list string)
    (transcripts : list TranscriptMetadata)
  : list (TranscriptMetadata * TranscriptChunk) :=
  flat_map
    (fun metadata =>
       match stored d (sessionID metadata) with
       | Some t =>
           map (pair metadata)
             (List.filter (fun c => chunkMatches (content c) terms) (chunks t))
       | None => []
       end)
    transcripts.

(** The index entries a search looks into. *)
Definition searched (options : SearchOptions) (d : Disk) : list TranscriptMetadata :=
  List.filter (selected (search_projectID options) (search_sessionID options))
    (Assoc.values (transcripts (currentIndex d))).

Definition scoreDesc (a b : SearchResult) : Prop := score b <= score a.

Definition noContext : SearchContext := {| before := None; after := None |}.

(** The names [chunk_n], [chunk_(n+1)], ... of [k] chunks. *)
Definition chunkNames (n k : nat) : list string := map chunkName (seq n k).

(** A part that neither renderer shows: the bookkeeping of a step. *)
Definition internal (part : Part) : bool :=
  match part with
  | StepStartPart | StepFinishPart | SnapshotPart | PatchPart => true
  | _ => false
  end.

Definition withoutInternal (msg : MessageWithParts) : MessageWithParts :=
  {| info_id := info_id msg; info_role := info_role msg;
     info_time_created := info_time_created msg;
     parts := List.filter (fun part => negb (internal part)) (parts msg) |}.

(** A chunk without the types of its parts. *)
Definition withoutPartTypes (chunk : TranscriptChunk) : TranscriptChunk :=
  {| chunk_id := chunk_id chunk; chunk_sessionID := chunk_sessionID chunk;
     messageID := messageID chunk; role := role chunk; content := content chunk;
     timestamp := timestamp chunk; partTypes := [] |}.

(** A part that the renderers show and that has no text for a chunk. *)
Definition attachment (part : Part) : bool :=
  match part with
  | FilePart _ _ | CompactionPart => true
  | _ => false
  end.

(** The session a call of [list_transcripts] is restricted to. *)
Definition sessionFilter (args : Tools.ListArgs) (context : Tools.ToolContext)
  : option string :=
  if default false (Tools.currentSession args)
  then Some (Tools.context_sessionID context) else None.

(** The search a call of [recall_transcript] asks for. *)
Definition recallOptions (args : Tools.RecallArgs) : SearchOptions :=
  {| query := Tools.recall_query args;
     search_sessionID := Storage.truthyString (Tools.recall_sessionID args);
     search_projectID := None;
     limit := Some (default 5 (Tools.recall_limit args));
     includeContext := Some true |}.

End Spec.

(* ================================================================= *)
(** ** Sample data *)

Module Sample.

Definition emptyDisk : Disk :=
  {| TRANSCRIPT_DIR := "/home/dev/.local/share/opencode/transcripts";
     index_json := None;
     session_dirs := ∅ |}.

Definition meta (sessionID : string) (messageCount expiresAt : Z)
    (compacted : bool) : TranscriptMetadata :=
  {| Types.sessionID := sessionID; projectID := "prj_1"; title := "Upload path";
     directory := "/work"; worktree := "/work";
     createdAt := 1000; updatedAt := 1000; messageCount := messageCount;
     Types.compacted := compacted;
     compactedAt := if compacted then Some 1000 else None;
     Types.expiresAt := expiresAt |}.

Definition chunk (name : string) (timestamp : Z) (content : string) : TranscriptChunk :=
  {| chunk_id := name; chunk_sessionID := "ses_1"; messageID := "msg_" +:+ name;
     role := user; Types.content := content; Types.timestamp := timestamp;
     partTypes := ["text"] |}.

Definition transcript (chunks : list TranscriptChunk) : Transcript :=
  {| metadata := meta "ses_1" (Z.of_nat (length chunks)) 5000 false;
     markdown := "# Upload path"; text := "=== Upload path ===";
     Types.chunks := chunks |}.

(** A session directory whose second chunk file does not parse. *)
Definition corruptChunkDisk : Disk :=
  {| TRANSCRIPT_DIR := TRANSCRIPT_DIR emptyDisk;
     index_json := None;
     session_dirs :=
       {[ "ses_1" :=
            {| metadata_json := Some (Json (meta "ses_1" 2 5000 false));
               transcript_md := Some "# Upload path";
               transcript_txt := Some "=== Upload path ===";
               chunks_dir :=
                 Some [("chunk_0.json", Json (chunk "chunk_0" 10 "first"));
                       ("chunk_1.json", Malformed)] |} ]} |}.

(** A session directory without its [chunks] directory. *)
Definition noChunksDirDisk : Disk :=
  {| TRANSCRIPT_DIR := TRANSCRIPT_DIR emptyDisk;
     index_json := None;
     session_dirs :=
       {[ "ses_1" :=
            {| metadata_json := Some (Json (meta "ses_1" 2 5000 false));
               transcript_md := Some "# Upload path";
               transcript_txt := Some "=== Upload path ===";
               chunks_dir := None |} ]} |}.

(** An index entry whose [expiresAt] is 0, with its directory. *)
Definition zeroExpiryDisk : Disk :=
  {| TRANSCRIPT_DIR := TRANSCRIPT_DIR emptyDisk;
     index_json :=
       Some (Json {| version := 1;
                     transcripts := [("ses_0", meta "ses_0" 1 0 false)] |});
     session_dirs :=
       {[ "ses_0" :=
            {| metadata_json := Some (Json (meta "ses_0" 1 0 false));
               transcript_md := Some "# Upload path";
               transcript_txt := Some "=== Upload path ===";
               chunks_dir := Some [] |} ]} |}.

(** An expired index entry whose directory is gone. *)
Definition orphanEntryDisk : Disk :=
  {| TRANSCRIPT_DIR := TRANSCRIPT_DIR emptyDisk;
     index_json :=
       Some (Json {| version := 1;
                     transcripts := [("ses_9", meta "ses_9" 1 50 false)] |});
     session_dirs := ∅ |}.

(** The disk after a first save of a session with two chunks. *)
Definition twoChunks : list TranscriptChunk :=
  [chunk "chunk_0" 10 "the S3 bucket path is /data/uploads";
   chunk "chunk_1" 20 "thanks"].

Definition savedDisk : Disk :=
  snd (Storage.saveTranscript (transcript twoChunks) emptyDisk).

(** A host with one session, which holds one message. *)
Definition host : Plugin.PluginInput :=
  {| Plugin.client :=
       {| Plugin.session_get :=
            fun sid => if String.eqb sid "ses_1" then Some "Upload path" else None;
          Plugin.session_messages :=
            fun sid =>
              if String.eqb sid "ses_1"
              then [{| Formatter.info_id := "msg_1"; Formatter.info_role := user;
                       Formatter.info_time_created := 10;
                       Formatter.parts := [Formatter.TextPart "where do uploads go?"] |}]
              else [] |};
     Plugin.project_id := "prj_1";
     Plugin.input_directory := "/work";
     Plugin.input_worktree := "/work";
     Plugin.render :=
       {| Formatter.formatMessagesToMarkdown := fun _ title _ => "# " +:+ title;
          Formatter.formatMessagesToText := fun _ title _ => "=== " +:+ title +:+ " ===" |} |}.

(** The disk after the save of a session whose only chunk holds a sum. *)
Definition sumDisk : Disk :=
  snd (Storage.saveTranscript (transcript [chunk "chunk_0" 10 "1 + 2"]) emptyDisk).

Definition plusSearch : Search.SearchOptions :=
  {| Search.query := "+"; Search.search_sessionID := None;
     Search.search_projectID := None; Search.limit := None;
     Search.includeContext := None |}.

Definition blankSearch : Search.SearchOptions :=
  {| Search.query := "  "; Search.search_sessionID := None;
     Search.search_projectID := None; Search.limit := None;
     Search.includeContext := None |}.

(** An assistant message that ran a tool twice. *)
Definition toolMessage : Formatter.MessageWithParts :=
  {| Formatter.info_id := "msg_7"; Formatter.info_role := assistant;
     Formatter.info_time_created := 30;
     Formatter.parts :=
       [Formatter.TextPart "listing";
        Formatter.ToolPart "bash" (Formatter.ToolRunning "{}" None);
        Formatter.StepFinishPart] |}.

Definition bucketSearch : Search.SearchOptions :=
  {| Search.query := "S3 Bucket"; Search.search_sessionID := None;
     Search.search_projectID := None; Search.limit := None;
     Search.includeContext := None |}.

(** The chunk of [toolMessage]. *)
Definition toolChunk : TranscriptChunk :=
  {| chunk_id := "chunk_0"; chunk_sessionID := "ses_1"; messageID := "msg_7";
     role := assistant;
     Types.content :=
       "listing" +:+ Spec.newline +:+ "Tool: bash" +:+ Spec.newline +:+ "Input: {}";
     Types.timestamp := 30;
     partTypes := ["text"; "tool"; "step-finish"] |}.

(** The message of [host], and the host after a second message arrived. *)
Definition firstMessage : Formatter.MessageWithParts :=
  {| Formatter.info_id := "msg_1"; Formatter.info_role := user;
     Formatter.info_time_created := 10;
     Formatter.parts := [Formatter.TextPart "where do uploads go?"] |}.

Definition grownHost : Plugin.PluginInput :=
  {| Plugin.client :=
       {| Plugin.session_get :=
            fun sid => if String.eqb sid "ses_1" then Some "Upload path" else None;
          Plugin.session_messages :=
            fun sid =>
              if String.eqb sid "ses_1" then [firstMessage; toolMessage] else [] |};
     Plugin.project_id := "prj_1";
     Plugin.input_directory := "/work";
     Plugin.input_worktree := "/work";
     Plugin.render := Plugin.render host |}.

(** A host that renders every date the same way, and leaves JSON as it
    is. *)
Definition isoDate (ms : Z) : string := "2024-05-01T09:30:00.000Z".
Definition localDate (ms : Z) : string := "5/1/2024, 9:30:00 AM".
Definition indentJson (json : string) : string := json.

(** A message that holds a file and the mark of a compaction. *)
Definition attachmentMessage : Formatter.MessageWithParts :=
  {| Formatter.info_id := "msg_3"; Formatter.info_role := user;
     Formatter.info_time_created := 30;
     Formatter.parts :=
       [Formatter.FilePart (Some "upload.ts") "file:///work/upload.ts";
        Formatter.CompactionPart] |}.

(** Calls of the tools from the session [ses_1]. *)
Definition toolContext : Tools.ToolContext := {| Tools.context_sessionID := "ses_1" |}.

Definition listAll : Tools.ListArgs :=
  {| Tools.currentSession := None; Tools.allSessions := Some true;
     Tools.list_limit := None |}.

Definition recallFull : Tools.RecallArgs :=
  {| Tools.recall_query := ""; Tools.recall_sessionID := None;
     Tools.format := Some Tools.FormatBoth; Tools.recall_limit := None;
     Tools.fullTranscript := Some true |}.

Definition recallBucket : Tools.RecallArgs :=
  {| Tools.recall_query := "S3 Bucket"; Tools.recall_sessionID := Some "ses_1";
     Tools.format := None; Tools.recall_limit := None;
     Tools.fullTranscript := None |}.

(** The host of [grownHost], with the renderers of formatter.ts. *)
Definition renderingHost : Plugin.PluginInput :=
  {| Plugin.client := Plugin.client grownHost;
     Plugin.project_id := "prj_1";
     Plugin.input_directory := "/work";
     Plugin.input_worktree := "/work";
     Plugin.render := Rendering.renderers isoDate localDate indentJson |}.

(** An assistant message whose only part is a text part without text. *)
Definition emptyTextMessage : Formatter.MessageWithParts :=
  {| Formatter.info_id := "msg_9"; Formatter.info_role := assistant;
     Formatter.info_time_created := 40;
     Formatter.parts := [Formatter.TextPart EmptyString] |}.

(** The disk after the save of a session whose three chunks hold the word
    [cache] once, three times and twice, and a search for it that asks
    for two results. *)
Definition rankedChunks : list TranscriptChunk :=
  [chunk "chunk_0" 10 "cache miss on the first read";
   chunk "chunk_1" 20 "Cache, cache, CACHE";
   chunk "chunk_2" 30 "the cache of the cache"].

Definition rankedDisk : Disk :=
  snd (Storage.saveTranscript (transcript rankedChunks) emptyDisk).

Definition cacheSearch : Search.SearchOptions :=
  {| Search.query := "cache"; Search.search_sessionID := None;
     Search.search_projectID := None; Search.limit := Some 2;
     Search.includeContext := Some false |}.

End Sample.

(* ================================================================= *)
(** * Properties *)

(** ** The string primitives on examples *)

Example toLowerCase_ex : toLowerCase "The S3 Bucket" = "the s3 bucket".
Proof. reflexivity. Qed.

Example split_ex1 : splitWhitespace " a  b " = [EmptyString; "a"; "b"; EmptyString].
Proof. reflexivity. Qed.

Example split_ex2 : splitWhitespace EmptyString = [EmptyString].
Proof. reflexivity. Qed.

Example indexOf_ex : indexOf "hello world" "o w" = 4 /\ indexOf "abc" "x" = -1.
Proof. split; reflexivity. Qed.

Example slice_ex : slice "hello world" 3 8 = "lo wo" /\ slice "hello" 0 (-2) = "hel".
Proof. split; reflexivity. Qed.

Example endsWith_ex : endsWith "chunk_0.json" ".json" = true /\ endsWith "a" ".json" = false.
Proof. split; reflexivity. Qed.

Example createChunks_ex :
  map content (Formatter.createChunks [Sample.toolMessage] "ses_1") =
  ["listing" +:+ Spec.newline +:+ "Tool: bash" +:+ Spec.newline +:+ "Input: {}"] /\
  map chunk_id (Formatter.createChunks [Sample.toolMessage; Sample.toolMessage] "ses_1") =
  ["chunk_0"; "chunk_1"].
Proof. split; reflexivity. Qed.

(** ** Strings *)

Lemma append_nil (t : string) : EmptyString +:+ t = t.
Proof. reflexivity. Qed.

Lemma append_cons (c : ascii) (s t : string) :
  String c s +:+ t = String c (s +:+ t).
Proof. reflexivity. Qed.

Ltac simpl_append := rewrite ?append_nil, ?append_cons in *.

Lemma append_empty_r (s : string) : s +:+ EmptyString = s.
Proof. induction s as [|c s IH]; simpl_append; [reflexivity | now rewrite IH]. Qed.

Lemma append_assoc (a b c : string) : (a +:+ b) +:+ c = a +:+ (b +:+ c).
Proof. induction a as [|x a IH]; simpl_append; [reflexivity | now rewrite IH]. Qed.

Lemma length_append (a b : string) :
  String.length (a +:+ b) = (String.length a + String.length b)%nat.
Proof. induction a as [|x a IH]; simpl_append; simpl; [reflexivity | now rewrite IH]. Qed.

Lemma startsWith_iff (s p : string) :
  startsWith s p = true <-> exists post, s = p +:+ post.
Proof.
  revert s; induction p as [|b p IH]; intros s; simpl.
  - split; [intros _; now exists s | now destruct s].
  - destruct s as [|a s]; simpl.
    + split; [discriminate | intros [post H]; discriminate].
    + rewrite andb_true_iff, IH. split.
      * intros [Hab [post ->]]. apply Ascii.eqb_eq in Hab as ->. now exists post.
      * intros [post H]. simpl_append. injection H as -> ->.
        split; [apply Ascii.eqb_refl | now exists post].
Qed.

Lemma includes_nil (t : string) : includes EmptyString t = startsWith EmptyString t.
Proof. simpl. apply orb_false_r. Qed.

Lemma includes_cons (a : ascii) (s t : string) :
  includes (String a s) t = startsWith (String a s) t || includes s t.
Proof. reflexivity. Qed.

Lemma includes_iff (s t : string) :
  includes s t = true <-> exists pre post, s = pre +:+ t +:+ post.
Proof.
  induction s as [|a s IH].
  - rewrite includes_nil, startsWith_iff. split.
    + intros [post H]. now exists EmptyString, post.
    + intros [pre [post H]]. destruct pre; simpl_append; [now exists post | discriminate].
  - rewrite includes_cons, orb_true_iff, IH, startsWith_iff. split.
    + intros [[post H] | [pre [post H]]].
      * now exists EmptyString, post.
      * exists (String a pre), post. simpl_append. now rewrite H.
    + intros [pre [post H]]. destruct pre as [|x pre]; simpl_append.
      * left. now exists post.
      * right. injection H as _ H. now exists pre, post.
Qed.

Lemma lowerChar_idem (c : ascii) : lowerChar (lowerChar c) = lowerChar c.
Proof. destruct c as [[] [] [] [] [] [] [] []]; reflexivity. Qed.

Lemma toLowerCase_idem (s : string) : toLowerCase (toLowerCase s) = toLowerCase s.
Proof.
  induction s as [|c s IH]; simpl; [reflexivity|].
  now rewrite lowerChar_idem, IH.
Qed.

Lemma toLowerCase_append (a b : string) :
  toLowerCase (a +:+ b) = toLowerCase a +:+ toLowerCase b.
Proof.
  induction a as [|x a IH]; simpl_append; simpl; [reflexivity|].
  simpl_append. now rewrite IH.
Qed.

Lemma toLowerCase_length (s : string) :
  String.length (toLowerCase s) = String.length s.
Proof. induction s as [|c s IH]; simpl; [reflexivity | now rewrite IH]. Qed.

(** A splitting of the folded string comes from a splitting of the string. *)
Lemma toLowerCase_split (s a b : string) :
  toLowerCase s = a +:+ b ->
  exists a' b', s = a' +:+ b' /\ toLowerCase a' = a /\ toLowerCase b' = b.
Proof.
  revert s; induction a as [|x a IH]; intros s H; simpl_append.
  - now exists EmptyString, s.
  - destruct s as [|c s]; simpl in H; [discriminate|].
    injection H as Hc H. destruct (IH _ H) as (a' & b' & -> & Ha & Hb).
    exists (String c a'), b'. simpl_append. simpl. now rewrite Hc, Ha.
Qed.

(** On a folded term, [includes] of the folded content is occurrence with
    letter case ignored. *)
Lemma includes_lower_iff (content term : string) :
  toLowerCase term = term ->
  includes (toLowerCase content) term = true <->
  Spec.occursIgnoringCase term content.
Proof.
  intros Hterm. rewrite includes_iff. unfold Spec.occursIgnoringCase. split.
  - intros (pre & post & H).
    apply toLowerCase_split in H as (pre' & rest & -> & _ & H).
    apply toLowerCase_split in H as (mid & post' & -> & Hmid & _).
    exists pre', mid, post'. now rewrite Hterm.
  - intros (pre & mid & post & -> & H).
    exists (toLowerCase pre), (toLowerCase post).
    now rewrite !toLowerCase_append, H, Hterm.
Qed.

(** ** Search terms *)

Import Search Spec.

Lemma toLowerCase_ofChars (l : list ascii) :
  toLowerCase (ofChars l) = ofChars (map lowerChar l).
Proof. induction l as [|c l IH]; simpl; [reflexivity | now rewrite IH]. Qed.

Lemma folded_ofChars (l : list ascii) :
  Forall (fun c => lowerChar c = c) l -> folded (ofChars l).
Proof.
  intros H. unfold folded. rewrite toLowerCase_ofChars. f_equal.
  induction H as [|c l Hc _ IH]; simpl; [reflexivity | now rewrite Hc, IH].
Qed.

Lemma splitWsFrom_folded (s : string) : forall cur inRun,
  Forall (fun c => lowerChar c = c) cur -> folded s ->
  Forall folded (splitWsFrom cur inRun s).
Proof.
  induction s as [|c s IH]; intros cur inRun Hcur Hs; simpl.
  - constructor; [|constructor]. apply folded_ofChars. now apply Forall_rev.
  - unfold folded in Hs. simpl in Hs. injection Hs as Hc Hs.
    destruct (isWhitespace c).
    + destruct inRun.
      * apply IH; [constructor | exact Hs].
      * constructor.
        -- apply folded_ofChars. now apply Forall_rev.
        -- apply IH; [constructor | exact Hs].
    + apply IH; [now constructor | exact Hs].
Qed.

(** Every search term is in lower case. *)
Lemma searchTermsOf_folded (query : string) : Forall folded (searchTermsOf query).
Proof.
  unfold searchTermsOf, splitWhitespace.
  assert (H : Forall folded (splitWsFrom [] false (toLowerCase query))).
  { apply splitWsFrom_folded; [constructor | apply toLowerCase_idem]. }
  rewrite List.Forall_forall in *. intros t Ht. apply filter_In in Ht as [Ht _]. now apply H.
Qed.

(** No search term is empty. *)
Lemma searchTermsOf_nonempty (query : string) :
  Forall (fun t => t <> EmptyString) (searchTermsOf query).
Proof.
  unfold searchTermsOf. rewrite List.Forall_forall. intros t Ht.
  apply filter_In in Ht as [_ Ht]. now destruct t.
Qed.

Lemma isWhitespace_lowerChar (c : ascii) :
  isWhitespace (lowerChar c) = isWhitespace c.
Proof. destruct c as [[] [] [] [] [] [] [] []]; reflexivity. Qed.

Lemma blank_toLowerCase (s : string) : Spec.blank (toLowerCase s) = Spec.blank s.
Proof.
  unfold Spec.blank. induction s as [|c s IH]; simpl; [reflexivity|].
  now rewrite isWhitespace_lowerChar, IH.
Qed.

Lemma splitWsFrom_blank (s : string) : forall inRun,
  Spec.blank s = true ->
  Forall (fun t => t = EmptyString) (splitWsFrom [] inRun s).
Proof.
  unfold Spec.blank.
  induction s as [|c s IH]; intros inRun H; simpl in *.
  - now repeat constructor.
  - apply andb_true_iff in H as [Hc Hs]. rewrite Hc.
    destruct inRun; [now apply IH|]. constructor; [reflexivity | now apply IH].
Qed.

(** A blank query has no search term. *)
Lemma searchTermsOf_blank (query : string) :
  Spec.blank query = true -> searchTermsOf query = [].
Proof.
  intros H. unfold searchTermsOf, splitWhitespace.
  rewrite <- blank_toLowerCase in H.
  pose proof (splitWsFrom_blank _ false H) as Hall.
  induction Hall as [|t l -> _ IH]; simpl; [reflexivity | exact IH].
Qed.

(** ** The search filter *)

Lemma chunkMatches_iff (content : string) (terms : list string) :
  Forall folded terms ->
  chunkMatches content terms = true <->
  forall t, In t terms -> Spec.occursIgnoringCase t content.
Proof.
  intros Hterms. unfold chunkMatches. rewrite forallb_forall. split.
  - intros H t Ht. apply includes_lower_iff; [|now apply H].
    rewrite List.Forall_forall in Hterms. now apply Hterms.
  - intros H t Ht. apply includes_lower_iff; [|now apply H].
    rewrite List.Forall_forall in Hterms. now apply Hterms.
Qed.

Lemma chunkMatches_app (content : string) (terms1 terms2 : list string) :
  chunkMatches content (terms1 ++ terms2) =
  chunkMatches content terms1 && chunkMatches content terms2.
Proof. unfold chunkMatches. apply forallb_app. Qed.

(** C3.  A chunk passes the filter of [searchTranscripts] exactly when
    every term of the query occurs in its content as a substring, letter
    case ignored; and a chunk that passes under a list of terms passes
    under that list with any one term removed. *)
Theorem search_filter_conjunctive (content : string) :
  (forall query : string,
     chunkMatches content (searchTermsOf query) = true <->
     forall t, In t (searchTermsOf query) -> Spec.occursIgnoringCase t content) /\
  (forall (terms1 terms2 : list string) (t : string),
     chunkMatches content (terms1 ++ t :: terms2) = true ->
     chunkMatches content (terms1 ++ terms2) = true).
Proof.
  split.
  - intros query. apply chunkMatches_iff, searchTermsOf_folded.
  - intros terms1 terms2 t. rewrite !chunkMatches_app.
    change (t :: terms2) with ([t] ++ terms2). rewrite chunkMatches_app.
    rewrite !andb_true_iff. tauto.
Qed.

Lemma search_filter_conjunctive_witness :
  chunkMatches "the S3 bucket path is /data/uploads" (searchTermsOf "S3") = true.
Proof.
  apply (proj2 (search_filter_conjunctive "the S3 bucket path is /data/uploads")
           [] ["bucket"] "s3").
  reflexivity.
Defined.

(** ** The score *)

Import RegExp.

Lemma lowerChar_canonicalize (c : ascii) : lowerChar (canonicalize c) = lowerChar c.
Proof. destruct c as [[] [] [] [] [] [] [] []]; reflexivity. Qed.

Lemma canonicalize_lowerChar (c : ascii) : canonicalize (lowerChar c) = canonicalize c.
Proof. destruct c as [[] [] [] [] [] [] [] []]; reflexivity. Qed.

(** Two code units have the same canonical form exactly when they have
    the same lower case. *)
Lemma canonicalize_eqb (p c : ascii) :
  Ascii.eqb (canonicalize p) (canonicalize c) = Ascii.eqb (lowerChar c) (lowerChar p).
Proof.
  destruct (Ascii.eqb_spec (canonicalize p) (canonicalize c)) as [H|H];
    destruct (Ascii.eqb_spec (lowerChar c) (lowerChar p)) as [H'|H']; try reflexivity.
  - exfalso. apply H'.
    now rewrite <- (lowerChar_canonicalize c), <- H, lowerChar_canonicalize.
  - exfalso. apply H.
    now rewrite <- (canonicalize_lowerChar p), <- H', canonicalize_lowerChar.
Qed.

Lemma matchesAt_literal (t s : string) :
  matchesAt (map Char (chars t)) s = startsWith (toLowerCase s) (toLowerCase t).
Proof.
  revert s; induction t as [|p t IH]; intros s; simpl.
  - now destruct s.
  - destruct s as [|c s]; simpl; [reflexivity|].
    now rewrite canonicalize_eqb, IH.
Qed.

Lemma chars_length (t : string) : length (chars t) = String.length t.
Proof. induction t as [|c t IH]; simpl; [reflexivity | now rewrite IH]. Qed.

Lemma countMatches_literal (t s : string) (skip : nat) :
  countMatches (map Char (chars t)) s skip =
  Spec.countFrom (toLowerCase t) (toLowerCase s) skip.
Proof.
  revert skip; induction s as [|c s IH]; intros skip; [reflexivity|].
  cbn [countMatches toLowerCase Spec.countFrom].
  destruct skip as [|k]; [|apply IH].
  rewrite matchesAt_literal. cbn [toLowerCase].
  rewrite length_map, chars_length, toLowerCase_length, !IH.
  reflexivity.
Qed.

Lemma atomsOf_plain (t : string) :
  plain t -> atomsOf t = Some (map Char (chars t)).
Proof.
  unfold plain. induction t as [|c t IH]; simpl; [reflexivity|].
  intros H. apply andb_true_iff in H as [Hc Ht].
  destruct (Ascii.eqb_spec c "."%char) as [->|_]; [discriminate|].
  apply negb_true_iff in Hc. rewrite Hc, (IH Ht). reflexivity.
Qed.

Lemma isQuantifier_syntax (c : ascii) :
  isQuantifier c = true -> isSyntaxCharacter c = true.
Proof. destruct c as [[] [] [] [] [] [] [] []]; simpl; intros H; try discriminate; reflexivity. Qed.

Lemma newRegExp_plain (t : string) :
  plain t -> newRegExp t = Ok (map Char (chars t)).
Proof.
  intros H. destruct t as [|c t]; [reflexivity|].
  unfold newRegExp. rewrite (atomsOf_plain _ H).
  destruct (isQuantifier c) eqn:Hq; [|reflexivity].
  apply isQuantifier_syntax in Hq. unfold plain in H. simpl in H.
  now rewrite Hq in H.
Qed.

Lemma matchCount_literal (t content : string) :
  t <> EmptyString ->
  matchCount content (map Char (chars t)) = Spec.occurrenceCount t content.
Proof.
  intros Ht. destruct t as [|c t]; [congruence|].
  unfold matchCount, Spec.occurrenceCount. cbn [chars map].
  change (Char c :: map Char (chars t)) with (map Char (chars (String c t))).
  now rewrite countMatches_literal.
Qed.

(** For terms without syntax characters the score is a sum of occurrence
    counts, and it is not negative. *)
Lemma scoreTerms_plain (content : string) (terms : list string) : forall score,
  Forall plain terms -> Forall (fun t => t <> EmptyString) terms ->
  scoreTerms content terms score =
  Ok (score + Spec.sumZ (map (fun t => Spec.occurrenceCount t content) terms)).
Proof.
  induction terms as [|t terms IH]; intros score Hp Hn; simpl.
  - f_equal. lia.
  - inversion Hp as [|? ? Hpt Hp']; inversion Hn as [|? ? Hnt Hn']; subst.
    rewrite (newRegExp_plain _ Hpt). cbn [mbind Result_bind].
    rewrite (IH _ Hp' Hn'), (matchCount_literal _ _ Hnt). f_equal. lia.
Qed.

Lemma occurrenceCount_nonneg (t c : string) : 0 <= Spec.occurrenceCount t c.
Proof. unfold Spec.occurrenceCount. lia. Qed.

Lemma sum_occurrences_nonneg (content : string) (terms : list string) :
  0 <= Spec.sumZ (map (fun t => Spec.occurrenceCount t content) terms).
Proof.
  induction terms as [|t terms IH]; simpl; [lia|].
  pose proof (occurrenceCount_nonneg t content). lia.
Qed.

(** X1.  The score of a chunk whose terms have no syntax character: the
    sum over the terms of the occurrence count, which is not negative. *)
Theorem score_of_plain_terms (content : string) (terms : list string) :
  Forall plain terms -> Forall (fun t => t <> EmptyString) terms ->
  scoreTerms content terms 0 =
    Ok (Spec.sumZ (map (fun t => Spec.occurrenceCount t content) terms)) /\
  0 <= Spec.sumZ (map (fun t => Spec.occurrenceCount t content) terms).
Proof.
  intros Hp Hn. split; [|apply sum_occurrences_nonneg].
  now rewrite (scoreTerms_plain content terms 0 Hp Hn).
Qed.

Lemma score_of_plain_terms_witness :
  scoreTerms "the S3 bucket path is /data/uploads" ["s3"; "bucket"] 0 = Ok 2.
Proof.
  refine (proj1 (score_of_plain_terms "the S3 bucket path is /data/uploads"
                   ["s3"; "bucket"] _ _)).
  - repeat constructor.
  - repeat constructor; discriminate.
Defined.

(** C4.  A term is handed to [new RegExp] as it is, so a term with a
    syntax character is not counted as a substring.  The chunk ["a.c abc"]
    passes the filter for the query ["a.c"], which occurs in it once, and
    its score is 2; the chunk ["1 + 2"] passes the filter for the query
    ["+"], and computing its score throws, which ends the search. *)
Theorem score_reads_term_as_pattern :
  searchTermsOf "a.c" = ["a.c"] /\
  chunkMatches "a.c abc" ["a.c"] = true /\
  scoreTerms "a.c abc" ["a.c"] 0 = Ok 2 /\
  Spec.sumZ (map (fun t => Spec.occurrenceCount t "a.c abc") ["a.c"]) = 1 /\
  searchTermsOf "+" = ["+"] /\
  chunkMatches "1 + 2" ["+"] = true /\
  scoreTerms "1 + 2" ["+"] 0 = Throw RegExpSyntaxError /\
  fst (searchTranscripts Sample.plusSearch Sample.sumDisk) = Throw RegExpSyntaxError.
Proof. repeat split; vm_compute; reflexivity. Qed.

(** ** Excerpts *)

Lemma substring_length_le (n m : nat) (s : string) :
  (String.length (substring n m s) <= m)%nat.
Proof.
  revert n m; induction s as [|c s IH]; intros n m.
  - destruct n, m; simpl; lia.
  - destruct n as [|n].
    + destruct m as [|m]; simpl; [lia|]. specialize (IH 0%nat m). lia.
    + simpl. apply IH.
Qed.

Lemma slice_length_le (s : string) (a b : Z) :
  0 <= a -> a <= b ->
  Z.of_nat (String.length (slice s a b)) <= b - a.
Proof.
  intros Ha Hab. unfold slice.
  pose proof (substring_length_le
                (Z.to_nat (clampIndex (len s) a))
                (Z.to_nat (Z.max (clampIndex (len s) b - clampIndex (len s) a) 0)) s) as H.
  unfold clampIndex, len in *.
  destruct (Z.ltb_spec a 0); destruct (Z.ltb_spec b 0); lia.
Qed.

(** A prefix read with [substring]. *)
Lemma substring_prefix (n : nat) (s : string) :
  (n <= String.length s)%nat ->
  exists rest, s = substring 0 n s +:+ rest /\ String.length (substring 0 n s) = n.
Proof.
  revert s; induction n as [|n IH]; intros s Hn.
  - exists s. destruct s; simpl; split; reflexivity.
  - destruct s as [|c s]; simpl in Hn; [lia|].
    destruct (IH s ltac:(lia)) as (rest & Hs & Hl).
    exists rest. simpl. simpl_append. split; [now rewrite <- Hs | now rewrite Hl].
Qed.

Lemma startsWith_empty (s : string) : startsWith s EmptyString = true.
Proof. now destruct s. Qed.

(** [startsWith] looks at no more of a string than the prefix is long. *)
Lemma startsWith_append (a b p : string) :
  (String.length p <= String.length a)%nat ->
  startsWith (a +:+ b) p = startsWith a p.
Proof.
  revert a; induction p as [|x p IH]; intros a H.
  - now rewrite !startsWith_empty.
  - destruct a as [|y a]; simpl in H; [lia|].
    simpl_append. simpl. rewrite IH by lia. reflexivity.
Qed.

Lemma slice_from_start (s : string) (b : Z) :
  0 <= b <= len s -> slice s 0 b = substring 0 (Z.to_nat b) s.
Proof.
  intros H. unfold slice, clampIndex, len in *.
  destruct (Z.ltb_spec b 0); [lia|]. simpl.
  rewrite Z.min_l by lia. f_equal. lia.
Qed.

(** A slice from the start, at least three code units long: what is
    appended to it does not change whether it starts with the marker. *)
Lemma startsWith_slice_start (s x : string) (b : Z) :
  3 <= b <= len s ->
  startsWith (slice s 0 b +:+ x) "..." = startsWith s "...".
Proof.
  intros H. rewrite slice_from_start by lia.
  destruct (substring_prefix (Z.to_nat b) s) as (rest & Hs & Hl).
  { unfold len in H. lia. }
  rewrite startsWith_append by (rewrite Hl; simpl; lia).
  rewrite Hs at 2. rewrite startsWith_append by (rewrite Hl; simpl; lia).
  reflexivity.
Qed.

Lemma slice_whole (s : string) : slice s 0 (len s) = s.
Proof.
  rewrite slice_from_start by (unfold len; lia). unfold len.
  rewrite Nat2Z.id. induction s as [|c s IH]; simpl; [reflexivity | now rewrite IH].
Qed.

(** The window of an excerpt lies in the content, is at most [maxLength]
    long, and stops before the end of the content only when it is
    [maxLength] long and starts where the first computation put it. *)
Lemma excerptWindow_bounds (content : string) (terms : list string)
    (maxLength start end_ : Z) :
  0 <= maxLength ->
  excerptWindow content terms maxLength = Some (start, end_) ->
  0 <= start /\ start <= end_ /\ end_ <= len content /\
  end_ - start <= maxLength /\
  (end_ < len content -> end_ = start + maxLength).
Proof.
  intros Hm. unfold excerptWindow.
  set (best := firstOccurrence _ _ _).
  destruct (Z.eqb_spec best (len content)); [discriminate|].
  set (half := maxLength / 2).
  assert (0 <= len content) by (unfold len; lia).
  destruct (Z.eqb_spec (Z.min (len content) (Z.max 0 (best - half) + maxLength))
              (len content)) as [He|He]; cbn [andb].
  - destruct (Z.ltb_spec (Z.min (len content) (Z.max 0 (best - half) + maxLength)
                          - Z.max 0 (best - half)) maxLength);
      intros [= <- <-]; lia.
  - intros [= <- <-]. lia.
Qed.

Lemma truncateText_length (text : string) (maxLength : Z) :
  3 <= maxLength ->
  Z.of_nat (String.length (truncateText text maxLength)) <= maxLength.
Proof.
  intros H. unfold truncateText.
  destruct (Z.leb_spec (len text) maxLength) as [Hle|Hgt]; [exact Hle|].
  rewrite length_append. pose proof (slice_length_le text 0 (maxLength - 3)).
  simpl String.length. lia.
Qed.

Lemma createExcerpt_length (content : string) (terms : list string) :
  (String.length (createExcerpt content terms 500) <= 506)%nat.
Proof.
  unfold createExcerpt.
  destruct (excerptWindow content terms 500) as [[start end_]|] eqn:Hw.
  - apply excerptWindow_bounds in Hw as (H0 & H1 & H2 & H3 & _); [|lia].
    pose proof (slice_length_le content start end_ H0 H1) as Hs.
    destruct (0 <? start)%Z; destruct (end_ <? len content)%Z;
      rewrite ?length_append; simpl String.length;
      rewrite ?length_append; simpl String.length; lia.
  - pose proof (truncateText_length content 500). lia.
Qed.

Lemma createExcerpt_marker (content : string) (terms : list string) :
  startsWith (createExcerpt content terms 500) "..." = true ->
  startsWith content "..." = false ->
  exists start end_,
    excerptWindow content terms 500 = Some (start, end_) /\ 0 < start.
Proof.
  unfold createExcerpt. intros He Hc.
  destruct (excerptWindow content terms 500) as [[start end_]|] eqn:Hw.
  - exists start, end_. split; [reflexivity|].
    apply excerptWindow_bounds in Hw as (H0 & H1 & H2 & H3 & H4); [|lia].
    destruct (Z.ltb_spec 0 start) as [|Hs]; [assumption|exfalso].
    assert (start = 0) as -> by lia.
    destruct (Z.ltb_spec end_ (len content)) as [Hlt|Hge].
    + rewrite startsWith_slice_start in He by (specialize (H4 Hlt); lia). congruence.
    + assert (end_ = len content) as -> by lia.
      rewrite slice_whole in He. congruence.
  - exfalso. unfold truncateText in He.
    destruct (Z.leb_spec (len content) 500) as [Hle|Hgt]; [congruence|].
    rewrite startsWith_slice_start in He by lia. congruence.
Qed.

(** C6, as the code has it.  An excerpt is at most 506 code units long;
    and an excerpt that starts with the marker ["..."], from a content that
    does not start with it, has a window that starts behind offset 0. *)
Theorem excerpt_bounded (content : string) (terms : list string) :
  (String.length (createExcerpt content terms 500) <= 506)%nat /\
  (startsWith (createExcerpt content terms 500) "..." = true ->
   startsWith content "..." = false ->
   exists start end_,
     excerptWindow content terms 500 = Some (start, end_) /\ 0 < start).
Proof. split; [apply createExcerpt_length | apply createExcerpt_marker]. Qed.

Lemma excerpt_bounded_witness :
  exists start end_,
    excerptWindow (repeatString "a" 600 +:+ "x") ["x"] 500 = Some (start, end_) /\
    0 < start.
Proof.
  apply (proj2 (excerpt_bounded (repeatString "a" 600 +:+ "x") ["x"]));
    vm_compute; reflexivity.
Defined.

(** C6, as stated, fails on a content that starts with ["..."]: for the
    term ["x"] the excerpt of ["...x"] is the content itself, which starts
    with the marker, and its window starts at offset 0. *)
Lemma excerpt_marker_counterexample :
  createExcerpt "...x" ["x"] 500 = "...x" /\
  startsWith (createExcerpt "...x" ["x"] 500) "..." = true /\
  excerptWindow "...x" ["x"] 500 = Some (0, 4).
Proof. repeat split; reflexivity. Qed.

(** ** Running the monad *)

Import Fs Storage.

Lemma bind_run {A B : Type} (m : IO A) (f : A -> IO B) (d : Disk) :
  (m ≫= f) d =
  match m d with
  | (Ok a, d') => f a d'
  | (Throw e, d') => (Throw e, d')
  | (Unmodelled, d') => (Unmodelled, d')
  end.
Proof. reflexivity. Qed.

Lemma bind_ok {A B : Type} (m : IO A) (f : A -> IO B) (d d' : Disk) (a : A) :
  m d = (Ok a, d') -> (m ≫= f) d = f a d'.
Proof. intros H. rewrite bind_run, H. reflexivity. Qed.

Lemma bind_throw {A B : Type} (m : IO A) (f : A -> IO B) (d d' : Disk) (e : Exn) :
  m d = (Throw e, d') -> (m ≫= f) d = (Throw e, d').
Proof. intros H. rewrite bind_run, H. reflexivity. Qed.

Lemma tryCatch_ok {A : Type} (m : IO A) (h : Exn -> IO A) (d d' : Disk) (a : A) :
  m d = (Ok a, d') -> tryCatch m h d = (Ok a, d').
Proof. intros H. unfold tryCatch. rewrite H. reflexivity. Qed.

Lemma tryCatch_throw {A : Type} (m : IO A) (h : Exn -> IO A) (d d' : Disk) (e : Exn) :
  m d = (Throw e, d') -> tryCatch m h d = h e d'.
Proof. intros H. unfold tryCatch. rewrite H. reflexivity. Qed.

(** ** Reading the store *)

Lemma readIndex_run (d : Disk) : readIndex d = (Ok (currentIndex d), d).
Proof.
  unfold readIndex, currentIndex, tryCatch. rewrite bind_run. cbn [getDisk].
  destruct (index_json d) as [[index|]|]; reflexivity.
Qed.

Lemma readSessionFile_run {A : Type} (sessionID : string)
    (file : SessionDir -> IO A) (d : Disk) :
  readSessionFile sessionID file d =
  match session_dirs d !! sessionID with
  | Some sd => file sd d
  | None => (Throw ENOENT, d)
  end.
Proof.
  unfold readSessionFile. rewrite bind_run. unfold openSessionDir.
  destruct (session_dirs d !! sessionID); reflexivity.
Qed.

(** [loadTranscript] returns, leaves the disk as it is, and its value is
    the transcript stored. *)
Lemma loadTranscript_run (sessionID : string) (d : Disk) :
  loadTranscript sessionID d = (Ok (stored d sessionID), d).
Proof.
  unfold loadTranscript, tryCatch, stored, metadataOf, markdownOf, textOf.
  rewrite bind_run, readSessionFile_run.
  destruct (session_dirs d !! sessionID) as [sd|] eqn:Hsd; [|reflexivity].
  destruct sd as [[[m|]|] md tx cs]; cbn; try reflexivity.
  rewrite bind_run, readSessionFile_run, Hsd. cbn.
  destruct md as [md|]; cbn; [|reflexivity].
  rewrite bind_run, readSessionFile_run, Hsd. cbn.
  destruct tx as [tx|]; cbn; [|reflexivity].
  rewrite bind_run. unfold openSessionDir. rewrite Hsd. reflexivity.
Qed.

Lemma loadTranscriptMarkdown_run (sessionID : string) (d : Disk) :
  loadTranscriptMarkdown sessionID d = (Ok (markdownOf d sessionID), d).
Proof.
  unfold loadTranscriptMarkdown, tryCatch, markdownOf.
  rewrite bind_run, readSessionFile_run.
  destruct (session_dirs d !! sessionID) as [sd|]; [|reflexivity].
  cbn. destruct (transcript_md sd); reflexivity.
Qed.

Lemma loadTranscriptText_run (sessionID : string) (d : Disk) :
  loadTranscriptText sessionID d = (Ok (textOf d sessionID), d).
Proof.
  unfold loadTranscriptText, tryCatch, textOf.
  rewrite bind_run, readSessionFile_run.
  destruct (session_dirs d !! sessionID) as [sd|]; [|reflexivity].
  cbn. destruct (transcript_txt sd); reflexivity.
Qed.

Lemma stored_None (d : Disk) (sessionID : string) :
  stored d sessionID = None <->
  metadataOf d sessionID = None \/ markdownOf d sessionID = None \/
  textOf d sessionID = None.
Proof.
  unfold stored, markdownOf, textOf, metadataOf.
  destruct (session_dirs d !! sessionID) as [sd|]; cbn; [|tauto].
  destruct sd as [[[m|]|] [md|] [tx|] cs]; cbn; split; intros H;
    try tauto; try discriminate; destruct H as [H|[H|H]]; discriminate.
Qed.

(** C7, as the code has it.  The three read paths return and leave the
    disk as it is.  [loadTranscript] is absent exactly when [metadata.json]
    cannot be read or parsed or one of the two rendered texts cannot be
    read; otherwise it is the three files with the chunks [loadChunks]
    reads.  [loadTranscriptMarkdown] and [loadTranscriptText] are absent
    exactly when their file cannot be read. *)
Theorem read_paths_return (sessionID : string) (d : Disk) :
  (exists r, loadTranscript sessionID d = (Ok r, d) /\ r = stored d sessionID /\
     (r = None <->
      metadataOf d sessionID = None \/ markdownOf d sessionID = None \/
      textOf d sessionID = None)) /\
  loadTranscriptMarkdown sessionID d = (Ok (markdownOf d sessionID), d) /\
  loadTranscriptText sessionID d = (Ok (textOf d sessionID), d).
Proof.
  split; [|split].
  - exists (stored d sessionID). split; [apply loadTranscript_run|].
    split; [reflexivity | apply stored_None].
  - apply loadTranscriptMarkdown_run.
  - apply loadTranscriptText_run.
Qed.

(** C7, as stated, fails when it is a chunk that cannot be read: a record
    whose second chunk file does not parse, or whose [chunks] directory is
    missing, is loaded, with the chunks read before the failure, while a
    missing record is absent. *)
Lemma load_unreadable_chunks_counterexample :
  loadTranscript "ses_1" Sample.corruptChunkDisk =
    (Ok (Some {| metadata := Sample.meta "ses_1" 2 5000 false;
                 markdown := "# Upload path"; text := "=== Upload path ===";
                 chunks := [Sample.chunk "chunk_0" 10 "first"] |}),
     Sample.corruptChunkDisk) /\
  loadTranscript "ses_1" Sample.noChunksDirDisk =
    (Ok (Some {| metadata := Sample.meta "ses_1" 2 5000 false;
                 markdown := "# Upload path"; text := "=== Upload path ===";
                 chunks := [] |}),
     Sample.noChunksDirDisk) /\
  loadTranscript "ses_1" Sample.emptyDisk = (Ok None, Sample.emptyDisk).
Proof.
  rewrite !loadTranscript_run. repeat split; vm_compute; reflexivity.
Qed.

(** ** Listing *)

Lemma filter_filter {A : Type} (f g : A -> bool) (l : list A) :
  List.filter f (List.filter g l) = List.filter (fun x => g x && f x) l.
Proof.
  induction l as [|x l IH]; simpl; [reflexivity|].
  destruct (g x); simpl; [destruct (f x)|]; now rewrite IH.
Qed.

Lemma filter_true {A : Type} (l : list A) : List.filter (fun _ => true) l = l.
Proof. induction l as [|x l IH]; simpl; [reflexivity | now rewrite IH]. Qed.

Lemma insertSorted_perm {A : Type} (le : A -> A -> bool) (x : A) (l : list A) :
  Permutation (insertSorted le x l) (x :: l).
Proof.
  induction l as [|y l IH]; simpl; [reflexivity|].
  destruct (le x y); [reflexivity|].
  rewrite IH. apply perm_swap.
Qed.

Lemma stableSort_perm {A : Type} (le : A -> A -> bool) (l : list A) :
  Permutation (stableSort le l) l.
Proof.
  induction l as [|x l IH]; simpl; [reflexivity|].
  rewrite insertSorted_perm. now rewrite IH.
Qed.

(** The listing before the limit: the selected entries of the index,
    most recently updated first. *)
Lemma listTranscripts_run (options : ListOptions) (d : Disk) :
  listTranscripts options d =
  (Ok (let sorted :=
         stableSort byUpdatedAtDesc
           (List.filter (selected (opt_projectID options) (opt_sessionID options))
              (Assoc.values (transcripts (currentIndex d)))) in
       match truthyNumber (opt_limit options) with
       | Some limit => sliceTo sorted limit
       | None => sorted
       end), d).
Proof.
  unfold listTranscripts. rewrite (bind_ok _ _ _ _ _ (readIndex_run d)).
  unfold selected. cbn [mret IO_ret]. do 2 f_equal.
  assert (E : forall l : list TranscriptMetadata,
    match truthyString (opt_sessionID options) with
    | Some s =>
        List.filter (fun t => String.eqb (sessionID t) s)
          match truthyString (opt_projectID options) with
          | Some p => List.filter (fun t => String.eqb (projectID t) p) l
          | None => l
          end
    | None =>
        match truthyString (opt_projectID options) with
        | Some p => List.filter (fun t => String.eqb (projectID t) p) l
        | None => l
        end
    end =
    List.filter (fun t =>
      match truthyString (opt_projectID options) with
      | Some p => String.eqb (projectID t) p
      | None => true
      end &&
      match truthyString (opt_sessionID options) with
      | Some s => String.eqb (sessionID t) s
      | None => true
      end) l).
  { intros l.
    destruct (truthyString (opt_projectID options));
      destruct (truthyString (opt_sessionID options)); cbn.
    - apply filter_filter.
    - apply filter_ext. intros t. now rewrite andb_true_r.
    - reflexivity.
    - symmetry. apply filter_true. }
  rewrite E. reflexivity.
Qed.

(** C10.  With a limit of 0, [listTranscripts] returns what it returns
    without a limit: all the selected entries of the index. *)
Theorem listTranscripts_limit_zero (project session : option string) (d : Disk) :
  listTranscripts
    {| opt_projectID := project; opt_sessionID := session; opt_limit := Some 0 |} d =
  listTranscripts
    {| opt_projectID := project; opt_sessionID := session; opt_limit := None |} d /\
  exists all,
    listTranscripts
      {| opt_projectID := project; opt_sessionID := session; opt_limit := Some 0 |} d
      = (Ok all, d) /\
    Permutation all
      (List.filter (selected project session)
         (Assoc.values (transcripts (currentIndex d)))).
Proof.
  rewrite !listTranscripts_run. cbn. split; [reflexivity|].
  eexists. split; [reflexivity|]. apply stableSort_perm.
Qed.

(** ** Searching with no term *)

Lemma createExcerpt_no_terms (content : string) (maxLength : Z) :
  createExcerpt content [] maxLength = truncateText content maxLength.
Proof.
  unfold createExcerpt, excerptWindow. cbn [firstOccurrence].
  now rewrite Z.eqb_refl.
Qed.

Lemma searchChunk_no_terms (metadata : TranscriptMetadata)
    (chunks : list TranscriptChunk) (includeContext : bool) (i : nat)
    (chunk : TranscriptChunk) :
  searchChunk metadata chunks [] includeContext (Z.of_nat i) chunk =
  Ok (Some (unfilteredResult metadata chunks includeContext i chunk)).
Proof.
  unfold searchChunk, unfilteredResult. cbn.
  now rewrite createExcerpt_no_terms.
Qed.

Lemma searchChunksFrom_no_terms (metadata : TranscriptMetadata)
    (chunks : list TranscriptChunk) (includeContext : bool)
    (todo : list TranscriptChunk) : forall i : nat,
  searchChunksFrom metadata chunks [] includeContext (Z.of_nat i) todo =
  Ok (imap (fun j => unfilteredResult metadata chunks includeContext (i + j)) todo).
Proof.
  induction todo as [|chunk rest IH]; intros i; [reflexivity|].
  cbn [searchChunksFrom]. rewrite searchChunk_no_terms. cbn [mbind Result_bind].
  replace (Z.of_nat i + 1) with (Z.of_nat (S i)) by lia.
  rewrite IH. cbn [mbind Result_bind imap]. rewrite Nat.add_0_r.
  do 2 f_equal. apply imap_ext. intros j x _. cbn. f_equal. lia.
Qed.

Lemma searchEach_no_terms (transcripts : list TranscriptMetadata)
    (includeContext : bool) (d : Disk) :
  searchEach transcripts [] includeContext d =
  (Ok (unfilteredResults d includeContext transcripts), d).
Proof.
  induction transcripts as [|metadata rest IH]; [reflexivity|].
  cbn [searchEach].
  rewrite (bind_ok _ _ _ _ _ (loadTranscript_run (sessionID metadata) d)).
  unfold unfilteredResults. cbn [flat_map].
  destruct (stored d (sessionID metadata)) as [t|].
  - rewrite bind_run. unfold liftResult.
    pose proof (searchChunksFrom_no_terms metadata (chunks t) includeContext
                  (chunks t) 0) as E.
    change (Z.of_nat 0) with 0 in E. rewrite E.
    rewrite (bind_ok _ _ _ _ _ IH). reflexivity.
  - rewrite bind_run. cbn [mret IO_ret].
    rewrite (bind_ok _ _ _ _ _ IH). reflexivity.
Qed.

(** A stable sort leaves a list in which no element is out of order. *)
Lemma stableSort_all_le {A : Type} (le : A -> A -> bool) (l : list A) :
  (forall x y, In x l -> In y l -> le x y = true) -> stableSort le l = l.
Proof.
  induction l as [|x l IH]; intros H; [reflexivity|].
  cbn [stableSort]. rewrite IH by (intros; apply H; now right).
  destruct l as [|y l]; [reflexivity|]. cbn [insertSorted].
  rewrite H; [reflexivity | now left | right; now left].
Qed.

Lemma unfilteredResults_score (d : Disk) (includeContext : bool)
    (transcripts : list TranscriptMetadata) (r : SearchResult) :
  In r (unfilteredResults d includeContext transcripts) -> score r = 0.
Proof.
  unfold unfilteredResults. rewrite in_flat_map. intros (metadata & _ & Hr).
  destruct (stored d (sessionID metadata)) as [t|]; [|contradiction].
  apply list_elem_of_In, elem_of_lookup_imap in Hr as (i & c & -> & _). reflexivity.
Qed.

Lemma sliceTo_firstn {A : Type} (l : list A) (n : Z) :
  0 <= n -> sliceTo l n = firstn (Z.to_nat n) l.
Proof.
  intros Hn. unfold sliceTo, clampIndex.
  destruct (Z.ltb_spec n 0); [lia|].
  destruct (Z.le_ge_cases n (Z.of_nat (length l))).
  - now rewrite Z.min_l.
  - rewrite Z.min_r by assumption. rewrite Nat2Z.id.
    rewrite firstn_all. symmetry. apply firstn_all2. lia.
Qed.

(** C9.  A blank query has no search term, and the search returns, of
    the results of all the chunks of the transcripts listed, each with
    score 0 and in the order they are met, the first [limit]. *)
Theorem blank_query_matches_all (options : SearchOptions) (d : Disk) :
  blank (query options) = true ->
  0 <= default 10 (limit options) ->
  searchTermsOf (query options) = [] /\
  exists transcripts,
    listTranscripts
      {| opt_projectID := search_projectID options;
         opt_sessionID := search_sessionID options;
         opt_limit := None |} d = (Ok transcripts, d) /\
    searchTranscripts options d =
      (Ok (firstn (Z.to_nat (default 10 (limit options)))
             (unfilteredResults d (default true (includeContext options))
                transcripts)), d) /\
    Forall (fun r => score r = 0)
      (unfilteredResults d (default true (includeContext options)) transcripts).
Proof.
  intros Hblank Hlimit. split; [now apply searchTermsOf_blank|].
  eexists. split; [apply listTranscripts_run|]. split.
  - unfold searchTranscripts.
    rewrite (bind_ok _ _ _ _ _ (listTranscripts_run _ d)).
    rewrite (searchTermsOf_blank _ Hblank).
    rewrite (bind_ok _ _ _ _ _ (searchEach_no_terms _ _ d)).
    unfold mret, IO_ret. do 2 f_equal.
    rewrite stableSort_all_le.
    + now apply sliceTo_firstn.
    + intros x y Hx Hy. unfold byScoreDesc.
      rewrite (unfilteredResults_score _ _ _ _ Hx), (unfilteredResults_score _ _ _ _ Hy).
      reflexivity.
  - apply List.Forall_forall. intros r. apply unfilteredResults_score.
Qed.

Lemma blank_query_matches_all_witness :
  searchTermsOf (query Sample.blankSearch) = [] /\
  exists transcripts,
    listTranscripts
      {| opt_projectID := search_projectID Sample.blankSearch;
         opt_sessionID := search_sessionID Sample.blankSearch;
         opt_limit := None |} Sample.savedDisk = (Ok transcripts, Sample.savedDisk) /\
    searchTranscripts Sample.blankSearch Sample.savedDisk =
      (Ok (firstn (Z.to_nat (default 10 (limit Sample.blankSearch)))
             (unfilteredResults Sample.savedDisk
                (default true (includeContext Sample.blankSearch)) transcripts)),
       Sample.savedDisk) /\
    Forall (fun r => score r = 0)
      (unfilteredResults Sample.savedDisk
         (default true (includeContext Sample.blankSearch)) transcripts).
Proof.
  apply (blank_query_matches_all Sample.blankSearch Sample.savedDisk).
  - reflexivity.
  - cbn. lia.
Defined.

(** On the sample disk the blank query returns both chunks. *)
Example blank_query_sample :
  exists r1 r2,
    searchTranscripts Sample.blankSearch Sample.savedDisk = (Ok [r1; r2], Sample.savedDisk) /\
    result_messageID r1 = "msg_chunk_0" /\ result_messageID r2 = "msg_chunk_1".
Proof. vm_compute. eexists _, _. split; [reflexivity|]. split; reflexivity. Qed.

(** ** Chunks *)

Import Formatter.

Lemma substring_0_all (m : nat) (s : string) :
  (String.length s <= m)%nat -> substring 0 m s = s.
Proof.
  revert m; induction s as [|c s IH]; intros m H.
  - now destruct m.
  - destruct m as [|m]; simpl in *; [lia|]. rewrite IH by lia. reflexivity.
Qed.

(** [s.slice(0, n)] is the first [n] code units of [s]. *)
Lemma slice_first (s : string) (n : nat) :
  slice s 0 (Z.of_nat n) = substring 0 n s.
Proof.
  destruct (Nat.le_gt_cases n (String.length s)) as [H|H].
  - rewrite slice_from_start by (unfold len; lia). now rewrite Nat2Z.id.
  - rewrite (substring_0_all n) by lia.
    rewrite <- (slice_whole s) at 2. unfold slice, clampIndex.
    assert (Hl : len s < Z.of_nat n) by (unfold len; lia).
    destruct (Z.ltb_spec (Z.of_nat n) 0); [lia|].
    destruct (Z.ltb_spec (len s) 0); [unfold len in *; lia|].
    do 2 f_equal. lia.
Qed.

(** What a tool invocation adds to the content of its message. *)
Lemma contentOfPart_tool (tool : string) (state : ToolState) :
  contentOfPart (ToolPart tool state) =
  ["Tool: " +:+ tool; "Input: " +:+ stateInput state] ++ outputLine state.
Proof.
  destruct state; cbn [contentOfPart outputLine]; try reflexivity.
  change 1000 with (Z.of_nat 1000). now rewrite slice_first.
Qed.

Lemma contentOfPart_nil (part : Part) :
  contentOfPart part = [] <-> hasContent part = false.
Proof. destruct part; cbn; split; intros H; try reflexivity; discriminate. Qed.

Lemma contentParts_nil (msg : MessageWithParts) :
  contentParts msg = [] <-> producesContent msg = false.
Proof.
  unfold contentParts, producesContent.
  induction (parts msg) as [|p ps IH]; cbn [flat_map existsb]; [tauto|].
  rewrite orb_false_iff, <- IH, <- contentOfPart_nil.
  split.
  - intros H. apply app_eq_nil in H. tauto.
  - intros [-> ->]. reflexivity.
Qed.

Lemma createChunksFrom_ids (messages : list MessageWithParts) (sessionID : string) :
  forall n,
    map messageID (createChunksFrom n messages sessionID) =
    map info_id (List.filter producesContent messages).
Proof.
  induction messages as [|msg rest IH]; intros n; [reflexivity|].
  cbn [createChunksFrom List.filter].
  destruct (contentParts msg) as [|x xs] eqn:Hc.
  - apply contentParts_nil in Hc. rewrite Hc. apply IH.
  - destruct (producesContent msg) eqn:Hp.
    + cbn [map messageID]. now rewrite IH.
    + apply contentParts_nil in Hp. congruence.
Qed.

Lemma createChunksFrom_In (messages : list MessageWithParts) (sessionID : string)
    (msg : MessageWithParts) :
  In msg messages -> contentParts msg <> [] ->
  forall n, exists chunk,
    In chunk (createChunksFrom n messages sessionID) /\
    messageID chunk = info_id msg /\ role chunk = info_role msg /\
    timestamp chunk = info_time_created msg /\
    content chunk = JsString.join newline (contentParts msg).
Proof.
  intros Hin Hne. induction messages as [|m rest IH]; intros n; [contradiction|].
  cbn [createChunksFrom]. destruct Hin as [->|Hin].
  - destruct (contentParts msg) as [|x xs] eqn:Hc; [congruence|].
    eexists. split; [left; reflexivity|]. cbn. repeat split; reflexivity.
  - destruct (contentParts m) as [|x xs].
    + apply (IH Hin).
    + destruct (IH Hin (S n)) as (chunk & H & Hrest). exists chunk. split; [now right | exact Hrest].
Qed.

(** C8, amended.  A message with a tool invocation yields a chunk whose
    content is the lines of its parts joined by line feeds; the invocation
    adds the line of its tool name and the line of its input, followed by
    the line of its output, cut to 1000 code units, exactly when it is
    completed.  And the chunks are those of the messages with a text, a
    reasoning or a tool part, one each, in order, whatever the text of the
    part: a message with no such part yields no chunk. *)
Theorem tool_part_in_chunk (messages : list MessageWithParts) (sessionID : string) :
  (forall msg before tool state after,
     In msg messages ->
     parts msg = before ++ ToolPart tool state :: after ->
     exists chunk,
       In chunk (createChunks messages sessionID) /\
       messageID chunk = info_id msg /\
       content chunk =
         JsString.join newline
           (flat_map contentOfPart before ++
            ["Tool: " +:+ tool; "Input: " +:+ stateInput state] ++
            outputLine state ++
            flat_map contentOfPart after)) /\
  map messageID (createChunks messages sessionID) =
    map info_id (List.filter producesContent messages).
Proof.
  split; [|apply createChunksFrom_ids].
  intros msg before tool state after Hin Hparts.
  assert (Hc : contentParts msg =
               flat_map contentOfPart before ++
               ["Tool: " +:+ tool; "Input: " +:+ stateInput state] ++
               outputLine state ++ flat_map contentOfPart after).
  { unfold contentParts. rewrite Hparts, flat_map_app. cbn [flat_map].
    rewrite contentOfPart_tool, <- !app_assoc. reflexivity. }
  destruct (createChunksFrom_In messages sessionID msg Hin) with (n := 0%nat)
    as (chunk & H1 & H2 & _ & _ & H3).
  { rewrite Hc. now destruct (flat_map contentOfPart before). }
  exists chunk. split; [exact H1|]. split; [exact H2|]. now rewrite H3, Hc.
Qed.

Lemma tool_part_in_chunk_witness :
  exists chunk,
    In chunk (createChunks [Sample.toolMessage] "ses_1") /\
    messageID chunk = "msg_7" /\
    content chunk =
      JsString.join newline ["listing"; "Tool: bash"; "Input: {}"].
Proof.
  apply (proj1 (tool_part_in_chunk [Sample.toolMessage] "ses_1")
           Sample.toolMessage [TextPart "listing"] "bash" (ToolRunning "{}" None)
           [StepFinishPart]).
  - left. reflexivity.
  - reflexivity.
Defined.

(** C8, as stated, fails in its last clause: a message whose only part
    is a text part with the empty text produces no content, and it yields
    a chunk, whose content is empty. *)
Lemma empty_text_chunk_counterexample :
  JsString.join newline (contentParts Sample.emptyTextMessage) = EmptyString /\
  createChunks [Sample.emptyTextMessage] "ses_1" =
    [{| chunk_id := "chunk_0"; chunk_sessionID := "ses_1"; messageID := "msg_9";
        role := assistant; content := EmptyString; timestamp := 40;
        partTypes := ["text"] |}].
Proof. split; reflexivity. Qed.

(** ** Deleting and sweeping *)

Lemma modifySessionDir_run (sessionID : string) (f : SessionDir -> SessionDir)
    (d : Disk) :
  modifySessionDir sessionID f d =
  (Ok tt,
   setSessionDirs
     (<[sessionID := f (default emptySessionDir (session_dirs d !! sessionID))]>
        (session_dirs d)) d).
Proof. reflexivity. Qed.

Lemma removeIndexEntry_run (sessionID : string) (d : Disk) :
  removeIndexEntry sessionID d =
  (Ok tt,
   setIndexJson
     (Some (Json (withTranscripts (currentIndex d)
                    (Assoc.remove sessionID (transcripts (currentIndex d)))))) d).
Proof.
  unfold removeIndexEntry. now rewrite (bind_ok _ _ _ _ _ (readIndex_run d)).
Qed.

Lemma setSessionDirs_twice (m m' : gmap string SessionDir) (d : Disk) :
  setSessionDirs m (setSessionDirs m' d) = setSessionDirs m d.
Proof. reflexivity. Qed.

Lemma rmdirSession_empty (sessionID : string) (m : gmap string SessionDir)
    (sd : SessionDir) (d : Disk) :
  isEmptySessionDir sd = true ->
  rmdirSession sessionID (setSessionDirs (<[sessionID := sd]> m) d) =
  (Ok tt, setSessionDirs (delete sessionID m) d).
Proof.
  intros He. unfold rmdirSession. cbn [session_dirs setSessionDirs].
  rewrite lookup_insert_eq, He. unfold setSessionDirs. cbn. do 2 f_equal.
  apply delete_insert_eq.
Qed.

(** Deleting a transcript whose directory is there removes the directory
    and the entry of the index. *)
Lemma deleteTranscript_present (sessionID : string) (d : Disk) :
  is_Some (session_dirs d !! sessionID) ->
  deleteTranscript sessionID d =
  (Ok tt,
   {| TRANSCRIPT_DIR := TRANSCRIPT_DIR d;
      index_json :=
        Some (Json (withTranscripts (currentIndex d)
                      (Assoc.remove sessionID (transcripts (currentIndex d)))));
      session_dirs := delete sessionID (session_dirs d) |}).
Proof.
  intros [sd Hsd]. unfold deleteTranscript, tryCatch, unlinkSessionFiles.
  rewrite !bind_run. unfold openSessionDir at 1. rewrite Hsd.
  rewrite modifySessionDir_run, Hsd. cbn [default from_option id].
  rewrite bind_run. unfold removeChunksDir. rewrite bind_run.
  unfold openSessionDir. cbn [session_dirs setSessionDirs].
  rewrite lookup_insert_eq.
  destruct (chunks_dir sd) as [files|] eqn:Hfiles.
  - cbn [unlinkFiles chunks_dir]. rewrite Hfiles.
    rewrite modifySessionDir_run. cbn [session_dirs setSessionDirs].
    rewrite lookup_insert_eq. cbn [default from_option id]. rewrite insert_insert_eq.
    rewrite setSessionDirs_twice.
    rewrite bind_run, rmdirSession_empty by reflexivity.
    rewrite removeIndexEntry_run. reflexivity.
  - cbn [unlinkFiles chunks_dir]. rewrite Hfiles. cbn [throw].
    unfold mret at 1, IO_ret at 1.
    rewrite bind_run, rmdirSession_empty
      by (unfold isEmptySessionDir; cbn; now rewrite Hfiles).
    rewrite removeIndexEntry_run. reflexivity.
Qed.

(** Deleting a transcript whose directory is missing fails at the first
    [readdir]: nothing is removed, the entry of the index included. *)
Lemma deleteTranscript_missing (sessionID : string) (d : Disk) :
  session_dirs d !! sessionID = None ->
  deleteTranscript sessionID d = (Ok tt, d).
Proof.
  intros Hsd. unfold deleteTranscript, tryCatch, unlinkSessionFiles.
  rewrite !bind_run. unfold openSessionDir. rewrite Hsd. reflexivity.
Qed.

Lemma sweepEntries_none_expired (now : Z)
    (entries : list (string * TranscriptMetadata)) (count : Z) (d : Disk) :
  expiredKeys now entries = [] ->
  sweepEntries now entries count d = (Ok count, d).
Proof.
  unfold expiredKeys, Assoc.keys.
  induction entries as [|[sid m] rest IH]; intros H; [reflexivity|].
  cbn [sweepEntries]. cbn [List.filter snd] in H.
  destruct (isExpired now m); [discriminate | now apply IH].
Qed.

Lemma withTranscripts_id (index : TranscriptIndex) :
  withTranscripts index (transcripts index) = index.
Proof. now destruct index. Qed.

Lemma sweepEntries_run (now : Z) (entries : list (string * TranscriptMetadata)) :
  forall (count : Z) (d : Disk),
    List.NoDup (Assoc.keys entries) ->
    (forall sid m, In (sid, m) entries -> isExpired now m = true ->
                   is_Some (session_dirs d !! sid)) ->
    exists d',
      sweepEntries now entries count d =
        (Ok (count + Z.of_nat (length (expiredKeys now entries))), d') /\
      session_dirs d' = deleteDirs (expiredKeys now entries) (session_dirs d) /\
      currentIndex d' =
        withTranscripts (currentIndex d)
          (removeKeys (expiredKeys now entries) (transcripts (currentIndex d))).
Proof.
  unfold expiredKeys, Assoc.keys.
  induction entries as [|[sid m] rest IH]; intros count d Hnd Hdirs.
  - exists d. cbn. rewrite Z.add_0_r, withTranscripts_id. auto.
  - cbn [map fst] in Hnd. apply List.NoDup_cons_iff in Hnd as [Hsid Hnd].
    cbn [sweepEntries List.filter snd].
    destruct (isExpired now m) eqn:Hexp.
    + assert (Hsome : is_Some (session_dirs d !! sid)).
      { apply (Hdirs sid m); [now left | exact Hexp]. }
      rewrite (bind_ok _ _ _ _ _ (deleteTranscript_present sid d Hsome)).
      match goal with |- context [sweepEntries _ _ _ ?d1] => set (after := d1) end.
      destruct (IH (count + 1) after Hnd) as (d' & Hrun & Hd & Hi).
      * intros sid' m' Hin Hexp'. subst after. cbn [session_dirs].
        rewrite lookup_delete_ne; [apply (Hdirs sid' m'); [now right | exact Hexp']|].
        intros ->. apply Hsid. apply (in_map fst) in Hin. exact Hin.
      * exists d'. rewrite Hrun, Hd, Hi. cbn [map fst length].
        split; [do 2 f_equal; lia|]. split; reflexivity.
    + apply (IH count d Hnd). intros sid' m' Hin. apply Hdirs. now right.
Qed.

Lemma remove_filter {V : Type} (k : string) (o : list (string * V)) :
  Assoc.remove k o = List.filter (fun e => negb (String.eqb (fst e) k)) o.
Proof.
  induction o as [|[k' v] o IH]; [reflexivity|]. cbn [Assoc.remove List.filter fst].
  destruct (String.eqb k' k); cbn [negb]; now rewrite IH.
Qed.

Lemma removeKeys_filter {V : Type} (ks : list string) : forall o : list (string * V),
  removeKeys ks o = List.filter (fun e => negb (isKey ks (fst e))) o.
Proof.
  unfold removeKeys, isKey.
  induction ks as [|k ks IH]; intros o; cbn [fold_left existsb].
  - symmetry. apply filter_true.
  - rewrite IH, remove_filter, filter_filter. apply filter_ext. intros e.
    now rewrite negb_orb.
Qed.

Lemma deleteDirs_lookup (ks : list string) : forall (m : gmap string SessionDir) k,
  deleteDirs ks m !! k = if isKey ks k then None else m !! k.
Proof.
  unfold deleteDirs, isKey.
  induction ks as [|k' ks IH]; intros m k; cbn [fold_left existsb]; [reflexivity|].
  rewrite IH. destruct (String.eqb_spec k k') as [->|Hne]; cbn [orb].
  - rewrite lookup_delete_eq. now destruct (existsb _ ks).
  - now rewrite lookup_delete_ne by congruence.
Qed.

Lemma unique_key {V : Type} (o : list (string * V)) (e e' : string * V) :
  List.NoDup (Assoc.keys o) -> In e o -> In e' o -> fst e = fst e' -> e = e'.
Proof.
  unfold Assoc.keys. induction o as [|x o IH]; intros Hnd He He' Hk; [contradiction|].
  cbn [map] in Hnd. apply List.NoDup_cons_iff in Hnd as [Hx Hnd].
  destruct He as [->|He], He' as [->|He']; try reflexivity.
  - exfalso. apply Hx. rewrite Hk. now apply in_map.
  - exfalso. apply Hx. rewrite <- Hk. now apply in_map.
  - now apply IH.
Qed.

(** With unique keys, an entry has the key of an expired entry exactly
    when it is expired. *)
Lemma isKey_expired (now : Z) (o : list (string * TranscriptMetadata))
    (e : string * TranscriptMetadata) :
  List.NoDup (Assoc.keys o) -> In e o ->
  isKey (expiredKeys now o) (fst e) = isExpired now (snd e).
Proof.
  intros Hnd He. unfold isKey, expiredKeys, Assoc.keys.
  destruct (isExpired now (snd e)) eqn:Hexp.
  - apply existsb_exists. exists (fst e). split; [|apply String.eqb_refl].
    apply in_map, filter_In. now split.
  - apply not_true_is_false. intros H.
    apply existsb_exists in H as (k & Hk & Heq). apply String.eqb_eq in Heq as <-.
    apply in_map_iff in Hk as (e' & Hfst & He').
    apply filter_In in He' as [He' Hexp'].
    rewrite (unique_key o e e' Hnd He He' (eq_sym Hfst)) in Hexp. congruence.
Qed.

Lemma isExpired_iff (now : Z) (m : TranscriptMetadata) :
  isExpired now m = true <-> expiresAt m <> 0 /\ expiresAt m < now.
Proof.
  unfold isExpired. rewrite andb_true_iff, negb_true_iff, Z.eqb_neq, Z.ltb_lt.
  reflexivity.
Qed.

Lemma expiredKeys_of_kept (now : Z) (o : list (string * TranscriptMetadata)) :
  expiredKeys now (List.filter (fun e => negb (isExpired now (snd e))) o) = [].
Proof.
  unfold expiredKeys, Assoc.keys. rewrite filter_filter.
  induction o as [|e o IH]; [reflexivity|]. cbn [List.filter].
  destruct (isExpired now (snd e)); cbn; exact IH.
Qed.

(** C5, as the code has it.  An entry is swept when its [expiresAt] is
    not 0 and lies before [now].  On an index with unique keys whose
    expired entries all have their session directory, the sweep counts
    the expired entries, leaves the index with the others, removes the
    directories of the expired ones and keeps those of the others; and a
    second sweep at the same time counts 0 and changes nothing. *)
Theorem sweep_removes_expired (now : Z) (d : Disk) :
  List.NoDup (Assoc.keys (transcripts (currentIndex d))) ->
  expiredHaveDirectory now d ->
  (forall m, isExpired now m = true <-> expiresAt m <> 0 /\ expiresAt m < now) /\
  exists d',
    cleanupExpiredTranscripts now d =
      (Ok (Z.of_nat (length (List.filter (fun e => isExpired now (snd e))
                               (transcripts (currentIndex d))))), d') /\
    transcripts (currentIndex d') =
      List.filter (fun e => negb (isExpired now (snd e)))
        (transcripts (currentIndex d)) /\
    (forall sid,
       session_dirs d' !! sid =
       if isKey (expiredKeys now (transcripts (currentIndex d))) sid
       then None else session_dirs d !! sid) /\
    cleanupExpiredTranscripts now d' = (Ok 0, d').
Proof.
  intros Hnd Hdirs. split; [intros m; apply isExpired_iff|].
  destruct (sweepEntries_run now (transcripts (currentIndex d)) 0 d Hnd Hdirs)
    as (d' & Hrun & Hd & Hi).
  assert (Hidx : transcripts (currentIndex d') =
                 List.filter (fun e => negb (isExpired now (snd e)))
                   (transcripts (currentIndex d))).
  { rewrite Hi. cbn [transcripts withTranscripts]. rewrite removeKeys_filter.
    apply filter_ext_in. intros e He. now rewrite (isKey_expired now _ e Hnd He). }
  exists d'. split; [|split; [exact Hidx | split]].
  - unfold cleanupExpiredTranscripts.
    rewrite (bind_ok _ _ _ _ _ (readIndex_run d)), Hrun.
    unfold expiredKeys, Assoc.keys. now rewrite length_map.
  - intros sid. rewrite Hd. apply deleteDirs_lookup.
  - unfold cleanupExpiredTranscripts.
    rewrite (bind_ok _ _ _ _ _ (readIndex_run d')), Hidx.
    apply sweepEntries_none_expired, expiredKeys_of_kept.
Qed.

Lemma sweep_removes_expired_witness :
  exists d',
    cleanupExpiredTranscripts 6000 Sample.savedDisk = (Ok 1, d') /\
    transcripts (currentIndex d') = [] /\
    session_dirs d' !! "ses_1" = None /\
    cleanupExpiredTranscripts 6000 d' = (Ok 0, d').
Proof.
  destruct (sweep_removes_expired 6000 Sample.savedDisk) as (_ & d' & H1 & H2 & H3 & H4).
  - vm_compute. constructor; [intros [] | constructor].
  - intros sid m Hin _. vm_compute in Hin. destruct Hin as [[= <- <-]|[]].
    vm_compute. eauto.
  - exists d'. split; [exact H1|]. split; [exact H2|]. split; [|exact H4].
    rewrite H3. reflexivity.
Defined.

(** C5, as stated, fails in two ways.  An entry whose [expiresAt] is 0 lies
    before [now] and is not swept.  And on an index with an expired entry
    whose directory is gone, a first sweep counts 1 and leaves the entry,
    so that a second sweep counts 1 again. *)
Lemma sweep_counterexample :
  cleanupExpiredTranscripts 100 Sample.zeroExpiryDisk = (Ok 0, Sample.zeroExpiryDisk) /\
  cleanupExpiredTranscripts 100 Sample.orphanEntryDisk = (Ok 1, Sample.orphanEntryDisk) /\
  (cleanupExpiredTranscripts 100;; cleanupExpiredTranscripts 100) Sample.orphanEntryDisk
    = (Ok 1, Sample.orphanEntryDisk).
Proof. repeat split; vm_compute; reflexivity. Qed.

(** ** Saving *)

Lemma modifySessionDir_again (sessionID : string) (f : SessionDir -> SessionDir)
    (m : gmap string SessionDir) (sd : SessionDir) (d : Disk) :
  modifySessionDir sessionID f (setSessionDirs (<[sessionID := sd]> m) d) =
  (Ok tt, setSessionDirs (<[sessionID := f sd]> m) d).
Proof.
  rewrite modifySessionDir_run. cbn [session_dirs setSessionDirs].
  rewrite lookup_insert_eq, insert_insert_eq. reflexivity.
Qed.

Lemma writeChunks_run (sessionID : string) (cs : list TranscriptChunk) :
  forall (m : gmap string SessionDir) (sd : SessionDir) (d : Disk),
    writeChunks sessionID cs (setSessionDirs (<[sessionID := sd]> m) d) =
    (Ok tt,
     setSessionDirs
       (<[sessionID :=
            match cs with
            | [] => sd
            | _ :: _ =>
                setChunksDir
                  (Some (writtenChunks cs (default [] (chunks_dir sd)))) sd
            end]> m) d).
Proof.
  induction cs as [|c cs IH]; intros m sd d; [reflexivity|].
  cbn [writeChunks]. rewrite bind_run, modifySessionDir_again, IH.
  do 3 f_equal. destruct cs; reflexivity.
Qed.

Lemma currentIndex_setSessionDirs (m : gmap string SessionDir) (d : Disk) :
  currentIndex (setSessionDirs m d) = currentIndex d.
Proof. reflexivity. Qed.

Lemma getSessionDir_run (sessionID : string) (d : Disk) :
  getSessionDir sessionID d =
  (Ok (join (TRANSCRIPT_DIR d) sessionID),
   setSessionDirs
     (<[sessionID := default emptySessionDir (session_dirs d !! sessionID)]>
        (session_dirs d)) d).
Proof. reflexivity. Qed.

Lemma updateIndexEntry_run (metadata : TranscriptMetadata) (d : Disk) :
  updateIndexEntry metadata d =
  (Ok tt,
   setIndexJson
     (Some (Json (withTranscripts (currentIndex d)
                    (Assoc.set (sessionID metadata) metadata
                       (transcripts (currentIndex d)))))) d).
Proof.
  unfold updateIndexEntry. now rewrite (bind_ok _ _ _ _ _ (readIndex_run d)).
Qed.

(** [saveTranscript] returns the path of the markdown file and leaves the
    disk [savedOver]. *)
Lemma saveTranscript_run (t : Transcript) (d : Disk) :
  saveTranscript t d =
  (Ok (join (join (TRANSCRIPT_DIR d) (sessionID (metadata t))) "transcript.md"),
   savedOver t d).
Proof.
  unfold saveTranscript.
  rewrite (bind_ok _ _ _ _ _ (getSessionDir_run _ d)).
  do 4 rewrite (bind_ok _ _ _ _ _ (modifySessionDir_again _ _ _ _ _)).
  rewrite (bind_ok _ _ _ _ _ (writeChunks_run _ _ _ _ _)).
  rewrite (bind_ok _ _ _ _ _ (updateIndexEntry_run _ _)).
  unfold savedOver, savedDir, setIndexJson, setSessionDirs.
  cbn [TRANSCRIPT_DIR session_dirs index_json mret IO_ret currentIndex].
  do 3 f_equal.
  destruct (chunks t); reflexivity.
Qed.

Lemma get_set_eq {V : Type} (k : string) (v : V) (o : list (string * V)) :
  Assoc.get k (Assoc.set k v o) = Some v.
Proof.
  induction o as [|[k' v'] o IH]; cbn [Assoc.set Assoc.get].
  - now rewrite String.eqb_refl.
  - destruct (String.eqb k' k) eqn:E; cbn [Assoc.get]; rewrite ?String.eqb_refl, ?E; auto.
Qed.

(** After a save, the three files and the index entry of the session are
    those of the transcript saved. *)
Lemma savedOver_stored (t : Transcript) (d : Disk) :
  metadataOf (savedOver t d) (sessionID (metadata t)) = Some (metadata t) /\
  markdownOf (savedOver t d) (sessionID (metadata t)) = Some (markdown t) /\
  textOf (savedOver t d) (sessionID (metadata t)) = Some (text t) /\
  Assoc.get (sessionID (metadata t)) (transcripts (currentIndex (savedOver t d)))
    = Some (metadata t).
Proof.
  unfold metadataOf, markdownOf, textOf, savedOver. cbn [session_dirs].
  rewrite lookup_insert_eq. cbn. repeat split; try reflexivity. apply get_set_eq.
Qed.

(** C1.  A second save overwrites the chunk files whose names it uses
    again and leaves the others: after a save with the chunks [chunk_0]
    and [chunk_1] and a second save with the chunk [chunk_0] alone, the
    transcript loaded holds [chunk_1] of the first save beside [chunk_0] of
    the second. *)
Theorem second_save_keeps_stale_chunk :
  fst ((saveTranscript (Sample.transcript Sample.twoChunks);;
        saveTranscript (Sample.transcript [Sample.chunk "chunk_0" 30 "noted"]);;
        loadTranscript "ses_1") Sample.emptyDisk) =
  Ok (Some {| metadata := Sample.meta "ses_1" 1 5000 false;
              markdown := "# Upload path";
              text := "=== Upload path ===";
              chunks := [Sample.chunk "chunk_1" 20 "thanks";
                         Sample.chunk "chunk_0" 30 "noted"] |}).
Proof. vm_compute. reflexivity. Qed.

(** ** The compacted flag *)

Import Plugin.

Lemma saveSessionTranscript_run (input : PluginInput) (now : Z)
    (sid title : string) (flag : bool) (d : Disk) :
  session_get (client input) sid = Some title ->
  session_messages (client input) sid <> [] ->
  exists d' path,
    saveSessionTranscript input now sid flag d = (Ok (Some path), d') /\
    compacted <$> metadataOf d' sid = Some flag /\
    compacted <$> Assoc.get sid (transcripts (currentIndex d')) = Some flag.
Proof.
  intros Hget Hmsgs. unfold saveSessionTranscript. rewrite Hget.
  destruct (session_messages (client input) sid) as [|msg msgs] eqn:Hm; [congruence|].
  set (t := buildTranscript _ _ _ _ _ _ _ _ _).
  exists (savedOver t d), (join (join (TRANSCRIPT_DIR d) sid) "transcript.md").
  destruct (savedOver_stored t d) as (H1 & _ & _ & H4).
  change (sessionID (metadata t)) with sid in H1, H4.
  rewrite H1, H4. split; [|split; reflexivity].
  unfold tryCatch. rewrite (bind_ok _ _ _ _ _ (saveTranscript_run t d)). reflexivity.
Qed.

(** C2.  The flag does not outlive the next save.  On an empty
    transcript directory, a [session.compacted] event of a session with a
    message stores [compacted = true] and the time of the compaction, in
    [metadata.json] and in the index, and [list_transcripts] marks the
    session as compacted; the [session.idle] event that follows stores
    [compacted = false] and no [compactedAt], and the mark is gone. *)
Theorem idle_save_resets_compacted_flag :
  exists d1 d2 listed1 listed2,
    event Sample.host 1000 (SessionCompacted "ses_1") Sample.emptyDisk = (Ok tt, d1) /\
    compacted <$> metadataOf d1 "ses_1" = Some true /\
    compactedAt <$> metadataOf d1 "ses_1" = Some (Some 1000) /\
    compacted <$> Assoc.get "ses_1" (transcripts (currentIndex d1)) = Some true /\
    Tools.listTranscriptsTool Sample.localDate Sample.listAll Sample.toolContext d1
      = (Ok listed1, d1) /\
    includes listed1 "[COMPACTED]" = true /\
    event Sample.host 2000 (SessionIdle "ses_1") d1 = (Ok tt, d2) /\
    compacted <$> metadataOf d2 "ses_1" = Some false /\
    compactedAt <$> metadataOf d2 "ses_1" = Some None /\
    compacted <$> Assoc.get "ses_1" (transcripts (currentIndex d2)) = Some false /\
    Tools.listTranscriptsTool Sample.localDate Sample.listAll Sample.toolContext d2
      = (Ok listed2, d2) /\
    includes listed2 "[COMPACTED]" = false.
Proof.
  eexists _, _, _, _. split; [vm_compute; reflexivity|].
  do 3 (split; [vm_compute; reflexivity|]).
  split; [vm_compute; reflexivity|].
  split; [vm_compute; reflexivity|].
  split; [vm_compute; reflexivity|].
  do 3 (split; [vm_compute; reflexivity|]).
  split; [vm_compute; reflexivity|].
  vm_compute; reflexivity.
Qed.

(** ** Saving, then loading *)

Lemma get_set {V : Type} (k k' : string) (v : V) (o : list (string * V)) :
  Assoc.get k (Assoc.set k' v o) =
  if String.eqb k' k then Some v else Assoc.get k o.
Proof.
  induction o as [|[k1 v1] o IH]; cbn [Assoc.set Assoc.get]; [reflexivity|].
  destruct (String.eqb_spec k1 k') as [->|Hne]; cbn [Assoc.get].
  - now destruct (String.eqb k' k).
  - rewrite IH. destruct (String.eqb_spec k' k) as [->|Hne'].
    + destruct (String.eqb_spec k1 k); [congruence | reflexivity].
    + reflexivity.
Qed.

Lemma keys_set {V : Type} (k : string) (v : V) (o : list (string * V)) (x : string) :
  In x (Assoc.keys (Assoc.set k v o)) <-> x = k \/ In x (Assoc.keys o).
Proof.
  unfold Assoc.keys. induction o as [|[k1 v1] o IH]; cbn [Assoc.set map fst In].
  - intuition.
  - destruct (String.eqb_spec k1 k) as [->|Hne]; cbn [map fst In].
    + intuition.
    + rewrite IH. intuition.
Qed.

Lemma NoDup_keys_set {V : Type} (k : string) (v : V) (o : list (string * V)) :
  List.NoDup (Assoc.keys o) -> List.NoDup (Assoc.keys (Assoc.set k v o)).
Proof.
  induction o as [|[k1 v1] o IH]; intros Hnd; cbn [Assoc.set].
  - repeat constructor. intros [].
  - unfold Assoc.keys in Hnd. cbn [map fst] in Hnd.
    apply List.NoDup_cons_iff in Hnd as [Hk1 Hnd].
    destruct (String.eqb_spec k1 k) as [->|Hne].
    + unfold Assoc.keys. cbn [map fst]. now constructor.
    + unfold Assoc.keys. cbn [map fst]. constructor; [|now apply IH].
      fold (Assoc.keys (Assoc.set k v o)). rewrite keys_set. intros [->|H]; auto.
Qed.

Lemma get_In {V : Type} (k : string) (v : V) (o : list (string * V)) :
  List.NoDup (Assoc.keys o) -> (In (k, v) o <-> Assoc.get k o = Some v).
Proof.
  unfold Assoc.keys. induction o as [|[k1 v1] o IH]; intros Hnd; cbn [Assoc.get In].
  - split; [intros [] | discriminate].
  - cbn [map fst] in Hnd. apply List.NoDup_cons_iff in Hnd as [Hk1 Hnd].
    destruct (String.eqb_spec k1 k) as [->|Hne].
    + split.
      * intros [[= ->]|H]; [reflexivity|]. exfalso. apply Hk1.
        apply (in_map fst) in H. exact H.
      * intros [= ->]. now left.
    + rewrite <- (IH Hnd). split; [intros [[= ? ?]|H]; [congruence | exact H] | auto].
Qed.

Lemma writtenChunks_cons (c : TranscriptChunk) (cs : list TranscriptChunk)
    (files : list (string * JsonFile TranscriptChunk)) :
  writtenChunks (c :: cs) files =
  writtenChunks cs (Assoc.set (chunkFile c) (Json c) files).
Proof. reflexivity. Qed.

Lemma keys_writtenChunks (cs : list TranscriptChunk) :
  forall files x,
    In x (Assoc.keys (writtenChunks cs files)) <->
    In x (Assoc.keys files) \/ In x (map chunkFile cs).
Proof.
  induction cs as [|c cs IH]; intros files x.
  - cbn. intuition.
  - rewrite writtenChunks_cons, IH, keys_set. cbn [map In]. intuition.
Qed.

Lemma NoDup_keys_writtenChunks (cs : list TranscriptChunk) :
  forall files,
    List.NoDup (Assoc.keys files) -> List.NoDup (Assoc.keys (writtenChunks cs files)).
Proof.
  induction cs as [|c cs IH]; intros files H; [exact H|].
  rewrite writtenChunks_cons. now apply IH, NoDup_keys_set.
Qed.

Lemma get_writtenChunks_other (cs : list TranscriptChunk) :
  forall files k,
    ~ In k (map chunkFile cs) ->
    Assoc.get k (writtenChunks cs files) = Assoc.get k files.
Proof.
  induction cs as [|c cs IH]; intros files k Hk; [reflexivity|].
  rewrite writtenChunks_cons, IH by (intros H; apply Hk; now right).
  rewrite get_set. destruct (String.eqb_spec (chunkFile c) k) as [<-|]; [|reflexivity].
  exfalso. apply Hk. now left.
Qed.

Lemma get_writtenChunks (cs : list TranscriptChunk) :
  forall files c,
    List.NoDup (map chunkFile cs) -> In c cs ->
    Assoc.get (chunkFile c) (writtenChunks cs files) = Some (Json c).
Proof.
  induction cs as [|c0 cs IH]; intros files c Hnd Hc; [contradiction|].
  cbn [map] in Hnd. apply List.NoDup_cons_iff in Hnd as [Hc0 Hnd].
  rewrite writtenChunks_cons. destruct Hc as [->|Hc].
  - rewrite get_writtenChunks_other by exact Hc0.
    now rewrite get_set, String.eqb_refl.
  - now apply IH.
Qed.

Lemma append_inj_l (a b s : string) : a +:+ s = b +:+ s -> a = b.
Proof.
  revert b; induction a as [|x a IH]; intros b H.
  - destruct b as [|y b]; [reflexivity|]. exfalso. simpl_append.
    apply (f_equal String.length) in H. simpl in H. rewrite length_append in H. lia.
  - destruct b as [|y b]; simpl_append.
    + exfalso. apply (f_equal String.length) in H. simpl in H.
      rewrite length_append in H. lia.
    + injection H as -> H. f_equal. now apply IH.
Qed.

Lemma chunkFile_inj (a b : TranscriptChunk) :
  chunkFile a = chunkFile b -> chunk_id a = chunk_id b.
Proof. apply append_inj_l. Qed.

Lemma substring_append_r (a b : string) :
  substring (String.length a) (String.length b) (a +:+ b) = b.
Proof.
  induction a as [|x a IH]; simpl_append; simpl.
  - now apply substring_0_all.
  - exact IH.
Qed.

Lemma endsWith_append (a b : string) : endsWith (a +:+ b) b = true.
Proof.
  unfold endsWith. rewrite length_append.
  replace (String.length a + String.length b - String.length b)%nat
    with (String.length a) by lia.
  rewrite substring_append_r, String.eqb_refl, andb_true_r.
  apply Nat.leb_le. lia.
Qed.

Lemma readChunkFiles_entries (cs : list TranscriptChunk) :
  forall chunks,
    readChunkFiles (map chunkEntry cs) chunks = (chunks ++ cs, None).
Proof.
  induction cs as [|c cs IH]; intros chunks; cbn [map readChunkFiles chunkEntry].
  - now rewrite app_nil_r.
  - unfold chunkFile at 1. rewrite endsWith_append.
    fold (chunkEntry c). rewrite IH, <- app_assoc. reflexivity.
Qed.

Lemma insertSorted_sorted (x : TranscriptChunk) (l : list TranscriptChunk) :
  Sorted timestampLe l -> Sorted timestampLe (insertSorted byTimestamp x l).
Proof.
  induction 1 as [|y l Hs IH Hhd]; cbn [insertSorted].
  - repeat constructor.
  - unfold byTimestamp at 1. destruct (Z.leb_spec (timestamp x) (timestamp y)) as [Hle|Hgt].
    + constructor; [now constructor | now constructor].
    + constructor; [exact IH|].
      destruct l as [|z l]; cbn [insertSorted].
      * constructor. unfold timestampLe. lia.
      * unfold byTimestamp. destruct (timestamp x <=? timestamp z)%Z;
          constructor; [unfold timestampLe; lia | now inversion Hhd].
Qed.

Lemma stableSort_sorted (l : list TranscriptChunk) :
  Sorted timestampLe (stableSort byTimestamp l).
Proof.
  induction l as [|x l IH]; cbn [stableSort]; [constructor|].
  now apply insertSorted_sorted.
Qed.

(** A list whose elements are all images under [f] is the image of a list. *)
Lemma map_preimage {A B : Type} (f : A -> B) (P : A -> Prop) (l : list B) :
  (forall y, In y l -> exists x, P x /\ y = f x) ->
  exists xs, l = map f xs /\ Forall P xs.
Proof.
  induction l as [|y l IH]; intros H.
  - exists []. split; [reflexivity | constructor].
  - destruct (H y (or_introl eq_refl)) as (x & Hx & ->).
    destruct IH as (xs & -> & Hxs); [intros z Hz; apply H; now right|].
    exists (x :: xs). split; [reflexivity | now constructor].
Qed.

(** When the names of the chunks saved are distinct and every chunk file
    found in the session directory is named again, the directory holds,
    after the save, the entries of the chunks saved and no other. *)
Lemma writtenChunks_covering (cs : list TranscriptChunk)
    (files : list (string * JsonFile TranscriptChunk)) :
  List.NoDup (map chunk_id cs) ->
  List.NoDup (Assoc.keys files) ->
  (forall name, In name (Assoc.keys files) -> In name (map chunkFile cs)) ->
  exists cs',
    writtenChunks cs files = map chunkEntry cs' /\ Permutation cs' cs.
Proof.
  intros Hids Hfiles Hcover.
  assert (HndF : List.NoDup (map chunkFile cs)).
  { clear -Hids. induction cs as [|c cs IH]; cbn [map] in *; [constructor|].
    apply List.NoDup_cons_iff in Hids as [Hc Hids]. constructor; [|now apply IH].
    intros H. apply Hc. apply in_map_iff in H as (c' & He & Hc').
    apply chunkFile_inj in He. rewrite <- He. now apply in_map. }
  assert (Hnd : List.NoDup cs).
  { apply (List.NoDup_map_inv chunk_id). exact Hids. }
  set (E := writtenChunks cs files).
  assert (HE : List.NoDup (Assoc.keys E)) by now apply NoDup_keys_writtenChunks.
  assert (Hin : forall c, In c cs -> In (chunkEntry c) E).
  { intros c Hc. apply get_In; [exact HE|]. now apply get_writtenChunks. }
  destruct (map_preimage chunkEntry (fun c => In c cs) E) as (cs' & HE' & Hcs').
  { intros [k v] Hkv.
    assert (Hk : In k (map chunkFile cs)).
    { assert (Hk' : In k (Assoc.keys E)) by (apply (in_map fst) in Hkv; exact Hkv).
      apply keys_writtenChunks in Hk' as [Hk'|Hk']; [now apply Hcover | exact Hk']. }
    apply in_map_iff in Hk as (c & <- & Hc). exists c. split; [exact Hc|].
    apply (get_In _ _ _ HE) in Hkv. specialize (Hin c Hc).
    apply (get_In _ _ _ HE) in Hin. unfold chunkEntry. congruence. }
  exists cs'. split; [exact HE'|].
  apply Permutation.NoDup_Permutation; [| exact Hnd |].
  - apply (List.NoDup_map_inv chunkFile).
    replace (map chunkFile cs') with (Assoc.keys E); [exact HE|].
    rewrite HE'. unfold Assoc.keys. rewrite map_map. reflexivity.
  - intros c. split.
    + intros Hc. rewrite List.Forall_forall in Hcs'. now apply Hcs'.
    + intros Hc. specialize (Hin c Hc). rewrite HE' in Hin.
      apply in_map_iff in Hin as (c' & He & Hc'). injection He as _ ->. exact Hc'.
Qed.

(** X2.  After a save whose chunk names are distinct and which names
    again every chunk file found in the session directory (so after the
    first save of a session), the transcript loaded has the metadata and
    the rendered texts saved, and its chunks are the chunks saved, in the
    order of their timestamps. *)
Theorem save_then_load (t : Transcript) (d : Disk) :
  List.NoDup (map chunk_id (chunks t)) ->
  List.NoDup (Assoc.keys (chunkFilesOf d (sessionID (metadata t)))) ->
  (forall name,
     In name (Assoc.keys (chunkFilesOf d (sessionID (metadata t)))) ->
     In name (map chunkFile (chunks t))) ->
  exists path d' cs,
    saveTranscript t d = (Ok path, d') /\
    loadTranscript (sessionID (metadata t)) d' =
      (Ok (Some {| metadata := metadata t; markdown := markdown t;
                   text := text t; chunks := cs |}), d') /\
    Permutation cs (chunks t) /\
    Sorted timestampLe cs.
Proof.
  intros Hids Hfiles Hcover.
  destruct (writtenChunks_covering (chunks t) _ Hids Hfiles Hcover) as (cs' & HE & Hperm).
  exists (join (join (TRANSCRIPT_DIR d) (sessionID (metadata t))) "transcript.md"),
         (savedOver t d), (stableSort byTimestamp cs').
  split; [apply saveTranscript_run|]. split; [|split].
  - rewrite loadTranscript_run. do 2 f_equal.
    unfold stored, metadataOf, markdownOf, textOf, savedOver. cbn [session_dirs].
    rewrite lookup_insert_eq. cbn. do 2 f_equal.
    unfold loadChunks, savedDir. cbn [chunks_dir].
    unfold chunkFilesOf in HE. rewrite HE, readChunkFiles_entries. reflexivity.
  - now rewrite stableSort_perm.
  - apply stableSort_sorted.
Qed.

Lemma save_then_load_witness :
  exists path d' cs,
    saveTranscript (Sample.transcript Sample.twoChunks) Sample.emptyDisk = (Ok path, d') /\
    loadTranscript "ses_1" d' =
      (Ok (Some {| metadata := Sample.meta "ses_1" 2 5000 false;
                   markdown := "# Upload path"; text := "=== Upload path ===";
                   chunks := cs |}), d') /\
    Permutation cs Sample.twoChunks /\
    Sorted timestampLe cs.
Proof.
  apply (save_then_load (Sample.transcript Sample.twoChunks) Sample.emptyDisk).
  - cbn. repeat constructor; cbn; intuition discriminate.
  - cbn. constructor.
  - cbn. intros name [].
Defined.

(** A chunk file that the save does not name again is left as it was. *)
Lemma stale_chunk_file_kept (t : Transcript) (d : Disk) (name : string) :
  ~ In name (map chunkFile (chunks t)) ->
  Assoc.get name (chunkFilesOf (savedOver t d) (sessionID (metadata t))) =
  Assoc.get name (chunkFilesOf d (sessionID (metadata t))).
Proof.
  intros Hname. unfold chunkFilesOf at 1, savedOver. cbn [session_dirs].
  rewrite lookup_insert_eq. cbn [default from_option id savedDir chunks_dir].
  now apply get_writtenChunks_other.
Qed.

(** ** The index: entries, keys, and what an operation leaves alone *)

Lemma get_remove {V : Type} (k k' : string) (o : list (string * V)) :
  Assoc.get k (Assoc.remove k' o) =
  if String.eqb k' k then None else Assoc.get k o.
Proof.
  induction o as [|[k1 v1] o IH]; cbn [Assoc.remove Assoc.get].
  - now destruct (String.eqb k' k).
  - destruct (String.eqb_spec k1 k') as [->|Hne]; cbn [Assoc.get].
    + rewrite IH. now destruct (String.eqb k' k).
    + rewrite IH. destruct (String.eqb_spec k' k) as [->|Hne'].
      * destruct (String.eqb_spec k1 k); [congruence | reflexivity].
      * reflexivity.
Qed.

Lemma keys_remove {V : Type} (k : string) (o : list (string * V)) (x : string) :
  In x (Assoc.keys (Assoc.remove k o)) <-> x <> k /\ In x (Assoc.keys o).
Proof.
  rewrite remove_filter. unfold Assoc.keys. rewrite in_map_iff. split.
  - intros ([k1 v1] & <- & H). apply filter_In in H as [H Hk]. cbn in *.
    apply negb_true_iff in Hk. apply String.eqb_neq in Hk.
    split; [exact Hk | now apply (in_map fst) in H].
  - intros [Hne H]. apply in_map_iff in H as ([k1 v1] & <- & H).
    exists (k1, v1). split; [reflexivity|]. apply filter_In. split; [exact H|].
    cbn in *. apply negb_true_iff. now apply String.eqb_neq.
Qed.

Lemma NoDup_keys_remove {V : Type} (k : string) (o : list (string * V)) :
  List.NoDup (Assoc.keys o) -> List.NoDup (Assoc.keys (Assoc.remove k o)).
Proof.
  unfold Assoc.keys. induction o as [|[k1 v1] o IH]; intros Hnd; cbn [Assoc.remove].
  - constructor.
  - cbn [map fst] in Hnd. apply List.NoDup_cons_iff in Hnd as [Hk1 Hnd].
    destruct (String.eqb k1 k); [now apply IH|].
    cbn [map fst]. constructor; [|now apply IH].
    fold (Assoc.keys (Assoc.remove k o)). rewrite keys_remove. tauto.
Qed.

(** X3.  [updateIndexEntry] records the metadata under its session
    identifier and returns; the entries of the other sessions, the schema
    version and the session directories stay as they are, and the keys of
    the index stay unique. *)
Theorem index_upsert (m : TranscriptMetadata) (d : Disk) :
  exists d',
    updateIndexEntry m d = (Ok tt, d') /\
    indexEntry d' (sessionID m) = Some m /\
    (forall sid, sid <> sessionID m -> indexEntry d' sid = indexEntry d sid) /\
    (forall sid, In sid (Assoc.keys (transcripts (currentIndex d'))) <->
                 sid = sessionID m \/ In sid (Assoc.keys (transcripts (currentIndex d)))) /\
    (List.NoDup (Assoc.keys (transcripts (currentIndex d))) ->
     List.NoDup (Assoc.keys (transcripts (currentIndex d')))) /\
    version (currentIndex d') = version (currentIndex d) /\
    session_dirs d' = session_dirs d.
Proof.
  eexists. split; [apply updateIndexEntry_run|].
  unfold indexEntry. cbn [currentIndex setIndexJson index_json transcripts
                            withTranscripts version session_dirs].
  split; [apply get_set_eq|]. split; [|split; [|split; [|split]]].
  - intros sid Hne. rewrite get_set.
    destruct (String.eqb_spec (sessionID m) sid); [congruence | reflexivity].
  - intros sid. apply keys_set.
  - apply NoDup_keys_set.
  - reflexivity.
  - reflexivity.
Qed.

(** X4.  [removeIndexEntry] returns and leaves the index without an entry
    for the session; the entries of the other sessions stay as they are
    and the keys stay unique; when the session has no entry, the entries
    of the index are unchanged. *)
Theorem index_remove (sid : string) (d : Disk) :
  exists d',
    removeIndexEntry sid d = (Ok tt, d') /\
    indexEntry d' sid = None /\
    ~ In sid (Assoc.keys (transcripts (currentIndex d'))) /\
    (forall other, other <> sid -> indexEntry d' other = indexEntry d other) /\
    (List.NoDup (Assoc.keys (transcripts (currentIndex d))) ->
     List.NoDup (Assoc.keys (transcripts (currentIndex d')))) /\
    (~ In sid (Assoc.keys (transcripts (currentIndex d))) ->
     transcripts (currentIndex d') = transcripts (currentIndex d)) /\
    session_dirs d' = session_dirs d.
Proof.
  eexists. split; [apply removeIndexEntry_run|].
  unfold indexEntry. cbn [currentIndex setIndexJson index_json transcripts
                            withTranscripts version session_dirs].
  split; [|split; [|split; [|split; [|split]]]].
  - now rewrite get_remove, String.eqb_refl.
  - rewrite keys_remove. tauto.
  - intros other Hne. rewrite get_remove.
    destruct (String.eqb_spec sid other); [congruence | reflexivity].
  - apply NoDup_keys_remove.
  - intros Hnot. rewrite remove_filter.
    induction (transcripts (currentIndex d)) as [|[k v] o IH]; [reflexivity|].
    cbn [List.filter fst]. unfold Assoc.keys in Hnot. cbn [map fst In] in Hnot.
    destruct (String.eqb_spec k sid) as [->|Hne]; [tauto|]. cbn [negb].
    f_equal. apply IH. tauto.
  - reflexivity.
Qed.

(** X5.  When [index.json] is missing or does not parse, [readIndex] does
    not throw: it is the empty index of version 1.  An entry recorded then
    is written to a new index, which holds that entry alone. *)
Theorem index_fallback (d : Disk) (m : TranscriptMetadata) :
  index_json d = None \/ index_json d = Some Malformed ->
  readIndex d = (Ok {| version := 1; transcripts := [] |}, d) /\
  listTranscripts {| opt_projectID := None; opt_sessionID := None; opt_limit := None |} d
    = (Ok [], d) /\
  exists d',
    updateIndexEntry m d = (Ok tt, d') /\
    index_json d' =
      Some (Json {| version := 1; transcripts := [(sessionID m, m)] |}).
Proof.
  intros H. rewrite readIndex_run, listTranscripts_run, updateIndexEntry_run.
  unfold currentIndex. destruct H as [-> | ->]; cbn; eauto.
Qed.

Lemma index_fallback_witness :
  readIndex Sample.emptyDisk = (Ok {| version := 1; transcripts := [] |}, Sample.emptyDisk).
Proof.
  apply (index_fallback Sample.emptyDisk (Sample.meta "ses_1" 1 5000 false)).
  left. reflexivity.
Defined.

(** ** Deleting and saving leave the other sessions alone *)

Lemma stored_ext (d d' : Disk) (sid : string) :
  session_dirs d' !! sid = session_dirs d !! sid -> stored d' sid = stored d sid.
Proof.
  intros H. unfold stored, metadataOf, markdownOf, textOf. now rewrite H.
Qed.

Lemma stored_missing (d : Disk) (sid : string) :
  session_dirs d !! sid = None ->
  stored d sid = None /\ markdownOf d sid = None /\ textOf d sid = None.
Proof.
  intros H. unfold stored, metadataOf, markdownOf, textOf. now rewrite H.
Qed.

(** X6.  [deleteTranscript] never throws.  When the session directory is
    there, the directory and the index entry are gone afterwards and the
    three read paths answer absent; when it is missing, nothing changes.
    The directories and index entries of the other sessions stay as they
    are in both cases. *)
Theorem delete_removes_record (sid : string) (d : Disk) :
  exists d',
    deleteTranscript sid d = (Ok tt, d') /\
    (is_Some (session_dirs d !! sid) ->
     session_dirs d' !! sid = None /\ indexEntry d' sid = None /\
     loadTranscript sid d' = (Ok None, d') /\
     loadTranscriptMarkdown sid d' = (Ok None, d') /\
     loadTranscriptText sid d' = (Ok None, d')) /\
    (session_dirs d !! sid = None -> d' = d) /\
    (forall other, other <> sid ->
       session_dirs d' !! other = session_dirs d !! other /\
       stored d' other = stored d other /\
       indexEntry d' other = indexEntry d other).
Proof.
  destruct (session_dirs d !! sid) as [sd|] eqn:Hsd.
  - assert (Hrun := deleteTranscript_present sid d ltac:(rewrite Hsd; eauto)).
    match type of Hrun with _ = (_, ?x) => set (d' := x) in * end.
    assert (Hdirs : session_dirs d' = delete sid (session_dirs d)) by reflexivity.
    assert (Hidx : forall k, indexEntry d' k =
                             if String.eqb sid k then None else indexEntry d k).
    { intros k. unfold indexEntry. subst d'. cbn. apply get_remove. }
    assert (Hgone : session_dirs d' !! sid = None).
    { rewrite Hdirs. apply lookup_delete_eq. }
    exists d'. split; [exact Hrun|]. split; [|split; [discriminate|]].
    + intros _. split; [exact Hgone|]. split.
      * now rewrite Hidx, String.eqb_refl.
      * rewrite loadTranscript_run, loadTranscriptMarkdown_run, loadTranscriptText_run.
        destruct (stored_missing d' sid Hgone) as (-> & -> & ->). auto.
    + intros other Hne.
      assert (Hl : session_dirs d' !! other = session_dirs d !! other).
      { rewrite Hdirs. now apply lookup_delete_ne. }
      split; [exact Hl|]. split; [now apply stored_ext|].
      rewrite Hidx. destruct (String.eqb_spec sid other); [congruence | reflexivity].
  - exists d. split; [now apply deleteTranscript_missing|].
    split; [intros [? ?]; discriminate|]. split; [reflexivity|]. auto.
Qed.

Lemma getTranscriptPath_run (sid : string) (d : Disk) :
  getTranscriptPath sid d =
  (Ok (join (join (TRANSCRIPT_DIR d) sid) "transcript.md"), d).
Proof. reflexivity. Qed.

(** X7.  [saveTranscript] returns the path that [getTranscriptPath] gives
    for the session, records the metadata in the index under the session
    identifier, and leaves the stored transcripts and index entries of
    the other sessions as they are; the keys of the index stay unique. *)
Theorem save_leaves_other_sessions (t : Transcript) (d : Disk) :
  exists path d',
    saveTranscript t d = (Ok path, d') /\
    getTranscriptPath (sessionID (metadata t)) d' = (Ok path, d') /\
    indexEntry d' (sessionID (metadata t)) = Some (metadata t) /\
    (forall other, other <> sessionID (metadata t) ->
       session_dirs d' !! other = session_dirs d !! other /\
       stored d' other = stored d other /\
       indexEntry d' other = indexEntry d other) /\
    (List.NoDup (Assoc.keys (transcripts (currentIndex d))) ->
     List.NoDup (Assoc.keys (transcripts (currentIndex d')))).
Proof.
  eexists _, _. split; [apply saveTranscript_run|].
  split; [reflexivity|]. split; [apply savedOver_stored|]. split.
  - intros other Hne.
    assert (Hl : session_dirs (savedOver t d) !! other = session_dirs d !! other).
    { unfold savedOver. cbn [session_dirs]. now apply lookup_insert_ne. }
    split; [exact Hl|]. split; [now apply stored_ext|].
    unfold indexEntry, savedOver. cbn. rewrite get_set.
    destruct (String.eqb_spec (sessionID (metadata t)) other); [congruence | reflexivity].
  - unfold savedOver. cbn. apply NoDup_keys_set.
Qed.

(** ** The listing is ordered and bounded *)

Section SortedBy.
Context {A : Type} (le : A -> A -> bool).
Hypothesis le_total : forall a b, le a b = true \/ le b a = true.

Lemma insertSorted_Sorted (x : A) (l : list A) :
  Sorted (fun a b => le a b = true) l ->
  Sorted (fun a b => le a b = true) (insertSorted le x l).
Proof using le_total.
  induction 1 as [|y l Hs IH Hhd]; cbn [insertSorted].
  - repeat constructor.
  - destruct (le x y) eqn:Hxy.
    + constructor; [now constructor | now constructor].
    + constructor; [exact IH|].
      assert (Hyx : le y x = true) by (destruct (le_total x y); congruence).
      destruct l as [|z l]; cbn [insertSorted].
      * now constructor.
      * destruct (le x z); constructor; [exact Hyx | now inversion Hhd].
Qed.

Lemma stableSort_Sorted (l : list A) :
  Sorted (fun a b => le a b = true) (stableSort le l).
Proof using le_total.
  induction l as [|x l IH]; cbn [stableSort]; [constructor|].
  now apply insertSorted_Sorted.
Qed.
End SortedBy.

Lemma Sorted_firstn {A : Type} (R : A -> A -> Prop) (n : nat) (l : list A) :
  Sorted R l -> Sorted R (firstn n l).
Proof.
  revert l; induction n as [|n IH]; intros l Hs; [constructor|].
  destruct l as [|x l]; [constructor|]. cbn [firstn].
  apply Sorted_inv in Hs as [Hs Hhd]. constructor; [now apply IH|].
  destruct n; [constructor|]. destruct l as [|y l]; [constructor|].
  cbn [firstn]. constructor. now inversion Hhd.
Qed.

Lemma sliceTo_length {A : Type} (l : list A) (n : Z) :
  0 <= n -> Z.of_nat (length (sliceTo l n)) <= n.
Proof.
  intros Hn. rewrite sliceTo_firstn by exact Hn. rewrite length_firstn. lia.
Qed.

Lemma In_sliceTo {A : Type} (l : list A) (n : Z) (x : A) :
  In x (sliceTo l n) -> In x l.
Proof.
  unfold sliceTo. generalize (Z.to_nat (clampIndex (Z.of_nat (length l)) n)).
  intros k H. rewrite <- (firstn_skipn k l). apply in_or_app. now left.
Qed.

(** X8.  [listTranscripts] returns and leaves the disk as it is.  Its
    result is ordered by [updatedAt], latest first; every transcript in it
    is an entry of the index that passes the project and session filters;
    and under a positive limit it has at most that many transcripts. *)
Theorem listing_sorted_filtered (options : ListOptions) (d : Disk) :
  exists l,
    listTranscripts options d = (Ok l, d) /\
    Sorted updatedAtDesc l /\
    (forall t, In t l ->
       In t (Assoc.values (transcripts (currentIndex d))) /\
       selected (opt_projectID options) (opt_sessionID options) t = true) /\
    (forall n, opt_limit options = Some n -> 0 < n -> Z.of_nat (length l) <= n).
Proof.
  eexists. split; [apply listTranscripts_run|].
  set (sorted := stableSort byUpdatedAtDesc _).
  assert (Hs : Sorted updatedAtDesc sorted).
  { assert (H : Sorted (fun a b => byUpdatedAtDesc a b = true) sorted).
    { apply stableSort_Sorted. intros a b. unfold byUpdatedAtDesc.
      rewrite !Z.leb_le. lia. }
    eapply Sorted_ind with (P := Sorted updatedAtDesc) in H; [exact H | constructor |].
    intros a l _ IH Hhd. constructor; [exact IH|].
    destruct Hhd; constructor. unfold updatedAtDesc. unfold byUpdatedAtDesc in *.
    now apply Z.leb_le. }
  assert (Hin : forall t, In t sorted ->
       In t (Assoc.values (transcripts (currentIndex d))) /\
       selected (opt_projectID options) (opt_sessionID options) t = true).
  { intros t Ht. apply (Permutation_in _ (stableSort_perm _ _)) in Ht.
    now apply filter_In in Ht. }
  cbn zeta. destruct (truthyNumber (opt_limit options)) as [limit|] eqn:Hl.
  - split; [|split].
    + unfold sliceTo. now apply Sorted_firstn.
    + intros t Ht. apply Hin. now apply In_sliceTo in Ht.
    + intros n Hn Hpos. rewrite Hn in Hl. cbn in Hl.
      destruct (Z.eqb_spec n 0); [lia|]. injection Hl as <-.
      apply sliceTo_length. lia.
  - split; [exact Hs|]. split; [exact Hin|].
    intros n Hn Hpos. rewrite Hn in Hl. cbn in Hl.
    destruct (Z.eqb_spec n 0); [lia | discriminate].
Qed.

(** ** What the sweep leaves alone *)

Lemma deleteTranscript_frame (sid : string) (d : Disk) :
  exists d',
    deleteTranscript sid d = (Ok tt, d') /\
    forall other, other <> sid ->
      session_dirs d' !! other = session_dirs d !! other /\
      indexEntry d' other = indexEntry d other.
Proof.
  destruct (session_dirs d !! sid) as [sd|] eqn:Hsd.
  - eexists. split; [apply deleteTranscript_present; rewrite Hsd; eauto|].
    intros other Hne. split.
    + cbn. now apply lookup_delete_ne.
    + unfold indexEntry. cbn. rewrite get_remove.
      destruct (String.eqb_spec sid other); [congruence | reflexivity].
  - exists d. split; [now apply deleteTranscript_missing | auto].
Qed.

Lemma sweepEntries_frame (now : Z) (entries : list (string * TranscriptMetadata)) :
  forall (count : Z) (d : Disk),
    exists d',
      sweepEntries now entries count d =
        (Ok (count + Z.of_nat (length (expiredKeys now entries))), d') /\
      forall sid, isKey (expiredKeys now entries) sid = false ->
        session_dirs d' !! sid = session_dirs d !! sid /\
        indexEntry d' sid = indexEntry d sid.
Proof.
  unfold expiredKeys, Assoc.keys, isKey.
  induction entries as [|[k m] rest IH]; intros count d.
  - exists d. cbn. rewrite Z.add_0_r. auto.
  - cbn [sweepEntries List.filter snd].
    destruct (isExpired now m) eqn:Hexp.
    + destruct (deleteTranscript_frame k d) as (d1 & Hdel & Hframe).
      rewrite (bind_ok _ _ _ _ _ Hdel).
      destruct (IH (count + 1) d1) as (d' & Hrun & Hrest).
      exists d'. rewrite Hrun. cbn [map fst length existsb].
      split; [do 2 f_equal; lia|].
      intros sid Hsid. apply orb_false_iff in Hsid as [Hk Hsid].
      apply String.eqb_neq in Hk. destruct (Hrest sid Hsid) as [-> ->].
      now apply Hframe.
    + apply IH.
Qed.

(** X9.  The sweep never throws and counts the entries of the index whose
    [expiresAt] is not 0 and lies before [now], whether or not their
    deletion succeeds.  A session that is not the key of such an entry
    keeps its directory, its stored transcript and its index entry. *)
Theorem sweep_counts_and_frames (now : Z) (d : Disk) :
  exists d',
    cleanupExpiredTranscripts now d = (Ok (expiredCount now d), d') /\
    0 <= expiredCount now d /\
    forall sid,
      isKey (expiredKeys now (transcripts (currentIndex d))) sid = false ->
      session_dirs d' !! sid = session_dirs d !! sid /\
      stored d' sid = stored d sid /\
      indexEntry d' sid = indexEntry d sid.
Proof.
  destruct (sweepEntries_frame now (transcripts (currentIndex d)) 0 d)
    as (d' & Hrun & Hframe).
  exists d'. split; [|split].
  - unfold cleanupExpiredTranscripts.
    now rewrite (bind_ok _ _ _ _ _ (readIndex_run d)), Hrun.
  - unfold expiredCount. lia.
  - intros sid Hsid. destruct (Hframe sid Hsid) as [H1 H2].
    split; [exact H1|]. split; [now apply stored_ext | exact H2].
Qed.

Lemma isKey_false_iff (ks : list string) (k : string) :
  isKey ks k = false <-> ~ In k ks.
Proof.
  unfold isKey. split.
  - intros H Hin. apply not_true_iff_false in H. apply H.
    apply existsb_exists. exists k. split; [exact Hin | apply String.eqb_refl].
  - intros H. apply not_true_is_false. intros Hex.
    apply existsb_exists in Hex as (k' & Hin & Heq).
    apply String.eqb_eq in Heq as ->. now apply H.
Qed.

(** X10.  A transcript built at time [now] expires seven days later, and
    a sweep at any time up to then leaves it: after [buildTranscript] and
    [saveTranscript] on an index with unique keys, the session keeps its
    stored transcript and its index entry through the sweep. *)
Theorem saved_transcript_survives_sweep (render : Renderers) (now now' : Z)
    (messages : list MessageWithParts)
    (sid projectID sessionTitle directory worktree : string)
    (flag : bool) (d : Disk) :
  List.NoDup (Assoc.keys (transcripts (currentIndex d))) ->
  now' <= now + 7 * 24 * 60 * 60 * 1000 ->
  exists t path d1 n d2,
    t = buildTranscript render now messages sid projectID sessionTitle
          directory worktree flag /\
    expiresAt (metadata t) = now + 604800000 /\
    saveTranscript t d = (Ok path, d1) /\
    cleanupExpiredTranscripts now' d1 = (Ok n, d2) /\
    stored d2 sid = stored d1 sid /\
    is_Some (stored d2 sid) /\
    indexEntry d2 sid = Some (metadata t).
Proof.
  intros Hnd Hnow.
  set (t := buildTranscript render now messages sid projectID sessionTitle
              directory worktree flag).
  assert (Hexp : isExpired now' (metadata t) = false).
  { unfold isExpired. cbn. unfold calculateExpiresAt, RETENTION_DAYS.
    apply andb_false_iff. right. apply Z.ltb_ge. lia. }
  set (d1 := savedOver t d).
  assert (Hentry : indexEntry d1 sid = Some (metadata t)).
  { apply (savedOver_stored t d). }
  assert (Hnd1 : List.NoDup (Assoc.keys (transcripts (currentIndex d1)))).
  { unfold d1, savedOver. cbn. now apply NoDup_keys_set. }
  assert (Hkey : isKey (expiredKeys now' (transcripts (currentIndex d1))) sid = false).
  { apply isKey_false_iff. unfold expiredKeys, Assoc.keys. intros Hin.
    apply in_map_iff in Hin as ([k m] & Hk & Hin). cbn in Hk. subst k.
    apply filter_In in Hin as [Hin Hm]. cbn in Hm.
    apply (get_In _ _ _ Hnd1) in Hin. unfold indexEntry in Hentry.
    rewrite Hentry in Hin.
    replace m with (metadata t) in Hm by congruence.
    rewrite Hexp in Hm. discriminate. }
  destruct (sweepEntries_frame now' (transcripts (currentIndex d1)) 0 d1)
    as (d2 & Hrun & Hframe).
  destruct (Hframe sid Hkey) as [Hdirs Hidx].
  exists t, (join (join (TRANSCRIPT_DIR d) sid) "transcript.md"), d1,
         (0 + Z.of_nat (length (expiredKeys now' (transcripts (currentIndex d1))))),
         d2.
  split; [reflexivity|]. split; [reflexivity|].
  split; [apply (saveTranscript_run t d)|]. split; [|split; [|split]].
  - unfold cleanupExpiredTranscripts.
    rewrite (bind_ok _ _ _ _ _ (readIndex_run d1)). exact Hrun.
  - now apply stored_ext.
  - rewrite (stored_ext d1 d2 sid Hdirs).
    destruct (savedOver_stored t d) as (H1 & H2 & H3 & _).
    change (sessionID (metadata t)) with sid in *. fold d1 in H1, H2, H3.
    unfold stored. rewrite H1, H2, H3. cbn.
    unfold d1, savedOver. cbn [session_dirs]. rewrite lookup_insert_eq. cbn. eauto.
  - now rewrite Hidx.
Qed.

Lemma saved_transcript_survives_sweep_witness :
  exists t path d1 n d2,
    t = buildTranscript (render Sample.host) 1000 [Sample.toolMessage] "ses_1"
          "prj_1" "Upload path" "/work" "/work" false /\
    expiresAt (metadata t) = 1000 + 604800000 /\
    saveTranscript t Sample.emptyDisk = (Ok path, d1) /\
    cleanupExpiredTranscripts 604801000 d1 = (Ok n, d2) /\
    stored d2 "ses_1" = stored d1 "ses_1" /\
    is_Some (stored d2 "ses_1") /\
    indexEntry d2 "ses_1" = Some (metadata t).
Proof.
  apply (saved_transcript_survives_sweep (render Sample.host) 1000 604801000
           [Sample.toolMessage] "ses_1" "prj_1" "Upload path" "/work" "/work"
           false Sample.emptyDisk).
  - cbn. constructor.
  - lia.
Defined.

(** ** Where a search result comes from *)

Lemma searchChunk_result (metadata : TranscriptMetadata)
    (chunks : list TranscriptChunk) (terms : list string) (inc : bool)
    (i : Z) (chunk : TranscriptChunk) (r : SearchResult) :
  searchChunk metadata chunks terms inc i chunk = Ok (Some r) ->
  chunkMatches (content chunk) terms = true /\
  scoreTerms (content chunk) terms 0 = Ok (score r) /\
  result_sessionID r = sessionID metadata /\
  sessionTitle r = title metadata /\
  result_messageID r = messageID chunk /\
  result_role r = role chunk /\
  result_timestamp r = timestamp chunk /\
  excerpt r = createExcerpt (content chunk) terms 500 /\
  context r = (if inc then contextOf chunks i else noContext).
Proof.
  unfold searchChunk.
  destruct (chunkMatches (content chunk) terms); cbn [negb]; [|discriminate].
  destruct (scoreTerms (content chunk) terms 0) as [s| |]; cbn; try discriminate.
  intros [= <-]. cbn. repeat split; reflexivity.
Qed.

Lemma searchChunk_no_match (metadata : TranscriptMetadata)
    (chunks : list TranscriptChunk) (terms : list string) (inc : bool)
    (i : Z) (chunk : TranscriptChunk) :
  chunkMatches (content chunk) terms = false ->
  searchChunk metadata chunks terms inc i chunk = Ok None.
Proof. intros H. unfold searchChunk. now rewrite H. Qed.

Lemma searchChunksFrom_results (metadata : TranscriptMetadata)
    (chunks : list TranscriptChunk) (terms : list string) (inc : bool)
    (todo : list TranscriptChunk) :
  forall (i : Z) (results : list SearchResult),
    searchChunksFrom metadata chunks terms inc i todo = Ok results ->
    forall r, In r results ->
      exists j chunk,
        In chunk todo /\
        searchChunk metadata chunks terms inc j chunk = Ok (Some r).
Proof.
  induction todo as [|chunk rest IH]; intros i results H r Hr.
  - injection H as <-. contradiction.
  - cbn [searchChunksFrom] in H.
    destruct (searchChunk metadata chunks terms inc i chunk) as [o| |] eqn:Hc;
      cbn in H; try discriminate.
    destruct (searchChunksFrom metadata chunks terms inc (i + 1) rest)
      as [more| |] eqn:Hm; cbn in H; try discriminate.
    injection H as <-.
    assert (Hmore : In r more -> exists j chunk0,
               In chunk0 (chunk :: rest) /\
               searchChunk metadata chunks terms inc j chunk0 = Ok (Some r)).
    { intros Hin. destruct (IH _ _ Hm r Hin) as (j & c & Hc' & Hs).
      exists j, c. split; [now right | exact Hs]. }
    destruct o as [result|]; [|now apply Hmore].
    destruct Hr as [<-|Hr]; [|now apply Hmore].
    exists i, chunk. split; [now left | exact Hc].
Qed.

Lemma searchEach_disk (transcripts : list TranscriptMetadata)
    (terms : list string) (inc : bool) (d : Disk) :
  snd (searchEach transcripts terms inc d) = d.
Proof.
  induction transcripts as [|metadata rest IH]; [reflexivity|].
  cbn [searchEach].
  rewrite (bind_ok _ _ _ _ _ (loadTranscript_run (sessionID metadata) d)).
  rewrite bind_run.
  destruct (stored d (sessionID metadata)) as [t|].
  - unfold liftResult.
    destruct (searchChunksFrom metadata (chunks t) terms inc 0 (chunks t));
      try reflexivity.
    rewrite bind_run. destruct (searchEach rest terms inc d) as [[more| |] d'];
      cbn in IH; subst d'; reflexivity.
  - cbn [mret IO_ret]. rewrite bind_run.
    destruct (searchEach rest terms inc d) as [[more| |] d'];
      cbn in IH; subst d'; reflexivity.
Qed.

Lemma searchEach_results (transcripts : list TranscriptMetadata)
    (terms : list string) (inc : bool) (d : Disk) :
  forall (results : list SearchResult) (d' : Disk),
    searchEach transcripts terms inc d = (Ok results, d') ->
    forall r, In r results ->
      exists metadata t j chunk,
        In metadata transcripts /\
        stored d (sessionID metadata) = Some t /\
        In chunk (chunks t) /\
        searchChunk metadata (chunks t) terms inc j chunk = Ok (Some r).
Proof.
  induction transcripts as [|metadata rest IH]; intros results d' H r Hr.
  - injection H as <- _. contradiction.
  - cbn [searchEach] in H.
    rewrite (bind_ok _ _ _ _ _ (loadTranscript_run (sessionID metadata) d)) in H.
    rewrite bind_run in H.
    assert (Hrest : forall more d2, searchEach rest terms inc d = (Ok more, d2) ->
              In r more ->
              exists metadata0 t j chunk,
                In metadata0 (metadata :: rest) /\
                stored d (sessionID metadata0) = Some t /\
                In chunk (chunks t) /\
                searchChunk metadata0 (chunks t) terms inc j chunk = Ok (Some r)).
    { intros more d2 Hm Hin. destruct (IH _ _ Hm r Hin) as (m0 & t & j & c & H1 & H2).
      exists m0, t, j, c. split; [now right | exact H2]. }
    destruct (stored d (sessionID metadata)) as [t|] eqn:Hst.
    + unfold liftResult in H.
      destruct (searchChunksFrom metadata (chunks t) terms inc 0 (chunks t))
        as [found| |] eqn:Hf; try discriminate.
      rewrite bind_run in H.
      destruct (searchEach rest terms inc d) as [[more| |] d2] eqn:Hm; try discriminate.
      cbn in H. injection H as <- _.
      apply in_app_or in Hr as [Hr|Hr]; [|now apply (Hrest more d2)].
      destruct (searchChunksFrom_results _ _ _ _ _ _ _ Hf r Hr) as (j & c & Hc & Hs).
      exists metadata, t, j, c. split; [now left|]. auto.
    + cbn [mret IO_ret] in H. rewrite bind_run in H.
      destruct (searchEach rest terms inc d) as [[more| |] d2] eqn:Hm; try discriminate.
      cbn in H. injection H as <- _. now apply (Hrest more d2).
Qed.

(** What [searchTranscripts] returns, from what the loop collects. *)
Lemma searchTranscripts_run (options : SearchOptions) (d : Disk)
    (results : list SearchResult) (d' : Disk) :
  searchTranscripts options d = (Ok results, d') ->
  d' = d /\
  exists collected,
    searchEach
      (stableSort byUpdatedAtDesc (searched options d))
      (searchTermsOf (query options))
      (default true (includeContext options)) d = (Ok collected, d) /\
    results = sliceTo (stableSort byScoreDesc collected) (default 10 (limit options)).
Proof.
  unfold searchTranscripts. rewrite (bind_ok _ _ _ _ _ (listTranscripts_run _ d)).
  cbn [opt_projectID opt_sessionID opt_limit truthyNumber].
  fold (searched options d). rewrite bind_run.
  pose proof (searchEach_disk (stableSort byUpdatedAtDesc (searched options d))
                (searchTermsOf (query options))
                (default true (includeContext options)) d) as Hd.
  destruct (searchEach _ _ _ d) as [[collected| |] d2]; cbn in Hd; subst d2;
    try discriminate.
  unfold mret, IO_ret. intros [= <- <-]. split; [reflexivity|].
  exists collected. split; reflexivity.
Qed.

(** X11.  Every result of a search is a chunk of a transcript that is
    stored, whose index entry passes the project and session filters:
    the session and its title are those of the entry, the message, role
    and time those of the chunk, every term of the query occurs in the
    content of the chunk, letter case ignored, and the excerpt is cut from
    that content.  The search leaves the disk as it is. *)
Theorem search_results_sound (options : SearchOptions) (d d' : Disk)
    (results : list SearchResult) :
  searchTranscripts options d = (Ok results, d') ->
  d' = d /\
  forall r, In r results ->
    exists metadata t chunk,
      In metadata (Assoc.values (transcripts (currentIndex d))) /\
      selected (search_projectID options) (search_sessionID options) metadata = true /\
      stored d (sessionID metadata) = Some t /\
      In chunk (chunks t) /\
      result_sessionID r = sessionID metadata /\
      sessionTitle r = title metadata /\
      result_messageID r = messageID chunk /\
      result_role r = role chunk /\
      result_timestamp r = timestamp chunk /\
      (forall term, In term (searchTermsOf (query options)) ->
                    occursIgnoringCase term (content chunk)) /\
      excerpt r = createExcerpt (content chunk) (searchTermsOf (query options)) 500.
Proof.
  intros H. apply searchTranscripts_run in H as (-> & collected & Hc & ->).
  split; [reflexivity|]. intros r Hr.
  apply In_sliceTo in Hr. apply (Permutation_in _ (stableSort_perm _ _)) in Hr.
  destruct (searchEach_results _ _ _ _ _ _ Hc r Hr) as (m & t & j & c & Hm & Hst & Hin & Hs).
  apply (Permutation_in _ (stableSort_perm _ _)) in Hm.
  apply filter_In in Hm as [Hm Hsel].
  apply searchChunk_result in Hs as (H1 & _ & H3 & H4 & H5 & H6 & H7 & H8 & _).
  exists m, t, c. repeat (split; [assumption|]). split; [|assumption].
  now apply chunkMatches_iff; [apply searchTermsOf_folded|].
Qed.

Lemma search_results_sound_witness :
  Sample.savedDisk = Sample.savedDisk /\
  forall r,
    In r (match fst (searchTranscripts Sample.bucketSearch Sample.savedDisk) with
          | Ok results => results
          | _ => []
          end) ->
    exists metadata t chunk,
      In metadata (Assoc.values (transcripts (currentIndex Sample.savedDisk))) /\
      selected None None metadata = true /\
      stored Sample.savedDisk (sessionID metadata) = Some t /\
      In chunk (chunks t) /\
      result_sessionID r = sessionID metadata /\
      sessionTitle r = title metadata /\
      result_messageID r = messageID chunk /\
      result_role r = role chunk /\
      result_timestamp r = timestamp chunk /\
      (forall term, In term (searchTermsOf "S3 Bucket") ->
                    occursIgnoringCase term (content chunk)) /\
      excerpt r = createExcerpt (content chunk) (searchTermsOf "S3 Bucket") 500.
Proof.
  apply (search_results_sound Sample.bucketSearch Sample.savedDisk Sample.savedDisk).
  vm_compute. reflexivity.
Defined.

(** ** Ranking and bounds of the results *)

(** X12.  The results of a search are ordered by score, highest first,
    and under a limit that is not negative there are at most that many. *)
Theorem search_results_ranked (options : SearchOptions) (d d' : Disk)
    (results : list SearchResult) :
  searchTranscripts options d = (Ok results, d') ->
  Sorted scoreDesc results /\
  (0 <= default 10 (limit options) ->
   Z.of_nat (length results) <= default 10 (limit options)).
Proof.
  intros H. apply searchTranscripts_run in H as (_ & collected & _ & ->). split.
  - unfold sliceTo. apply Sorted_firstn.
    assert (Hs : Sorted (fun a b => byScoreDesc a b = true)
                   (stableSort byScoreDesc collected)).
    { apply stableSort_Sorted. intros a b. unfold byScoreDesc.
      rewrite !Z.leb_le. lia. }
    induction Hs as [|a l _ IH Hhd]; constructor; [exact IH|].
    destruct Hhd; constructor. unfold scoreDesc. now apply Z.leb_le.
  - apply sliceTo_length.
Qed.

Lemma search_results_ranked_witness :
  (Sorted scoreDesc
     (match fst (searchTranscripts Sample.cacheSearch Sample.rankedDisk) with
      | Ok results => results
      | _ => []
      end) /\
   (0 <= default 10 (limit Sample.cacheSearch) ->
    Z.of_nat
      (length (match fst (searchTranscripts Sample.cacheSearch Sample.rankedDisk) with
               | Ok results => results
               | _ => []
               end)) <= default 10 (limit Sample.cacheSearch))) /\
  map timestamp (chunks (Sample.transcript Sample.rankedChunks)) = [10; 20; 30] /\
  length (matchingChunks Sample.rankedDisk (searchTermsOf (query Sample.cacheSearch))
            (searched Sample.cacheSearch Sample.rankedDisk)) = 3%nat /\
  map (fun r => (result_timestamp r, score r))
    (match fst (searchTranscripts Sample.cacheSearch Sample.rankedDisk) with
     | Ok results => results
     | _ => []
     end) = [(20, 3); (30, 2)].
Proof.
  split.
  - apply (search_results_ranked Sample.cacheSearch Sample.rankedDisk Sample.rankedDisk).
    vm_compute. reflexivity.
  - repeat split; vm_compute; reflexivity.
Defined.

Lemma contextOf_bounds (chunks : list TranscriptChunk) (i : Z) (s : string) :
  before (contextOf chunks i) = Some s \/ after (contextOf chunks i) = Some s ->
  Z.of_nat (String.length s) <= 200.
Proof.
  unfold contextOf. cbn [before after].
  intros [H|H].
  - destruct (chunkAt chunks (i - 1)) as [c|]; cbn in H; [|discriminate].
    injection H as <-. apply truncateText_length. lia.
  - destruct (chunkAt chunks (i + 1)) as [c|]; cbn in H; [|discriminate].
    injection H as <-. apply truncateText_length. lia.
Qed.

(** X13.  In every result of a search the excerpt has at most 506 code
    units and each context string at most 200; when the search is asked
    for no context, a result has none. *)
Theorem search_result_bounds (options : SearchOptions) (d d' : Disk)
    (results : list SearchResult) :
  searchTranscripts options d = (Ok results, d') ->
  forall r, In r results ->
    (String.length (excerpt r) <= 506)%nat /\
    (forall s, before (context r) = Some s \/ after (context r) = Some s ->
               Z.of_nat (String.length s) <= 200) /\
    (includeContext options = Some false -> context r = noContext).
Proof.
  intros H r Hr. apply searchTranscripts_run in H as (_ & collected & Hc & ->).
  apply In_sliceTo in Hr. apply (Permutation_in _ (stableSort_perm _ _)) in Hr.
  destruct (searchEach_results _ _ _ _ _ _ Hc r Hr) as (m & t & j & c & _ & _ & _ & Hs).
  apply searchChunk_result in Hs as (_ & _ & _ & _ & _ & _ & _ & He & Hctx).
  rewrite He, Hctx. split; [apply createExcerpt_length|]. split.
  - destruct (default true (includeContext options)).
    + apply contextOf_bounds.
    + cbn. intros s [?|?]; discriminate.
  - intros ->. reflexivity.
Qed.

Lemma search_result_bounds_witness :
  List.Forall
    (fun r =>
       (String.length (excerpt r) <= 506)%nat /\
       (forall s, before (context r) = Some s \/ after (context r) = Some s ->
                  Z.of_nat (String.length s) <= 200) /\
       (includeContext Sample.bucketSearch = Some false -> context r = noContext))
    (match fst (searchTranscripts Sample.bucketSearch Sample.savedDisk) with
     | Ok results => results
     | _ => []
     end).
Proof.
  apply List.Forall_forall.
  apply (search_result_bounds Sample.bucketSearch Sample.savedDisk Sample.savedDisk).
  vm_compute. reflexivity.
Defined.

(** ** Searches that find nothing, and searches that cannot throw *)

Lemma searchChunksFrom_no_match (metadata : TranscriptMetadata)
    (chunks : list TranscriptChunk) (terms : list string) (inc : bool)
    (todo : list TranscriptChunk) :
  (forall c, In c todo -> chunkMatches (content c) terms = false) ->
  forall i, searchChunksFrom metadata chunks terms inc i todo = Ok [].
Proof.
  induction todo as [|c rest IH]; intros H i; [reflexivity|].
  cbn [searchChunksFrom].
  rewrite searchChunk_no_match by (apply H; now left).
  cbn. rewrite IH by (intros c' Hc'; apply H; now right). reflexivity.
Qed.

Lemma searchEach_no_match (transcripts : list TranscriptMetadata)
    (terms : list string) (inc : bool) (d : Disk) :
  (forall metadata t c,
     In metadata transcripts -> stored d (sessionID metadata) = Some t ->
     In c (chunks t) -> chunkMatches (content c) terms = false) ->
  searchEach transcripts terms inc d = (Ok [], d).
Proof.
  induction transcripts as [|metadata rest IH]; intros H; [reflexivity|].
  cbn [searchEach].
  rewrite (bind_ok _ _ _ _ _ (loadTranscript_run (sessionID metadata) d)).
  rewrite bind_run.
  assert (Hrest : searchEach rest terms inc d = (Ok [], d)).
  { apply IH. intros m t c Hm. apply H. now right. }
  destruct (stored d (sessionID metadata)) as [t|] eqn:Hst.
  - unfold liftResult. rewrite searchChunksFrom_no_match.
    + now rewrite (bind_ok _ _ _ _ _ Hrest).
    + intros c Hc. apply (H metadata t c); [now left | exact Hst | exact Hc].
  - cbn [mret IO_ret]. now rewrite (bind_ok _ _ _ _ _ Hrest).
Qed.

(** X14.  When no chunk of the transcripts searched holds all the terms,
    the search returns the empty list; no term is compiled to a regular
    expression then, so this holds for terms with syntax characters too. *)
Theorem search_without_match (options : SearchOptions) (d : Disk) :
  (forall metadata t c,
     In metadata (searched options d) ->
     stored d (sessionID metadata) = Some t -> In c (chunks t) ->
     chunkMatches (content c) (searchTermsOf (query options)) = false) ->
  searchTranscripts options d = (Ok [], d).
Proof.
  intros H. unfold searchTranscripts.
  rewrite (bind_ok _ _ _ _ _ (listTranscripts_run _ d)).
  cbn [opt_projectID opt_sessionID opt_limit truthyNumber].
  fold (searched options d).
  assert (Hnone : forall metadata t c,
            In metadata (stableSort byUpdatedAtDesc (searched options d)) ->
            stored d (sessionID metadata) = Some t -> In c (chunks t) ->
            chunkMatches (content c) (searchTermsOf (query options)) = false).
  { intros m t c Hm. apply H.
    now apply (Permutation_in _ (stableSort_perm _ _)) in Hm. }
  rewrite (bind_ok _ _ _ _ _ (searchEach_no_match _ _ _ d Hnone)).
  unfold mret, IO_ret. cbn [stableSort]. unfold sliceTo. now rewrite firstn_nil.
Qed.

Lemma search_without_match_witness :
  searchTranscripts
    {| query := "nonexistent (term"; search_sessionID := None;
       search_projectID := None; limit := None; includeContext := None |}
    Sample.savedDisk = (Ok [], Sample.savedDisk).
Proof.
  apply search_without_match.
  intros metadata t c Hm Hst Hc. vm_compute in Hm.
  destruct Hm as [<-|[]]. vm_compute in Hst. injection Hst as <-.
  destruct Hc as [<-|[<-|[]]]; reflexivity.
Defined.

(** ** Queries without syntax characters *)

Lemma chars_ofChars (l : list ascii) : chars (ofChars l) = l.
Proof. induction l as [|c l IH]; cbn; [reflexivity | now rewrite IH]. Qed.

Lemma chars_toLowerCase (s : string) : chars (toLowerCase s) = map lowerChar (chars s).
Proof. induction s as [|c s IH]; cbn; [reflexivity | now rewrite IH]. Qed.

(** Every piece of a split is made of code units of the string split. *)
Lemma splitWsFrom_chars (P : ascii -> Prop) (s : string) : forall cur inRun,
  Forall P cur -> Forall P (chars s) ->
  Forall (fun t => Forall P (chars t)) (splitWsFrom cur inRun s).
Proof.
  induction s as [|c s IH]; intros cur inRun Hcur Hs; cbn [splitWsFrom].
  - constructor; [|constructor]. rewrite chars_ofChars. now apply Forall_rev.
  - cbn [chars] in Hs. apply List.Forall_cons_iff in Hs as [Hc Hs].
    destruct (isWhitespace c).
    + destruct inRun.
      * apply IH; [constructor | exact Hs].
      * constructor; [rewrite chars_ofChars; now apply Forall_rev|].
        apply IH; [constructor | exact Hs].
    + apply IH; [now constructor | exact Hs].
Qed.

Lemma isSyntaxCharacter_lowerChar (c : ascii) :
  isSyntaxCharacter (lowerChar c) = isSyntaxCharacter c.
Proof. destruct c as [[] [] [] [] [] [] [] []]; reflexivity. Qed.

Lemma searchTermsOf_plain (query : string) :
  plainQuery query = true -> Forall plain (searchTermsOf query).
Proof.
  intros Hq. unfold searchTermsOf, splitWhitespace.
  assert (H : Forall (fun t => Forall (fun c => isSyntaxCharacter c = false) (chars t))
                (splitWsFrom [] false (toLowerCase query))).
  { apply splitWsFrom_chars; [constructor|].
    rewrite chars_toLowerCase. apply List.Forall_forall. intros c Hc.
    apply in_map_iff in Hc as (c0 & <- & Hc0). rewrite isSyntaxCharacter_lowerChar.
    unfold plainQuery in Hq. rewrite forallb_forall in Hq.
    now apply negb_true_iff, Hq. }
  rewrite List.Forall_forall in *. intros t Ht. apply filter_In in Ht as [Ht _].
  unfold plain. apply forallb_forall. intros c Hc. apply negb_true_iff.
  specialize (H t Ht). rewrite List.Forall_forall in H. now apply H.
Qed.

Lemma countFrom_pos (t c : string) :
  t <> EmptyString -> includes c t = true -> (1 <= countFrom t c 0)%nat.
Proof.
  intros Ht. induction c as [|x c IH]; intros H.
  - rewrite includes_nil in H. destruct t; [congruence | discriminate].
  - cbn [countFrom]. destruct (startsWith (String x c) t) eqn:Hs; [lia|].
    rewrite includes_cons, Hs in H. now apply IH.
Qed.

Lemma occurrences_at_least_terms (content : string) (terms : list string) :
  Forall folded terms -> Forall (fun t => t <> EmptyString) terms ->
  chunkMatches content terms = true ->
  Z.of_nat (length terms) <=
  sumZ (map (fun t => occurrenceCount t content) terms).
Proof.
  unfold chunkMatches.
  induction terms as [|t terms IH]; intros Hf Hn Hm; [cbn; lia|].
  apply List.Forall_cons_iff in Hf as [Hft Hf].
  apply List.Forall_cons_iff in Hn as [Hnt Hn].
  cbn [forallb] in Hm. apply andb_true_iff in Hm as [Hmt Hm].
  cbn [map sumZ fold_right length]. specialize (IH Hf Hn Hm). unfold sumZ in IH.
  assert (1 <= occurrenceCount t content).
  { unfold occurrenceCount. rewrite Hft.
    pose proof (countFrom_pos t (toLowerCase content) Hnt Hmt). lia. }
  lia.
Qed.

Section PlainTerms.
Context (terms : list string).
Hypothesis terms_plain : Forall plain terms.
Hypothesis terms_folded : Forall folded terms.
Hypothesis terms_nonempty : Forall (fun t => t <> EmptyString) terms.

Lemma searchChunk_plain (metadata : TranscriptMetadata)
    (chunks : list TranscriptChunk) (inc : bool) (i : Z) (chunk : TranscriptChunk) :
  if chunkMatches (content chunk) terms
  then exists r, searchChunk metadata chunks terms inc i chunk = Ok (Some r) /\
                 Z.of_nat (length terms) <= score r
  else searchChunk metadata chunks terms inc i chunk = Ok None.
Proof using terms_plain terms_folded terms_nonempty.
  unfold searchChunk. destruct (chunkMatches (content chunk) terms) eqn:Hm; [|reflexivity].
  cbn [negb]. rewrite (scoreTerms_plain _ _ 0 terms_plain terms_nonempty). cbn.
  eexists. split; [reflexivity|]. cbn [score].
  now apply occurrences_at_least_terms.
Qed.

Lemma searchChunksFrom_plain (metadata : TranscriptMetadata)
    (chunks : list TranscriptChunk) (inc : bool) (todo : list TranscriptChunk) :
  forall i, exists results,
    searchChunksFrom metadata chunks terms inc i todo = Ok results /\
    length results =
      length (List.filter (fun c => chunkMatches (content c) terms) todo) /\
    Forall (fun r => Z.of_nat (length terms) <= score r) results.
Proof using terms_plain terms_folded terms_nonempty.
  induction todo as [|c rest IH]; intros i.
  - exists []. repeat split. constructor.
  - cbn [searchChunksFrom List.filter].
    destruct (IH (i + 1)) as (more & Hm & Hl & Hs). rewrite Hm.
    pose proof (searchChunk_plain metadata chunks inc i c) as Hc.
    destruct (chunkMatches (content c) terms).
    + destruct Hc as (r & -> & Hr). cbn. exists (r :: more).
      split; [reflexivity|]. split; [cbn; now rewrite Hl | now constructor].
    + rewrite Hc. cbn. exists more. auto.
Qed.

Lemma searchEach_plain (transcripts : list TranscriptMetadata) (inc : bool) (d : Disk) :
  exists results,
    searchEach transcripts terms inc d = (Ok results, d) /\
    length results = length (matchingChunks d terms transcripts) /\
    Forall (fun r => Z.of_nat (length terms) <= score r) results.
Proof using terms_plain terms_folded terms_nonempty.
  induction transcripts as [|metadata rest IH].
  - exists []. repeat split. constructor.
  - destruct IH as (more & Hm & Hl & Hs). cbn [searchEach matchingChunks flat_map].
    rewrite (bind_ok _ _ _ _ _ (loadTranscript_run (sessionID metadata) d)).
    rewrite bind_run. destruct (stored d (sessionID metadata)) as [t|].
    + destruct (searchChunksFrom_plain metadata (chunks t) inc (chunks t) 0)
        as (found & Hf & Hfl & Hfs).
      unfold liftResult. rewrite Hf, (bind_ok _ _ _ _ _ Hm).
      exists (found ++ more). split; [reflexivity|]. split.
      * rewrite !length_app, length_map, Hfl. fold (matchingChunks d terms rest).
        now rewrite Hl.
      * now apply Forall_app.
    + cbn [mret IO_ret]. rewrite (bind_ok _ _ _ _ _ Hm).
      exists more. split; [reflexivity|]. auto.
Qed.
End PlainTerms.

(** X15.  A search for a query without syntax characters of the pattern
    grammar does not throw and leaves the disk as it is.  Under a limit
    that is not negative it returns as many results as chunks pass the
    filter, up to the limit; and no result has a negative score. *)
Theorem plain_query_search (options : SearchOptions) (d : Disk) :
  plainQuery (query options) = true ->
  exists results,
    searchTranscripts options d = (Ok results, d) /\
    (0 <= default 10 (limit options) ->
     Z.of_nat (length results) =
     Z.min (default 10 (limit options))
       (Z.of_nat (length (matchingChunks d (searchTermsOf (query options))
                            (searched options d))))) /\
    Forall (fun r => 0 <= score r) results.
Proof.
  intros Hq.
  destruct (searchEach_plain (searchTermsOf (query options))
              (searchTermsOf_plain _ Hq) (searchTermsOf_folded _)
              (searchTermsOf_nonempty _)
              (stableSort byUpdatedAtDesc (searched options d))
              (default true (includeContext options)) d)
    as (collected & Hc & Hl & Hs).
  eexists. split; [|split].
  - unfold searchTranscripts. rewrite (bind_ok _ _ _ _ _ (listTranscripts_run _ d)).
    cbn [opt_projectID opt_sessionID opt_limit truthyNumber].
    fold (searched options d). rewrite (bind_ok _ _ _ _ _ Hc). reflexivity.
  - intros Hlimit. rewrite sliceTo_firstn by exact Hlimit.
    rewrite length_firstn, (Permutation_length (stableSort_perm _ _)), Hl.
    assert (Hp : Permutation
              (matchingChunks d (searchTermsOf (query options))
                 (stableSort byUpdatedAtDesc (searched options d)))
              (matchingChunks d (searchTermsOf (query options)) (searched options d))).
    { unfold matchingChunks. apply Permutation_flat_map, stableSort_perm. }
    rewrite (Permutation_length Hp). lia.
  - apply List.Forall_forall. intros r Hr. apply In_sliceTo in Hr.
    apply (Permutation_in _ (stableSort_perm _ _)) in Hr.
    rewrite List.Forall_forall in Hs. specialize (Hs r Hr). lia.
Qed.

Lemma plain_query_search_witness :
  exists results,
    searchTranscripts Sample.cacheSearch Sample.rankedDisk = (Ok results, Sample.rankedDisk) /\
    (0 <= default 10 (limit Sample.cacheSearch) ->
     Z.of_nat (length results) =
     Z.min (default 10 (limit Sample.cacheSearch))
       (Z.of_nat (length (matchingChunks Sample.rankedDisk
                            (searchTermsOf (query Sample.cacheSearch))
                            (searched Sample.cacheSearch Sample.rankedDisk))))) /\
    Forall (fun r => 0 <= score r) results.
Proof.
  apply (plain_query_search Sample.cacheSearch Sample.rankedDisk). reflexivity.
Defined.

(** ** The excerpt window and the first match *)

Lemma startsWith_length (s p : string) :
  startsWith s p = true -> (String.length p <= String.length s)%nat.
Proof.
  intros H. apply startsWith_iff in H as [post ->]. rewrite length_append. lia.
Qed.

Lemma indexOf_nil (t : string) :
  indexOf EmptyString t = if startsWith EmptyString t then 0 else -1.
Proof. reflexivity. Qed.

Lemma indexOf_cons (a : ascii) (s t : string) :
  indexOf (String a s) t =
  if startsWith (String a s) t then 0
  else if (indexOf s t =? -1)%Z then -1 else indexOf s t + 1.
Proof. reflexivity. Qed.

(** [indexOf] is -1 or the least offset at which the string occurs. *)
Lemma indexOf_spec (s t : string) :
  (indexOf s t = -1 /\ includes s t = false) \/
  (exists pre post,
     s = pre +:+ t +:+ post /\ indexOf s t = len pre /\
     forall pre' post', s = pre' +:+ t +:+ post' -> len pre <= len pre').
Proof.
  induction s as [|a s IH].
  - rewrite indexOf_nil, includes_nil. destruct (startsWith EmptyString t) eqn:Hs.
    + right. apply startsWith_iff in Hs as [post Hp]. exists EmptyString, post.
      split; [exact Hp|]. split; [reflexivity|]. intros. unfold len. cbn. lia.
    + left. auto.
  - rewrite indexOf_cons, includes_cons. destruct (startsWith (String a s) t) eqn:Hs.
    + right. apply startsWith_iff in Hs as [post Hp]. exists EmptyString, post.
      split; [exact Hp|]. split; [reflexivity|]. intros. unfold len. cbn. lia.
    + destruct IH as [[Hi Hinc]|(pre & post & Heq & Hi & Hmin)].
      * left. rewrite Hi, Hinc. auto.
      * right. assert (0 <= len pre) by (unfold len; lia).
        destruct (Z.eqb_spec (indexOf s t) (-1)); [lia|].
        exists (String a pre), post. simpl_append. split; [now rewrite <- Heq|].
        split; [rewrite Hi; unfold len; cbn [String.length]; lia|].
        intros pre' post' H'. destruct pre' as [|x pre']; simpl_append.
        -- exfalso. assert (startsWith (String a s) t = true)
             by (apply startsWith_iff; now exists post').
           congruence.
        -- injection H' as _ H'. specialize (Hmin _ _ H').
           unfold len in *. cbn [String.length]. lia.
Qed.

Lemma firstOccurrence_spec (contentLower : string) (terms : list string) :
  forall best,
    let found := firstOccurrence contentLower terms best in
    found <= best /\
    (found = best \/
     exists term, In term terms /\ indexOf contentLower term = found /\ found <> -1) /\
    (forall term, In term terms -> indexOf contentLower term <> -1 ->
                  found <= indexOf contentLower term).
Proof.
  induction terms as [|term rest IH]; intros best; cbn zeta.
  - cbn. split; [lia|]. split; [now left | contradiction].
  - cbn [firstOccurrence].
    set (index := indexOf contentLower term).
    set (best' := if negb (index =? -1)%Z && (index <? best)%Z then index else best).
    destruct (IH best') as (Hle & Hor & Hmin).
    assert (Hb : best' <= best /\ (index <> -1 -> best' <= index) /\
                 (best' = best \/ (best' = index /\ index <> -1))).
    { unfold best'. destruct (Z.eqb_spec index (-1)); cbn [negb andb];
        [lia|]. destruct (Z.ltb_spec index best); lia. }
    destruct Hb as (Hb1 & Hb2 & Hb3).
    split; [lia|]. split.
    + destruct Hor as [Hf|(t & Ht & Hi & Hn)].
      * destruct Hb3 as [Hb3|[Hb3 Hn]]; [left; lia|].
        right. exists term. split; [now left|]. fold index. split; [lia|]. lia.
      * right. exists t. split; [now right | auto].
    + intros t [<-|Ht] Hn; [fold index in Hn |- *; specialize (Hb2 Hn); lia|].
      now apply Hmin.
Qed.

(** X16.  When [createExcerpt] finds a term, its window lies in the
    content and covers the least offset at which a term occurs in the
    lower-cased content.  A term is found whenever one occurs in the
    lower-cased content at an offset below the length of the content. *)
Theorem excerpt_window_covers_first_match (content : string) (terms : list string) :
  (forall start end_,
     excerptWindow content terms 500 = Some (start, end_) ->
     exists term pre post,
       In term terms /\
       toLowerCase content = pre +:+ term +:+ post /\
       0 <= start /\ start <= len pre /\ len pre < end_ /\ end_ <= len content /\
       forall term' pre' post',
         In term' terms -> toLowerCase content = pre' +:+ term' +:+ post' ->
         len pre <= len pre') /\
  (forall term pre post,
     In term terms -> toLowerCase content = pre +:+ term +:+ post ->
     len pre < len content ->
     is_Some (excerptWindow content terms 500)).
Proof.
  pose proof (firstOccurrence_spec (toLowerCase content) terms (len content))
    as (Hle & Hor & Hmin). cbn zeta in *.
  assert (Hlen : 0 <= len content) by (unfold len; lia).
  split.
  - intros start end_ Hw.
    pose proof (excerptWindow_bounds content terms 500 start end_ ltac:(lia) Hw)
      as (H0 & H1 & H2 & H3 & H4).
    unfold excerptWindow in Hw.
    set (best := firstOccurrence (toLowerCase content) terms (len content)) in *.
    destruct (Z.eqb_spec best (len content)) as [|Hne]; [discriminate|].
    destruct Hor as [|(term & Hterm & Hi & Hn)]; [contradiction|].
    destruct (indexOf_spec (toLowerCase content) term)
      as [[Hi' _]|(pre & post & Heq & Hi' & Hfirst)]; [congruence|].
    assert (Hbest : best = len pre) by congruence.
    exists term, pre, post. split; [exact Hterm|]. split; [exact Heq|].
    assert (Hpre : 0 <= len pre) by (unfold len; lia).
    assert (Hwin : start <= best /\ best < end_).
    { change (500 / 2) with 250 in Hw.
      destruct ((Z.min (len content) (Z.max 0 (best - 250) + 500) =? len content)%Z
                && (Z.min (len content) (Z.max 0 (best - 250) + 500)
                    - Z.max 0 (best - 250) <? 500)%Z) eqn:Hadj;
        injection Hw as <- <-.
      - apply andb_true_iff in Hadj as [_ Hlt]. apply Z.ltb_lt in Hlt. lia.
      - lia. }
    repeat (split; [lia|]).
    intros term' pre' post' Hterm' Heq'.
    destruct (indexOf_spec (toLowerCase content) term')
      as [[_ Hinc]|(pre2 & post2 & Heq2 & Hi2 & Hfirst2)].
    + assert (includes (toLowerCase content) term' = true)
        by (apply includes_iff; eauto). congruence.
    + specialize (Hfirst2 _ _ Heq'). specialize (Hmin term' Hterm').
      assert (0 <= len pre2) by (unfold len; lia). lia.
  - intros term pre post Hterm Heq Hbelow. unfold excerptWindow.
    set (best := firstOccurrence (toLowerCase content) terms (len content)) in *.
    destruct (Z.eqb_spec best (len content)) as [Hb|]; [exfalso | eauto].
    destruct (indexOf_spec (toLowerCase content) term)
      as [[_ Hinc]|(pre2 & post2 & Heq2 & Hi2 & Hfirst2)].
    + assert (includes (toLowerCase content) term = true)
        by (apply includes_iff; eauto). congruence.
    + specialize (Hfirst2 _ _ Heq).
      assert (Hfound : best <= indexOf (toLowerCase content) term).
      { apply Hmin; [exact Hterm|]. rewrite Hi2. unfold len. lia. }
      lia.
Qed.

(** ** Searching one session, one project *)




(** ** Statistics *)

Lemma mathMin_le (xs : list Z) (last : Z) :
  mathMin xs last <= last /\ forall x, In x xs -> mathMin xs last <= x.
Proof.
  unfold mathMin. induction xs as [|y xs [IH1 IH2]]; cbn [fold_right].
  - split; [lia | contradiction].
  - split; [lia|]. intros x [<-|Hx]; [lia|]. specialize (IH2 x Hx). lia.
Qed.

Lemma mathMax_ge (xs : list Z) (last : Z) :
  last <= mathMax xs last /\ forall x, In x xs -> x <= mathMax xs last.
Proof.
  unfold mathMax. induction xs as [|y xs [IH1 IH2]]; cbn [fold_right].
  - split; [lia | contradiction].
  - split; [lia|]. intros x [<-|Hx]; [lia|]. specialize (IH2 x Hx). lia.
Qed.

Lemma fold_left_messageCount (ts : list TranscriptMetadata) : forall sum,
  fold_left (fun sum t => sum + messageCount t) ts sum =
  sum + sumZ (map messageCount ts).
Proof.
  induction ts as [|t ts IH]; intros sum; cbn [fold_left map sumZ fold_right]; [lia|].
  rewrite IH. unfold sumZ. lia.
Qed.

Lemma filter_length_le {A : Type} (f : A -> bool) (l : list A) :
  (length (List.filter f l) <= length l)%nat.
Proof.
  induction l as [|x l IH]; cbn; [lia|]. destruct (f x); cbn; lia.
Qed.

(** X18.  [getTranscriptStats] returns and leaves the disk as it is.  It
    counts the index entries of the project (all entries when no project
    is given), which are as many as [listTranscripts] lists for it, and
    sums their message counts; the compacted count lies between 0 and the
    total; the oldest timestamp is at most [now] and at most every
    [createdAt], the newest at least 0 and at least every [updatedAt];
    with no entry they are [now] and 0. *)
Theorem stats_aggregate (now : Z) (project : option string) (d : Disk) :
  exists s listed,
    getTranscriptStats now project d = (Ok s, d) /\
    listTranscripts
      {| opt_projectID := project; opt_sessionID := None; opt_limit := None |} d
      = (Ok listed, d) /\
    totalTranscripts s = Z.of_nat (length listed) /\
    totalMessages s = sumZ (map messageCount listed) /\
    0 <= compactedCount s <= totalTranscripts s /\
    oldestTimestamp s <= now /\
    0 <= newestTimestamp s /\
    (forall t, In t listed ->
       oldestTimestamp s <= createdAt t /\ updatedAt t <= newestTimestamp s) /\
    (listed = [] ->
     s = {| totalTranscripts := 0; totalMessages := 0; compactedCount := 0;
            oldestTimestamp := now; newestTimestamp := 0 |}).
Proof.
  set (chosen := List.filter (selected project None)
                   (Assoc.values (transcripts (currentIndex d)))).
  assert (Hchosen :
    match truthyString project with
    | Some p => List.filter (fun t => String.eqb (projectID t) p)
                  (Assoc.values (transcripts (currentIndex d)))
    | None => Assoc.values (transcripts (currentIndex d))
    end = chosen).
  { unfold chosen, selected. cbn [truthyString].
    destruct (truthyString project).
    - apply filter_ext. intros t. now rewrite andb_true_r.
    - symmetry. apply filter_true. }
  assert (Hperm : Permutation (stableSort byUpdatedAtDesc chosen) chosen)
    by apply stableSort_perm.
  eexists _, (stableSort byUpdatedAtDesc chosen).
  split; [unfold getTranscriptStats;
          rewrite (bind_ok _ _ _ _ _ (readIndex_run d)), Hchosen; reflexivity|].
  split; [rewrite listTranscripts_run; reflexivity|].
  cbn [totalTranscripts totalMessages compactedCount oldestTimestamp newestTimestamp].
  pose proof (mathMin_le (map createdAt chosen) now) as [Hmin1 Hmin2].
  pose proof (mathMax_ge (map updatedAt chosen) 0) as [Hmax1 Hmax2].
  split; [now rewrite (Permutation_length Hperm)|].
  split.
  { rewrite fold_left_messageCount. cbn.
    assert (Hsum : forall l l' : list Z, Permutation l l' -> sumZ l = sumZ l').
    { unfold sumZ. induction 1; cbn [fold_right] in *; lia. }
    apply Hsum, Permutation_map. now symmetry. }
  split; [pose proof (filter_length_le compacted chosen); lia|].
  split; [exact Hmin1|]. split; [exact Hmax1|]. split.
  - intros t Ht. apply (Permutation_in _ Hperm) in Ht. split.
    + apply Hmin2. now apply in_map.
    + apply Hmax2. now apply in_map.
  - intros Hnil. assert (chosen = []) as ->.
    { apply Permutation_nil. rewrite <- Hnil. now symmetry. }
    reflexivity.
Qed.

(** ** The chunks of a message list *)

Lemma append_inj_r (p a b : string) : p +:+ a = p +:+ b -> a = b.
Proof.
  induction p as [|x p IH]; rewrite ?append_nil, ?append_cons; [auto|].
  intros [= H]. now apply IH.
Qed.

Lemma chunkName_inj (n n' : nat) : chunkName n = chunkName n' -> n = n'.
Proof.
  unfold chunkName. intros H. apply append_inj_r in H.
  apply DecimalNat.Unsigned.to_uint_inj.
  assert (Hu : NilEmpty.uint_of_string (NilEmpty.string_of_uint (Nat.to_uint n)) =
               NilEmpty.uint_of_string (NilEmpty.string_of_uint (Nat.to_uint n')))
    by now rewrite H.
  rewrite !NilEmpty.usu in Hu. now injection Hu.
Qed.

Lemma createChunksFrom_names (messages : list MessageWithParts) (sid : string) :
  forall n,
    map chunk_id (createChunksFrom n messages sid) =
    chunkNames n (length (createChunksFrom n messages sid)).
Proof.
  unfold chunkNames.
  induction messages as [|msg rest IH]; intros n; [reflexivity|].
  cbn [createChunksFrom]. destruct (contentParts msg); [apply IH|].
  cbn [map chunk_id length seq]. now rewrite IH.
Qed.

Lemma chunkNames_NoDup (n k : nat) : List.NoDup (chunkNames n k).
Proof.
  unfold chunkNames. apply Finite.Injective_map_NoDup; [|apply seq_NoDup].
  intros a b. apply chunkName_inj.
Qed.

Lemma createChunksFrom_length (messages : list MessageWithParts) (sid : string) :
  forall n,
    length (createChunksFrom n messages sid) =
    length (List.filter producesContent messages).
Proof.
  intros n. rewrite <- (length_map messageID), createChunksFrom_ids.
  apply length_map.
Qed.

(** What a chunk is made from. *)
Lemma createChunksFrom_origin (messages : list MessageWithParts) (sid : string) :
  forall n chunk,
    In chunk (createChunksFrom n messages sid) ->
    exists msg,
      In msg messages /\ producesContent msg = true /\
      chunk_sessionID chunk = sid /\
      messageID chunk = info_id msg /\
      role chunk = info_role msg /\
      timestamp chunk = info_time_created msg /\
      content chunk = JsString.join newline (contentParts msg) /\
      partTypes chunk = dedupe (map partType (parts msg)).
Proof.
  induction messages as [|msg rest IH]; intros n chunk H; [contradiction|].
  cbn [createChunksFrom] in H.
  destruct (contentParts msg) as [|x xs] eqn:Hc.
  - destruct (IH _ _ H) as (m & Hm & Hrest). exists m. split; [now right | exact Hrest].
  - destruct H as [<-|H].
    + exists msg. split; [now left|]. split.
      * destruct (producesContent msg) eqn:Hp; [reflexivity|].
        apply contentParts_nil in Hp. congruence.
      * cbn. rewrite Hc. repeat split; reflexivity.
    + destruct (IH _ _ H) as (m & Hm & Hrest). exists m. split; [now right | exact Hrest].
Qed.

Lemma dedupe_In (xs : list string) (x : string) : In x (dedupe xs) <-> In x xs.
Proof.
  induction xs as [|y xs IH]; cbn [dedupe In]; [tauto|].
  rewrite filter_In, IH, negb_true_iff, String.eqb_neq.
  destruct (String.eqb_spec x y) as [->|Hne]; [tauto|]. intuition congruence.
Qed.

Lemma dedupe_NoDup (xs : list string) : List.NoDup (dedupe xs).
Proof.
  induction xs as [|y xs IH]; cbn [dedupe]; constructor.
  - rewrite filter_In, negb_true_iff, String.eqb_neq. tauto.
  - now apply List.NoDup_filter.
Qed.

(** X19.  The chunks of a message list are named [chunk_0], [chunk_1],
    ... in order, so no two have the same name; there is one chunk for
    each message with a part that has content, hence no more chunks than
    messages; and every chunk carries the session identifier given. *)
Theorem chunk_names_sequential (messages : list MessageWithParts) (sid : string) :
  map chunk_id (createChunks messages sid) =
    chunkNames 0 (length (createChunks messages sid)) /\
  List.NoDup (map chunk_id (createChunks messages sid)) /\
  length (createChunks messages sid) =
    length (List.filter producesContent messages) /\
  (length (createChunks messages sid) <= length messages)%nat /\
  Forall (fun c => chunk_sessionID c = sid) (createChunks messages sid).
Proof.
  unfold createChunks. split; [apply createChunksFrom_names|].
  split; [rewrite createChunksFrom_names; apply chunkNames_NoDup|].
  split; [apply createChunksFrom_length|]. split.
  - rewrite createChunksFrom_length. apply filter_length_le.
  - apply List.Forall_forall. intros c Hc.
    now destruct (createChunksFrom_origin _ _ _ _ Hc) as (m & _ & _ & H & _).
Qed.

(** X20.  Every chunk comes from a message of the list with a part that
    has content, and takes its message identifier, role and time from it;
    its part types are the types of all the parts of that message, each
    listed once. *)
Theorem chunk_part_types (messages : list MessageWithParts) (sid : string)
    (chunk : TranscriptChunk) :
  In chunk (createChunks messages sid) ->
  exists msg,
    In msg messages /\ producesContent msg = true /\
    messageID chunk = info_id msg /\
    role chunk = info_role msg /\
    timestamp chunk = info_time_created msg /\
    List.NoDup (partTypes chunk) /\
    forall ty, In ty (partTypes chunk) <->
               exists part, In part (parts msg) /\ partType part = ty.
Proof.
  intros H. destruct (createChunksFrom_origin _ _ _ _ H)
    as (msg & Hm & Hp & _ & H1 & H2 & H3 & _ & H5).
  exists msg. repeat (split; [assumption|]). rewrite H5.
  split; [apply dedupe_NoDup|]. intros ty. rewrite dedupe_In, in_map_iff.
  split; intros (p & Ha & Hb); exists p; auto.
Qed.

Lemma chunk_part_types_witness :
  exists msg,
    In msg [Sample.toolMessage] /\ producesContent msg = true /\
    messageID (Sample.toolChunk) = info_id msg /\
    role (Sample.toolChunk) = info_role msg /\
    timestamp (Sample.toolChunk) = info_time_created msg /\
    List.NoDup (partTypes Sample.toolChunk) /\
    forall ty, In ty (partTypes Sample.toolChunk) <->
               exists part, In part (parts msg) /\ partType part = ty.
Proof.
  apply (chunk_part_types [Sample.toolMessage] "ses_1" Sample.toolChunk).
  left. reflexivity.
Defined.

Lemma createChunksFrom_app (messages more : list MessageWithParts) (sid : string) :
  forall n,
    createChunksFrom n (messages ++ more) sid =
    createChunksFrom n messages sid ++
    createChunksFrom (n + length (createChunksFrom n messages sid)) more sid.
Proof.
  induction messages as [|msg rest IH]; intros n.
  - cbn. now rewrite Nat.add_0_r.
  - cbn [app createChunksFrom]. destruct (contentParts msg); [apply IH|].
    cbn [app length]. rewrite IH. do 3 f_equal. lia.
Qed.

(** X21.  Messages appended to a list leave its chunks as they are: the
    chunks of the longer list are those of the shorter, with the same
    names, followed by the chunks of the messages appended, numbered on. *)
Theorem chunks_of_appended_messages (messages more : list MessageWithParts)
    (sid : string) :
  createChunks (messages ++ more) sid =
    createChunks messages sid ++
    createChunksFrom (length (createChunks messages sid)) more sid /\
  (forall name,
     In name (map chunkFile (createChunks messages sid)) ->
     In name (map chunkFile (createChunks (messages ++ more) sid))).
Proof.
  assert (H : createChunks (messages ++ more) sid =
              createChunks messages sid ++
              createChunksFrom (length (createChunks messages sid)) more sid).
  { unfold createChunks. now rewrite createChunksFrom_app. }
  split; [exact H|]. intros name Hn. rewrite H, map_app. apply in_or_app. now left.
Qed.

(** ** Events: saving a session that grows *)

(** The transcript stored after a save that names again every chunk
    file found. *)
Lemma stored_after_save (t : Transcript) (d : Disk) :
  List.NoDup (map chunk_id (chunks t)) ->
  List.NoDup (Assoc.keys (chunkFilesOf d (sessionID (metadata t)))) ->
  (forall name,
     In name (Assoc.keys (chunkFilesOf d (sessionID (metadata t)))) ->
     In name (map chunkFile (chunks t))) ->
  exists cs,
    stored (savedOver t d) (sessionID (metadata t)) =
      Some {| metadata := metadata t; markdown := markdown t; text := text t;
              chunks := cs |} /\
    Permutation cs (chunks t) /\ Sorted timestampLe cs.
Proof.
  intros Hids Hfiles Hcover.
  destruct (writtenChunks_covering (chunks t) _ Hids Hfiles Hcover) as (cs' & HE & Hperm).
  exists (stableSort byTimestamp cs'). split; [|split].
  - unfold stored, metadataOf, markdownOf, textOf, savedOver. cbn [session_dirs].
    rewrite lookup_insert_eq. cbn. do 2 f_equal.
    unfold loadChunks, savedDir. cbn [chunks_dir].
    unfold chunkFilesOf in HE. rewrite HE, readChunkFiles_entries. reflexivity.
  - now rewrite stableSort_perm.
  - apply stableSort_sorted.
Qed.

Lemma chunkFilesOf_savedOver (t : Transcript) (d : Disk) :
  chunkFilesOf (savedOver t d) (sessionID (metadata t)) =
  writtenChunks (chunks t) (chunkFilesOf d (sessionID (metadata t))).
Proof.
  unfold chunkFilesOf at 1, savedOver. cbn [session_dirs].
  rewrite lookup_insert_eq. reflexivity.
Qed.

Lemma saveSessionTranscript_saved (input : PluginInput) (now : Z)
    (sid title : string) (flag : bool) (msg : MessageWithParts)
    (msgs : list MessageWithParts) (d : Disk) :
  session_get (client input) sid = Some title ->
  session_messages (client input) sid = msg :: msgs ->
  saveSessionTranscript input now sid flag d =
  (Ok (Some (join (join (TRANSCRIPT_DIR d) sid) "transcript.md")),
   savedOver (buildTranscript (render input) now (msg :: msgs) sid (project_id input)
                title (input_directory input) (input_worktree input) flag) d).
Proof.
  intros Hget Hmsgs. unfold saveSessionTranscript. rewrite Hget, Hmsgs.
  unfold tryCatch. rewrite (bind_ok _ _ _ _ _ (saveTranscript_run _ d)). reflexivity.
Qed.

Lemma event_idle_run (input : PluginInput) (now : Z) (sid title : string)
    (msg : MessageWithParts) (msgs : list MessageWithParts) (d : Disk) :
  session_get (client input) sid = Some title ->
  session_messages (client input) sid = msg :: msgs ->
  event input now (SessionIdle sid) d =
  (Ok tt,
   savedOver (buildTranscript (render input) now (msg :: msgs) sid (project_id input)
                title (input_directory input) (input_worktree input) false) d).
Proof.
  intros Hget Hmsgs. unfold event.
  rewrite (bind_ok _ _ _ _ _
             (saveSessionTranscript_saved input now sid title false msg msgs d Hget Hmsgs)).
  reflexivity.
Qed.

(** X22.  A session saved on [session.idle] and saved again after more
    messages arrived is loaded as its latest state: on a disk without the
    session, two idle events, the second with the messages of the first
    followed by others, leave a transcript whose message count is that of
    the longer list and whose chunks are the chunks of the longer list,
    in the order of their timestamps. *)
Theorem growing_session_round_trip (input1 input2 : PluginInput) (now1 now2 : Z)
    (sid title1 title2 : string) (msg : MessageWithParts)
    (msgs more : list MessageWithParts) (d : Disk) :
  session_dirs d !! sid = None ->
  session_get (client input1) sid = Some title1 ->
  session_messages (client input1) sid = msg :: msgs ->
  session_get (client input2) sid = Some title2 ->
  session_messages (client input2) sid = (msg :: msgs) ++ more ->
  exists d1 d2 t,
    event input1 now1 (SessionIdle sid) d = (Ok tt, d1) /\
    event input2 now2 (SessionIdle sid) d1 = (Ok tt, d2) /\
    loadTranscript sid d2 = (Ok (Some t), d2) /\
    title (metadata t) = title2 /\
    updatedAt (metadata t) = now2 /\
    messageCount (metadata t) = Z.of_nat (length ((msg :: msgs) ++ more)) /\
    Permutation (chunks t) (createChunks ((msg :: msgs) ++ more) sid) /\
    Sorted timestampLe (chunks t).
Proof.
  intros Hfresh Hget1 Hm1 Hget2 Hm2.
  set (t1 := buildTranscript (render input1) now1 (msg :: msgs) sid (project_id input1)
               title1 (input_directory input1) (input_worktree input1) false).
  set (t2 := buildTranscript (render input2) now2 ((msg :: msgs) ++ more) sid
               (project_id input2) title2 (input_directory input2)
               (input_worktree input2) false).
  set (d1 := savedOver t1 d).
  assert (Hfiles1 : chunkFilesOf d1 sid = writtenChunks (chunks t1) []).
  { pose proof (chunkFilesOf_savedOver t1 d) as H.
    change (sessionID (metadata t1)) with sid in H. unfold d1. rewrite H.
    unfold chunkFilesOf. now rewrite Hfresh. }
  assert (Hnames : forall (ms : list MessageWithParts),
            List.NoDup (map chunk_id (createChunks ms sid))).
  { intros ms. unfold createChunks. rewrite createChunksFrom_names.
    apply chunkNames_NoDup. }
  destruct (stored_after_save t2 d1) as (cs & Hst & Hperm & Hsorted).
  - apply Hnames.
  - change (sessionID (metadata t2)) with sid. rewrite Hfiles1.
    apply NoDup_keys_writtenChunks. constructor.
  - change (sessionID (metadata t2)) with sid. rewrite Hfiles1.
    intros name Hn. apply keys_writtenChunks in Hn as [[]|Hn].
    cbn [chunks t1 t2 buildTranscript] in *.
    unfold createChunks. rewrite createChunksFrom_app, map_app.
    apply in_or_app. now left.
  - exists d1, (savedOver t2 d1), {| metadata := metadata t2; markdown := markdown t2;
                                     text := text t2; chunks := cs |}.
    split; [apply (event_idle_run input1 now1 sid title1 msg msgs d Hget1 Hm1)|].
    split.
    { assert (Hm2' : session_messages (client input2) sid = msg :: (msgs ++ more))
        by exact Hm2.
      apply (event_idle_run input2 now2 sid title2 msg (msgs ++ more) d1 Hget2 Hm2'). }
    split; [rewrite loadTranscript_run; do 2 f_equal; exact Hst|].
    cbn [metadata chunks]. repeat split; try reflexivity; assumption.
Qed.

Lemma growing_session_round_trip_witness :
  exists d1 d2 t,
    event Sample.host 1000 (SessionIdle "ses_1") Sample.emptyDisk = (Ok tt, d1) /\
    event Sample.grownHost 2000 (SessionIdle "ses_1") d1 = (Ok tt, d2) /\
    loadTranscript "ses_1" d2 = (Ok (Some t), d2) /\
    title (metadata t) = "Upload path" /\
    updatedAt (metadata t) = 2000 /\
    messageCount (metadata t) =
      Z.of_nat (length ((Sample.firstMessage :: []) ++ [Sample.toolMessage])) /\
    Permutation (chunks t)
      (createChunks ((Sample.firstMessage :: []) ++ [Sample.toolMessage]) "ses_1") /\
    Sorted timestampLe (chunks t).
Proof.
  apply (growing_session_round_trip Sample.host Sample.grownHost 1000 2000 "ses_1"
           "Upload path" "Upload path" Sample.firstMessage [] [Sample.toolMessage]
           Sample.emptyDisk); reflexivity.
Defined.

(** ** Events that save nothing, and what an event leaves alone *)

(** X23.  When the host does not return the session, or returns no
    message for it, nothing is saved: [saveSessionTranscript] answers
    with no path, and the idle event, the compacted event and the
    compacting hook leave the disk as it is. *)
Theorem nothing_to_save (input : PluginInput) (now : Z) (sid : string)
    (flag : bool) (d : Disk) :
  session_get (client input) sid = None \/ session_messages (client input) sid = [] ->
  saveSessionTranscript input now sid flag d = (Ok None, d) /\
  event input now (SessionIdle sid) d = (Ok tt, d) /\
  event input now (SessionCompacted sid) d = (Ok tt, d) /\
  compacting input now sid d = (Ok None, d).
Proof.
  intros H.
  assert (Hsave : forall b, saveSessionTranscript input now sid b d = (Ok None, d)).
  { intros b. unfold saveSessionTranscript.
    destruct (session_get (client input) sid) as [title|]; [|reflexivity].
    destruct H as [H|H]; [discriminate|]. now rewrite H. }
  split; [apply Hsave|]. unfold event, compacting.
  rewrite !(bind_ok _ _ _ _ _ (Hsave _)). auto.
Qed.

Lemma nothing_to_save_witness :
  saveSessionTranscript Sample.host 1000 "ses_404" false Sample.savedDisk
    = (Ok None, Sample.savedDisk).
Proof.
  apply (nothing_to_save Sample.host 1000 "ses_404" false Sample.savedDisk).
  left. reflexivity.
Defined.

Lemma saveSessionTranscript_frame (input : PluginInput) (now : Z) (sid : string)
    (flag : bool) (d : Disk) :
  exists r d',
    saveSessionTranscript input now sid flag d = (Ok r, d') /\
    forall other, other <> sid ->
      session_dirs d' !! other = session_dirs d !! other /\
      indexEntry d' other = indexEntry d other.
Proof.
  unfold saveSessionTranscript.
  destruct (session_get (client input) sid) as [title|]; [|exists None, d; auto].
  destruct (session_messages (client input) sid) as [|msg msgs]; [exists None, d; auto|].
  set (t := buildTranscript _ _ _ _ _ _ _ _ _).
  exists (Some (join (join (TRANSCRIPT_DIR d) sid) "transcript.md")), (savedOver t d).
  split.
  - unfold tryCatch. rewrite (bind_ok _ _ _ _ _ (saveTranscript_run t d)). reflexivity.
  - intros other Hne. unfold indexEntry, savedOver. cbn. split.
    + now apply lookup_insert_ne.
    + rewrite get_set. destruct (String.eqb_spec sid other); [congruence | reflexivity].
Qed.

(** X24.  The event hook never throws, whatever the host answers; an
    event of a session leaves the directories, the stored transcripts and
    the index entries of the other sessions as they are, and an event of
    another type leaves the disk as it is. *)
Theorem event_touches_one_session (input : PluginInput) (now : Z) (e : Event)
    (d : Disk) :
  exists d',
    event input now e d = (Ok tt, d') /\
    (e = OtherEvent -> d' = d) /\
    forall sid other,
      e = SessionIdle sid \/ e = SessionCompacted sid -> other <> sid ->
      session_dirs d' !! other = session_dirs d !! other /\
      stored d' other = stored d other /\
      indexEntry d' other = indexEntry d other.
Proof.
  destruct e as [sid|sid|].
  - destruct (saveSessionTranscript_frame input now sid false d) as (r & d' & Hrun & Hf).
    exists d'. unfold event. rewrite (bind_ok _ _ _ _ _ Hrun).
    split; [reflexivity|]. split; [discriminate|].
    intros s other [[= <-]|[=]] Hne. destruct (Hf other Hne) as [H1 H2].
    split; [exact H1|]. split; [now apply stored_ext | exact H2].
  - destruct (saveSessionTranscript_frame input now sid true d) as (r & d' & Hrun & Hf).
    exists d'. unfold event. rewrite (bind_ok _ _ _ _ _ Hrun).
    split; [reflexivity|]. split; [discriminate|].
    intros s other [[=]|[= <-]] Hne. destruct (Hf other Hne) as [H1 H2].
    split; [exact H1|]. split; [now apply stored_ext | exact H2].
  - exists d. split; [reflexivity|]. split; [reflexivity|].
    intros s other [[=]|[=]].
Qed.

(** ** The renderers *)

Lemma flat_map_filter_nil {A B : Type} (keep : A -> bool) (f : A -> list B)
    (l : list A) :
  (forall x, keep x = false -> f x = []) ->
  flat_map f (List.filter keep l) = flat_map f l.
Proof.
  intros H. induction l as [|x l IH]; [reflexivity|].
  cbn [List.filter flat_map]. destruct (keep x) eqn:Hx.
  - cbn [flat_map]. now rewrite IH.
  - now rewrite (H x Hx), IH.
Qed.

Lemma flat_map_map_same {A B : Type} (g : A -> A) (f : A -> list B) (l : list A) :
  (forall x, f (g x) = f x) -> flat_map f (map g l) = flat_map f l.
Proof.
  intros H. induction l as [|x l IH]; [reflexivity|].
  cbn [map flat_map]. now rewrite H, IH.
Qed.

Lemma includes_trans (a b c : string) :
  includes a b = true -> includes b c = true -> includes a c = true.
Proof.
  rewrite !includes_iff. intros (p1 & q1 & ->) (p2 & q2 & ->).
  exists (p1 +:+ p2), (q2 +:+ q1). now rewrite !append_assoc.
Qed.

Lemma includes_empty (s : string) : includes s EmptyString = true.
Proof. apply includes_iff. now exists EmptyString, s. Qed.

Lemma join_cons (sep x : string) (l : list string) :
  JsString.join sep (x :: l) =
  match l with
  | [] => x
  | _ :: _ => x +:+ sep +:+ JsString.join sep l
  end.
Proof. destruct l; reflexivity. Qed.

Lemma In_join_includes (sep s : string) (l : list string) :
  In s l -> includes (JsString.join sep l) s = true.
Proof.
  induction l as [|x l IH]; [contradiction|].
  intros [->|Hin]; rewrite join_cons.
  - destruct l.
    + apply includes_iff. exists EmptyString, EmptyString.
      now rewrite append_nil, append_empty_r.
    + apply includes_iff. now exists EmptyString, (sep +:+ JsString.join sep (s0 :: l)).
  - destruct l as [|y l]; [contradiction|].
    apply (includes_trans _ (JsString.join sep (y :: l))); [|now apply IH].
    apply includes_iff. exists (x +:+ sep), EmptyString.
    now rewrite append_empty_r, append_assoc.
Qed.

Lemma pushFormatted_includes (sep : string) (l : list string)
    (formatted : option string) (s : string) :
  formatted = Some s ->
  (forall x, In x (Rendering.pushFormatted formatted) -> In x l) ->
  includes (JsString.join sep l) s = true.
Proof.
  intros -> H. destruct s as [|c s]; [apply includes_empty|].
  apply In_join_includes, H. now left.
Qed.

Lemma contentParts_withoutInternal (msg : MessageWithParts) :
  contentParts (withoutInternal msg) = contentParts msg.
Proof.
  unfold contentParts, withoutInternal. cbn [parts].
  apply flat_map_filter_nil. now intros [] H.
Qed.

Lemma createChunksFrom_skip (pre post : list MessageWithParts)
    (msg : MessageWithParts) (sid : string) :
  contentParts msg = [] ->
  createChunks (pre ++ msg :: post) sid = createChunks (pre ++ post) sid.
Proof.
  intros H. unfold createChunks. rewrite !createChunksFrom_app.
  cbn [createChunksFrom]. now rewrite H.
Qed.

Section RenderingFacts.

Variables toISOString toLocaleString : Z -> string.
Variable indent : string -> string.


Lemma markdownLinesOf_withoutInternal (msg : MessageWithParts) :
  Rendering.markdownLinesOf toLocaleString indent (withoutInternal msg) =
  Rendering.markdownLinesOf toLocaleString indent msg.
Proof.
  unfold Rendering.markdownLinesOf, withoutInternal.
  cbn [parts info_role info_time_created]. do 2 f_equal.
  apply flat_map_filter_nil. now intros [] H.
Qed.

Lemma textLinesOf_withoutInternal (msg : MessageWithParts) :
  Rendering.textLinesOf toLocaleString indent (withoutInternal msg) =
  Rendering.textLinesOf toLocaleString indent msg.
Proof.
  unfold Rendering.textLinesOf, withoutInternal.
  cbn [parts info_role info_time_created]. do 2 f_equal.
  apply flat_map_filter_nil. now intros [] H.
Qed.

Lemma part_in_markdown (messages : list MessageWithParts) (msg : MessageWithParts)
    (part : Part) (title s : string) (now : Z) :
  In msg messages -> In part (parts msg) ->
  Rendering.formatPartMarkdown indent part = Some s ->
  includes (Rendering.formatMessagesToMarkdown toISOString toLocaleString indent
       messages title now) s = true.
Proof.
  intros Hmsg Hpart Hs. unfold Rendering.formatMessagesToMarkdown.
  apply (pushFormatted_includes _ _ _ _ Hs). intros x Hx.
  unfold Rendering.markdownLines. apply in_or_app. right.
  apply in_flat_map. exists msg. split; [exact Hmsg|].
  unfold Rendering.markdownLinesOf. apply in_or_app. right. apply in_or_app. left.
  apply in_flat_map. now exists part.
Qed.

Lemma part_in_text (messages : list MessageWithParts) (msg : MessageWithParts)
    (part : Part) (title s : string) (now : Z) :
  In msg messages -> In part (parts msg) ->
  Rendering.formatPartText indent part = Some s ->
  includes (Rendering.formatMessagesToText toISOString toLocaleString indent
       messages title now) s = true.
Proof.
  intros Hmsg Hpart Hs. unfold Rendering.formatMessagesToText.
  apply (pushFormatted_includes _ _ _ _ Hs). intros x Hx.
  unfold Rendering.textLines. apply in_or_app. right.
  apply in_flat_map. exists msg. split; [exact Hmsg|].
  unfold Rendering.textLinesOf. apply in_or_app. right. apply in_or_app. left.
  apply in_flat_map. now exists part.
Qed.

(** X25.  The parts that keep the books of a step ([step-start],
    [step-finish], [snapshot], [patch]) leave no text: without them the
    Markdown and the plain-text transcript of a list of messages are the
    same, and so are its chunks, up to the part types they record. *)
Theorem internal_parts_leave_no_text (messages : list MessageWithParts)
    (title sid : string) (now : Z) :
  Rendering.formatMessagesToMarkdown toISOString toLocaleString indent
    (map withoutInternal messages) title now =
  Rendering.formatMessagesToMarkdown toISOString toLocaleString indent
    messages title now /\
  Rendering.formatMessagesToText toISOString toLocaleString indent
    (map withoutInternal messages) title now =
  Rendering.formatMessagesToText toISOString toLocaleString indent
    messages title now /\
  map withoutPartTypes (createChunks (map withoutInternal messages) sid) =
  map withoutPartTypes (createChunks messages sid).
Proof.
  split; [|split].
  - unfold Rendering.formatMessagesToMarkdown, Rendering.markdownLines.
    rewrite length_map.
    now rewrite (flat_map_map_same _ _ _ markdownLinesOf_withoutInternal).
  - unfold Rendering.formatMessagesToText, Rendering.textLines.
    rewrite length_map.
    now rewrite (flat_map_map_same _ _ _ textLinesOf_withoutInternal).
  - unfold createChunks. generalize 0%nat.
    induction messages as [|msg rest IH]; intros n; [reflexivity|].
    cbn [map createChunksFrom]. rewrite contentParts_withoutInternal.
    destruct (contentParts msg); [apply IH|].
    cbn [map]. rewrite IH. reflexivity.
Qed.

(** X26.  What a message says is shown and can be found: the text of a
    text part or of a reasoning part of a message appears as it is in the
    Markdown transcript, in the plain-text transcript, and in the content
    of a chunk made for that message. *)
Theorem text_shown_and_searchable (messages : list MessageWithParts)
    (msg : MessageWithParts) (said title sid : string) (now : Z) :
  In msg messages ->
  In (TextPart said) (parts msg) \/ In (ReasoningPart said) (parts msg) ->
  includes (Rendering.formatMessagesToMarkdown toISOString toLocaleString indent
       messages title now) said = true /\
  includes (Rendering.formatMessagesToText toISOString toLocaleString indent
       messages title now) said = true /\
  exists chunk,
    In chunk (createChunks messages sid) /\
    messageID chunk = info_id msg /\
    timestamp chunk = info_time_created msg /\
    includes (content chunk) said = true.
Proof.
  intros Hmsg Hpart.
  assert (Hc : In said (contentParts msg)).
  { unfold contentParts. apply in_flat_map.
    destruct Hpart as [H|H]; eexists; (split; [exact H|]); now left. }
  split; [|split].
  - destruct Hpart as [H|H].
    + now apply (part_in_markdown messages msg (TextPart said)).
    + eapply includes_trans;
        [apply (part_in_markdown messages msg (ReasoningPart said) title _ now Hmsg H);
         reflexivity|].
      apply includes_iff.
      exists ("<details>" +:+ Rendering.newline +:+ "<summary>Reasoning</summary>"
              +:+ Rendering.newline +:+ Rendering.newline),
             (Rendering.newline +:+ Rendering.newline +:+ "</details>").
      now rewrite !append_assoc.
  - destruct Hpart as [H|H].
    + now apply (part_in_text messages msg (TextPart said)).
    + eapply includes_trans;
        [apply (part_in_text messages msg (ReasoningPart said) title _ now Hmsg H);
         reflexivity|].
      apply includes_iff.
      exists ("[REASONING]" +:+ Rendering.newline),
             (Rendering.newline +:+ "[/REASONING]").
      now rewrite !append_assoc.
  - assert (Hne : contentParts msg <> []) by (intros E; now rewrite E in Hc).
    destruct (createChunksFrom_In messages sid msg Hmsg Hne 0%nat)
      as (chunk & Hin & Hid & _ & Hts & Hcontent).
    exists chunk. repeat split; try assumption.
    rewrite Hcontent. now apply In_join_includes.
Qed.

(** X27.  A file and the mark of a compaction are shown and cannot be
    found: a message that holds nothing else (but the books of a step)
    makes no chunk, so the chunks are those of the other messages, while
    each such part is rendered, with a text that is not empty, in the
    Markdown and in the plain-text transcript. *)
Theorem attachment_shown_not_searchable (pre post : list MessageWithParts)
    (msg : MessageWithParts) (title sid : string) (now : Z) :
  (forall part, In part (parts msg) -> attachment part || internal part = true) ->
  createChunks (pre ++ msg :: post) sid = createChunks (pre ++ post) sid /\
  forall part, In part (parts msg) -> attachment part = true ->
    exists shown plain,
      Rendering.formatPartMarkdown indent part = Some shown /\
      Rendering.formatPartText indent part = Some plain /\
      truthy shown = true /\ truthy plain = true /\
      includes (Rendering.formatMessagesToMarkdown toISOString toLocaleString indent
       (pre ++ msg :: post) title now) shown = true /\
      includes (Rendering.formatMessagesToText toISOString toLocaleString indent
       (pre ++ msg :: post) title now) plain = true.
Proof.
  intros Hparts. split.
  - apply createChunksFrom_skip. unfold contentParts.
    induction (parts msg) as [|part rest IH]; [reflexivity|].
    cbn [flat_map]. rewrite IH by (intros p Hp; apply Hparts; now right).
    specialize (Hparts part (or_introl eq_refl)). now destruct part.
  - intros part Hin Hatt.
    assert (Hmsg : In msg (pre ++ msg :: post)) by (apply in_or_app; right; now left).
    destruct part as [| | |filename url| | | | |]; try discriminate.
    + eexists _, _. split; [reflexivity|]. split; [reflexivity|].
      split; [reflexivity|]. split; [reflexivity|]. split.
      * now apply (part_in_markdown _ msg (FilePart filename url)).
      * now apply (part_in_text _ msg (FilePart filename url)).
    + eexists _, _. split; [reflexivity|]. split; [reflexivity|].
      split; [reflexivity|]. split; [reflexivity|]. split.
      * now apply (part_in_markdown _ msg CompactionPart).
      * now apply (part_in_text _ msg CompactionPart).
Qed.

End RenderingFacts.

Lemma text_shown_and_searchable_witness :
  includes
    (Rendering.formatMessagesToMarkdown Sample.isoDate Sample.localDate Sample.indentJson
       [Sample.firstMessage; Sample.toolMessage] "Upload path" 1000)
    "where do uploads go?" = true /\
  includes
    (Rendering.formatMessagesToText Sample.isoDate Sample.localDate Sample.indentJson
       [Sample.firstMessage; Sample.toolMessage] "Upload path" 1000)
    "where do uploads go?" = true /\
  exists chunk,
    In chunk (createChunks [Sample.firstMessage; Sample.toolMessage] "ses_1") /\
    messageID chunk = info_id Sample.firstMessage /\
    timestamp chunk = info_time_created Sample.firstMessage /\
    includes (content chunk) "where do uploads go?" = true.
Proof.
  apply (text_shown_and_searchable Sample.isoDate Sample.localDate Sample.indentJson
           [Sample.firstMessage; Sample.toolMessage] Sample.firstMessage).
  - left. reflexivity.
  - left. left. reflexivity.
Defined.

Lemma attachment_shown_not_searchable_witness :
  createChunks ([Sample.firstMessage] ++ Sample.attachmentMessage :: [Sample.toolMessage])
    "ses_1" =
  createChunks ([Sample.firstMessage] ++ [Sample.toolMessage]) "ses_1" /\
  forall part, In part (parts Sample.attachmentMessage) -> attachment part = true ->
    exists shown plain,
      Rendering.formatPartMarkdown Sample.indentJson part = Some shown /\
      Rendering.formatPartText Sample.indentJson part = Some plain /\
      truthy shown = true /\ truthy plain = true /\
      includes
        (Rendering.formatMessagesToMarkdown Sample.isoDate Sample.localDate
           Sample.indentJson
           ([Sample.firstMessage] ++ Sample.attachmentMessage :: [Sample.toolMessage])
           "Upload path" 1000) shown = true /\
      includes
        (Rendering.formatMessagesToText Sample.isoDate Sample.localDate
           Sample.indentJson
           ([Sample.firstMessage] ++ Sample.attachmentMessage :: [Sample.toolMessage])
           "Upload path" 1000) plain = true.
Proof.
  apply (attachment_shown_not_searchable Sample.isoDate Sample.localDate
           Sample.indentJson [Sample.firstMessage] [Sample.toolMessage]
           Sample.attachmentMessage "Upload path" "ses_1" 1000).
  intros part [<-|[<-|[]]]; reflexivity.
Defined.

(** ** The tools *)

Lemma listLines_run (toLocaleString : Z -> string) (context : Tools.ToolContext)
    (transcripts : list TranscriptMetadata) (d : Disk) :
  Tools.listLines toLocaleString context transcripts d =
  (Ok (flat_map
         (fun t => Tools.listLinesOf toLocaleString context
                     (join (join (TRANSCRIPT_DIR d) (sessionID t)) "transcript.md") t)
         transcripts), d).
Proof.
  induction transcripts as [|t rest IH]; [reflexivity|].
  cbn [Tools.listLines flat_map].
  rewrite (bind_ok _ _ _ _ _ (getTranscriptPath_run _ d)).
  rewrite (bind_ok _ _ _ _ _ IH). reflexivity.
Qed.

Lemma found_is_no_refusal (rest refusal : string) (lines : list string) :
  startsWith refusal "N" = true ->
  JsString.join Tools.newline (("Found " +:+ rest) :: lines) <> refusal.
Proof.
  intros Hn E. rewrite join_cons in E.
  destruct lines; rewrite <- E in Hn; simpl_append; discriminate.
Qed.

Lemma sliceTo_nil_iff {A : Type} (l : list A) (n : Z) :
  (0 < n)%Z -> sliceTo l n = [] <-> l = [].
Proof.
  intros Hn. unfold sliceTo, clampIndex.
  destruct (n <? 0)%Z eqn:E; [lia|].
  destruct l as [|x l]; [now destruct (Z.to_nat _)|].
  split; [|discriminate]. cbn [length].
  destruct (Z.to_nat (Z.min n (Z.of_nat (S (length l))))) eqn:Hk; [lia|discriminate].
Qed.

Lemma stableSort_nil_iff {A : Type} (le : A -> A -> bool) (l : list A) :
  stableSort le l = [] <-> l = [].
Proof.
  split; [|now intros ->]. intros H.
  pose proof (stableSort_perm le l) as Hp. rewrite H in Hp.
  now apply Permutation_nil in Hp.
Qed.

Lemma filter_nil_iff {A : Type} (f : A -> bool) (l : list A) :
  List.filter f l = [] <-> forall x, In x l -> f x = false.
Proof.
  induction l as [|x l IH]; cbn [List.filter].
  - split; [intros _ y [] | reflexivity].
  - destruct (f x) eqn:Hx.
    + split; [discriminate|]. intros H. specialize (H x (or_introl eq_refl)). congruence.
    + rewrite IH. split.
      * intros H y [<-|Hy]; [exact Hx | now apply H].
      * intros H y Hy. apply H. now right.
Qed.

(** X28.  [list_transcripts] never fails and changes nothing.  Under a
    limit that is not negative it answers that there are no transcripts
    exactly when the index (empty when it cannot be read) has no entry of
    the session it is restricted to; [allSessions] plays no part in that.
    With the limit 0 every such entry is listed, with its session and the
    path of its transcript. *)
Theorem list_tool_answers (toLocaleString : Z -> string) (args : Tools.ListArgs)
    (context : Tools.ToolContext) (d : Disk) :
  (0 <= default 20 (Tools.list_limit args))%Z ->
  exists out,
    Tools.listTranscriptsTool toLocaleString args context d = (Ok out, d) /\
    (out = Tools.noTranscripts <->
     forall m, In m (Assoc.values (transcripts (currentIndex d))) ->
               selected None (sessionFilter args context) m = false) /\
    (Tools.list_limit args = Some 0%Z ->
     forall m, In m (Assoc.values (transcripts (currentIndex d))) ->
               selected None (sessionFilter args context) m = true ->
       includes out ("  Session: " +:+ sessionID m) = true /\
       includes out ("  Path: " +:+
                     join (join (TRANSCRIPT_DIR d) (sessionID m)) "transcript.md") = true).
Proof.
  intros Hlimit.
  set (sorted := stableSort byUpdatedAtDesc
                   (List.filter (selected None (sessionFilter args context))
                      (Assoc.values (transcripts (currentIndex d))))).
  set (limit := default 20 (Tools.list_limit args)) in *.
  set (listed := match truthyNumber (Some limit) with
                 | Some n => sliceTo sorted n
                 | None => sorted
                 end).
  assert (Hlist :
    (if default false (Tools.currentSession args) then
       listTranscripts
         {| opt_projectID := None;
            opt_sessionID := Some (Tools.context_sessionID context);
            opt_limit := Some limit |}
     else if default false (Tools.allSessions args) then
       listTranscripts
         {| opt_projectID := None; opt_sessionID := None; opt_limit := Some limit |}
     else
       listTranscripts
         {| opt_projectID := None; opt_sessionID := None; opt_limit := Some limit |}) d
    = (Ok listed, d)).
  { unfold listed, sorted, sessionFilter.
    destruct (default false (Tools.currentSession args));
      [|destruct (default false (Tools.allSessions args))];
      now rewrite listTranscripts_run. }
  assert (Hempty : listed = [] <->
            forall m, In m (Assoc.values (transcripts (currentIndex d))) ->
                      selected None (sessionFilter args context) m = false).
  { rewrite <- filter_nil_iff.
    transitivity (sorted = []); [|apply stableSort_nil_iff].
    unfold listed, truthyNumber. destruct (limit =? 0)%Z eqn:E; [reflexivity|].
    apply sliceTo_nil_iff. lia. }
  unfold Tools.listTranscriptsTool. fold limit.
  rewrite (bind_ok _ _ _ _ _ Hlist).
  destruct listed as [|t rest] eqn:Hl.
  - exists Tools.noTranscripts. split; [reflexivity|]. split.
    + split; [intros _; now apply Hempty | reflexivity].
    + intros H0 m Hm Hsel. rewrite (proj1 Hempty eq_refl m Hm) in Hsel. discriminate.
  - rewrite (bind_ok _ _ _ _ _ (listLines_run toLocaleString context (t :: rest) d)).
    eexists. split; [reflexivity|]. split.
    + split.
      * intros E. exfalso. revert E. now apply found_is_no_refusal.
      * intros H. apply Hempty in H. discriminate.
    + intros H0 m Hm Hsel.
      assert (Hin : In m (t :: rest)).
      { rewrite <- Hl. unfold listed, limit. rewrite H0. cbn [default truthyNumber Z.eqb].
        unfold sorted. apply (Permutation_in _ (Permutation_sym (stableSort_perm _ _))).
        apply filter_In. now split. }
      split; apply In_join_includes; right; apply in_flat_map; exists m;
        (split; [exact Hin|]); unfold Tools.listLinesOf; cbn [In]; tauto.
Qed.

Lemma list_tool_answers_witness :
  exists out,
    Tools.listTranscriptsTool Sample.localDate Sample.listAll Sample.toolContext
      Sample.savedDisk = (Ok out, Sample.savedDisk) /\
    (out = Tools.noTranscripts <->
     forall m, In m (Assoc.values (transcripts (currentIndex Sample.savedDisk))) ->
               selected None (sessionFilter Sample.listAll Sample.toolContext) m = false) /\
    (Tools.list_limit Sample.listAll = Some 0%Z ->
     forall m, In m (Assoc.values (transcripts (currentIndex Sample.savedDisk))) ->
               selected None (sessionFilter Sample.listAll Sample.toolContext) m = true ->
       includes out ("  Session: " +:+ sessionID m) = true /\
       includes out ("  Path: " +:+
                     join (join (TRANSCRIPT_DIR Sample.savedDisk) (sessionID m))
                       "transcript.md") = true).
Proof.
  apply (list_tool_answers Sample.localDate Sample.listAll Sample.toolContext
           Sample.savedDisk).
  vm_compute. discriminate.
Defined.

(** X29.  [recall_transcript] with [fullTranscript] returns what the last
    save rendered.  For the session asked for, or the current one when
    none is: while the session has no directory the tool answers that no
    transcript is found; after a [session.idle] event of a host that has
    the session with a message, it returns the Markdown transcript of the
    messages, the plain-text one, or both under their headings, as the
    format asks (Markdown when none is given). *)
Theorem recall_full_transcript (toISOString toLocaleString : Z -> string)
    (indent : string -> string) (input : PluginInput) (now : Z)
    (sid title : string) (msg : MessageWithParts) (msgs : list MessageWithParts)
    (args : Tools.RecallArgs) (context : Tools.ToolContext) (d : Disk) :
  render input = Rendering.renderers toISOString toLocaleString indent ->
  session_get (client input) sid = Some title ->
  session_messages (client input) sid = msg :: msgs ->
  Tools.fullTranscript args = Some true ->
  default (Tools.context_sessionID context) (Tools.recall_sessionID args) = sid ->
  (session_dirs d !! sid = None ->
   Tools.recallTranscriptTool toLocaleString args context d =
   (Ok ("No transcript found for session " +:+ sid), d)) /\
  exists d',
    event input now (SessionIdle sid) d = (Ok tt, d') /\
    Tools.recallTranscriptTool toLocaleString args context d' =
    (Ok (let shown := Rendering.formatMessagesToMarkdown toISOString toLocaleString
                        indent (msg :: msgs) title now in
         let plain := Rendering.formatMessagesToText toISOString toLocaleString
                        indent (msg :: msgs) title now in
         match Tools.format args with
         | None | Some Tools.FormatMarkdown => shown
         | Some Tools.FormatText => plain
         | Some Tools.FormatBoth =>
             "## Markdown Format" +:+ newline +:+ newline +:+ shown +:+ newline
             +:+ newline +:+ "---" +:+ newline +:+ newline +:+ "## Text Format"
             +:+ newline +:+ newline +:+ plain
         end), d').
Proof.
  intros Hrender Hget Hmsgs Hfull Htarget. split.
  - intros Hmissing. unfold Tools.recallTranscriptTool.
    rewrite Hfull, Htarget. cbn [default from_option id].
    rewrite (bind_ok _ _ _ _ _ (loadTranscript_run sid d)).
    now rewrite (proj1 (stored_missing d sid Hmissing)).
  - set (t := buildTranscript (render input) now (msg :: msgs) sid (project_id input)
                title (input_directory input) (input_worktree input) false).
    exists (savedOver t d).
    split; [apply (event_idle_run input now sid title msg msgs d Hget Hmsgs)|].
    unfold Tools.recallTranscriptTool. rewrite Hfull, Htarget.
    cbn [default from_option id].
    rewrite (bind_ok _ _ _ _ _ (loadTranscript_run sid (savedOver t d))).
    destruct (savedOver_stored t d) as (Hm & Hmd & Htx & _).
    change (sessionID (metadata t)) with sid in Hm, Hmd, Htx.
    unfold stored. rewrite Hm, Hmd, Htx.
    unfold savedOver at 1. cbn [session_dirs]. rewrite lookup_insert_eq.
    cbn [mbind option_bind markdown text]. 
    unfold t. cbn [markdown text buildTranscript]. rewrite Hrender.
    cbn [Rendering.renderers formatMessagesToMarkdown formatMessagesToText].
    destruct (Tools.format args) as [[]|]; reflexivity.
Qed.

Lemma recall_full_transcript_witness :
  (session_dirs Sample.emptyDisk !! "ses_1" = None ->
   Tools.recallTranscriptTool Sample.localDate Sample.recallFull Sample.toolContext
     Sample.emptyDisk =
   (Ok ("No transcript found for session " +:+ "ses_1"), Sample.emptyDisk)) /\
  exists d',
    event Sample.renderingHost 1000 (SessionIdle "ses_1") Sample.emptyDisk = (Ok tt, d') /\
    Tools.recallTranscriptTool Sample.localDate Sample.recallFull Sample.toolContext d' =
    (Ok (let shown := Rendering.formatMessagesToMarkdown Sample.isoDate Sample.localDate
                        Sample.indentJson (Sample.firstMessage :: [Sample.toolMessage])
                        "Upload path" 1000 in
         let plain := Rendering.formatMessagesToText Sample.isoDate Sample.localDate
                        Sample.indentJson (Sample.firstMessage :: [Sample.toolMessage])
                        "Upload path" 1000 in
         match Tools.format Sample.recallFull with
         | None | Some Tools.FormatMarkdown => shown
         | Some Tools.FormatText => plain
         | Some Tools.FormatBoth =>
             "## Markdown Format" +:+ newline +:+ newline +:+ shown +:+ newline
             +:+ newline +:+ "---" +:+ newline +:+ newline +:+ "## Text Format"
             +:+ newline +:+ newline +:+ plain
         end), d').
Proof.
  apply (recall_full_transcript Sample.isoDate Sample.localDate Sample.indentJson
           Sample.renderingHost 1000 "ses_1" "Upload path" Sample.firstMessage
           [Sample.toolMessage] Sample.recallFull Sample.toolContext Sample.emptyDisk);
    reflexivity.
Defined.

Lemma sliceTo_zero {A : Type} (l : list A) : sliceTo l 0 = [].
Proof.
  unfold sliceTo, clampIndex. cbn [Z.ltb Z.compare].
  replace (Z.min 0 (Z.of_nat (length l))) with 0%Z by lia. reflexivity.
Qed.

(** X30.  [recall_transcript] without [fullTranscript] shows what the
    search returns, for the query, the session asked for (all sessions
    when it is absent or empty) and the limit (5 when absent): it changes
    nothing, answers that there are no results exactly when the search
    has none, which is so under the limit 0, and otherwise shows every
    result with its session and its excerpt. *)
Theorem recall_search_shows_results (toLocaleString : Z -> string)
    (args : Tools.RecallArgs) (context : Tools.ToolContext) (d d' : Disk)
    (results : list SearchResult) :
  default false (Tools.fullTranscript args) = false ->
  searchTranscripts (recallOptions args) d = (Ok results, d') ->
  exists out,
    Tools.recallTranscriptTool toLocaleString args context d = (Ok out, d) /\
    (out = Tools.noResults (Tools.recall_query args) <-> results = []) /\
    (default 5 (Tools.recall_limit args) = 0%Z -> results = []) /\
    forall r, In r results ->
      includes out ("**Session:** " +:+ result_sessionID r) = true /\
      includes out (excerpt r) = true.
Proof.
  intros Hfull Hsearch.
  assert (Hd : d' = d) by (apply searchTranscripts_run in Hsearch; tauto). subst d'.
  assert (Hrun :
    match truthyString (Tools.recall_sessionID args) with
    | Some sessionID =>
        searchInSession sessionID (Tools.recall_query args)
          (Some (default 5 (Tools.recall_limit args)))
    | None =>
        searchTranscripts
          {| query := Tools.recall_query args; search_sessionID := None;
             search_projectID := None;
             Search.limit := Some (default 5 (Tools.recall_limit args));
             includeContext := Some true |}
    end d = (Ok results, d)).
  { rewrite <- Hsearch. unfold recallOptions, searchInSession.
    now destruct (truthyString (Tools.recall_sessionID args)). }
  unfold Tools.recallTranscriptTool. rewrite Hfull.
  rewrite (bind_ok _ _ _ _ _ Hrun).
  assert (Hzero : default 5 (Tools.recall_limit args) = 0%Z -> results = []).
  { intros H0. apply searchTranscripts_run in Hsearch as (_ & collected & _ & ->).
    unfold recallOptions. cbn [Search.limit default from_option id].
    rewrite H0. apply sliceTo_zero. }
  destruct results as [|r0 rest].
  - exists (Tools.noResults (Tools.recall_query args)).
    split; [reflexivity|]. split; [tauto|]. split; [tauto|]. intros r [].
  - eexists. split; [reflexivity|]. split; [|split; [exact Hzero|]].
    + split; [|discriminate]. intros E. exfalso. revert E.
      now apply found_is_no_refusal.
    + intros r Hr.
      split; apply In_join_includes; right; apply in_or_app; left;
        apply in_flat_map; exists r; (split; [exact Hr|]);
        unfold Tools.recallLinesOf.
      * cbn [In app]. tauto.
      * apply in_or_app. right. apply in_or_app. right. cbn [In app]. tauto.
Qed.

Lemma recall_search_shows_results_witness :
  exists out,
    Tools.recallTranscriptTool Sample.localDate Sample.recallBucket Sample.toolContext
      Sample.savedDisk = (Ok out, Sample.savedDisk) /\
    (out = Tools.noResults (Tools.recall_query Sample.recallBucket) <->
     match fst (searchTranscripts (recallOptions Sample.recallBucket) Sample.savedDisk) with
     | Ok results => results
     | _ => []
     end = []) /\
    (default 5 (Tools.recall_limit Sample.recallBucket) = 0%Z ->
     match fst (searchTranscripts (recallOptions Sample.recallBucket) Sample.savedDisk) with
     | Ok results => results
     | _ => []
     end = []) /\
    forall r,
      In r (match fst (searchTranscripts (recallOptions Sample.recallBucket)
                         Sample.savedDisk) with
            | Ok results => results
            | _ => []
            end) ->
      includes out ("**Session:** " +:+ result_sessionID r) = true /\
      includes out (excerpt r) = true.
Proof.
  apply (recall_search_shows_results Sample.localDate Sample.recallBucket
           Sample.toolContext Sample.savedDisk Sample.savedDisk).
  - reflexivity.
  - vm_compute. reflexivity.
Defined.
